(** * scli: the synchronisation core of a terminal Signal client

    A shallow embedding of the parts of [scli/__init__.py] that keep the
    per-conversation message store sorted ([Message], [ReorderedTimestamps],
    [Chat]), aggregate delivery receipts ([DeliveryStatus]), schedule
    background processes ([AsyncProc], [AsyncQueued], [AsyncContext]) and
    classify the output of a send command ([Daemon._parse_send_proc_output]),
    together with the unread counters ([UnreadCounts]), the history of the
    command line ([CommandsHistory]) and the [intersperse] helper, followed
    by the properties established about them. *)

From Stdlib Require Import ZArith Lia Ascii String.
From stdpp Require Import base option list sorting gmap sets strings.

(** ** Python primitives *)

Module Py.

(** The exceptions the modelled code raises or catches. *)
Inductive exn : Type :=
  | IndexError | KeyError | ValueError | AttributeError | TypeError.

#[global] Instance exn_eq_dec : EqDecision exn.
Proof. solve_decision. Defined.

(** A computation over a mutable object of type [S]: it returns a value or
    raises, and in both cases leaves the object in some state. *)
Inductive outcome (S A : Type) : Type :=
  | Ok (a : A) (s : S)
  | Raised (e : exn) (s : S).
Arguments Ok {S A} a s.
Arguments Raised {S A} e s.

Definition M (S A : Type) : Type := S -> outcome S A.

Definition ret {S A} (a : A) : M S A := fun s => Ok a s.

Definition bind {S A B} (m : M S A) (k : A -> M S B) : M S B :=
  fun s => match m s with
           | Ok a s' => k a s'
           | Raised e s' => Raised e s'
           end.

Definition raise {S A} (e : exn) : M S A := fun s => Raised e s.

Definition get {S} : M S S := fun s => Ok s s.

Definition modify {S} (f : S -> S) : M S unit := fun s => Ok tt (f s).

(** [try: m except <caught>: h]. *)
Definition try_except {S A} (m : M S A) (caught : exn -> bool) (h : exn -> M S A) : M S A :=
  fun s => match m s with
           | Ok a s' => Ok a s'
           | Raised e s' => if caught e then h e s' else Raised e s'
           end.

(** [with suppress(<caught>): m]. *)
Definition suppress {S} (caught : exn -> bool) (m : M S unit) : M S unit :=
  try_except m caught (fun _ => ret tt).

Definition final_state {S A} (o : outcome S A) : S :=
  match o with Ok _ s => s | Raised _ s => s end.

Definition is_ok {S A} (o : outcome S A) : bool :=
  match o with Ok _ _ => true | Raised _ _ => false end.

(** [a or b] on an optional integer: [None] and [0] are falsy. *)
Definition or_int (a : option Z) (b : Z) : Z :=
  match a with
  | Some v => if (v =? 0)%Z then b else v
  | None => b
  end.

(** [l[i]] with Python's negative indices; [None] stands for [IndexError]. *)
Definition getitem {A} (l : list A) (i : Z) : option A :=
  if (i <? 0)%Z then
    if (i + Z.of_nat (length l) <? 0)%Z then None
    else l !! Z.to_nat (i + Z.of_nat (length l))
  else l !! Z.to_nat i.

(** [del l[i]]. *)
Definition delitem {A} (l : list A) (i : Z) : option (list A) :=
  if (i <? 0)%Z then
    if (i + Z.of_nat (length l) <? 0)%Z then None
    else Some (delete (Z.to_nat (i + Z.of_nat (length l))) l)
  else if (i <? Z.of_nat (length l))%Z then Some (delete (Z.to_nat i) l)
  else None.

(** [l.insert(i, x)] for the indices [bisect] returns ([0 <= i <= len(l)]). *)
Definition list_insert_at {A} (l : list A) (i : nat) (x : A) : list A :=
  take i l ++ x :: drop i l.

(** The loop of [bisect.bisect_right]:
    [while lo < hi: mid = (lo + hi) // 2;
       if x < a[mid]: hi = mid  else: lo = mid + 1]. *)
Fixpoint bisect_right_loop {A} (lt : A -> A -> bool) (fuel : nat)
    (a : list A) (x : A) (lo hi : nat) : nat :=
  match fuel with
  | O => lo
  | S fuel' =>
      if (lo <? hi)%nat then
        let mid := ((lo + hi) / 2)%nat in
        match a !! mid with
        | Some y =>
            if lt x y then bisect_right_loop lt fuel' a x lo mid
            else bisect_right_loop lt fuel' a x (mid + 1)%nat hi
        | None => lo
        end
      else lo
  end.

Definition bisect_right {A} (lt : A -> A -> bool) (a : list A) (x : A) : nat :=
  bisect_right_loop lt (length a) a x 0%nat (length a).

(** The loop of [bisect.bisect_left]:
    [while lo < hi: mid = (lo + hi) // 2;
       if a[mid] < x: lo = mid + 1  else: hi = mid]. *)
Fixpoint bisect_left_loop {A B} (lt : A -> B -> bool) (fuel : nat)
    (a : list A) (x : B) (lo hi : nat) : nat :=
  match fuel with
  | O => lo
  | S fuel' =>
      if (lo <? hi)%nat then
        let mid := ((lo + hi) / 2)%nat in
        match a !! mid with
        | Some y =>
            if lt y x then bisect_left_loop lt fuel' a x (mid + 1)%nat hi
            else bisect_left_loop lt fuel' a x lo mid
        | None => lo
        end
      else lo
  end.

Definition bisect_left {A B} (lt : A -> B -> bool) (a : list A) (x : B) : nat :=
  bisect_left_loop lt (length a) a x 0%nat (length a).

End Py.

Notation "x <- m ;; k" := (Py.bind m (fun x => k))
  (at level 100, m at next level, right associativity).
Notation "m ;;; k" := (Py.bind m (fun _ => k))
  (at level 100, right associativity).

(** ** Envelopes and messages *)

(** One decoded event record.  [timestamp] is [envelope['timestamp']],
    [dataMessage_timestamp] the nested timestamp that
    [get_envelope_data_val(envelope, 'timestamp')] returns,
    [_received_timestamp] the optional local receipt time, and [content]
    stands for all remaining fields of the dictionary. *)
Record Envelope : Type := {
  source : string;
  timestamp : Z;
  dataMessage_timestamp : Z;
  _received_timestamp : option Z;
  content : string
}.

#[global] Instance Envelope_eq_dec : EqDecision Envelope.
Proof. solve_decision. Defined.

Definition get_envelope_time (envelope : Envelope) : Z :=
  if (timestamp envelope =? 0)%Z then dataMessage_timestamp envelope
  else timestamp envelope.

Definition get_envelope_sender_id (envelope : Envelope) : string :=
  source envelope.

(** A [Message] is a handle over an envelope with two side tables. *)
Record Message : Type := {
  envelope : Envelope;
  reactions : option (gmap string Envelope);
  remote_delete : option Envelope
}.

Module Message.

Definition new (e : Envelope) : Message :=
  {| envelope := e; reactions := None; remote_delete := None |}.

(** [Message.timestamp] (setter):
    [envelope['timestamp'] = envelope['dataMessage']['timestamp'] = ts_new].
    The envelope record always has its [dataMessage] part, so the
    [KeyError] of an envelope without one is not modelled. *)
Definition set_timestamp (m : Message) (ts_new : Z) : Message :=
  {| envelope :=
       {| source := source (envelope m);
          timestamp := ts_new;
          dataMessage_timestamp := ts_new;
          _received_timestamp := _received_timestamp (envelope m);
          content := content (envelope m) |};
     reactions := reactions m;
     remote_delete := remote_delete m |}.

(** [Message.timestamp] (getter). *)
Definition timestamp (m : Message) : Z := get_envelope_time (envelope m).

(** [Message.local_timestamp]:
    [envelope.get('_received_timestamp') or self.timestamp]. *)
Definition local_timestamp (m : Message) : Z :=
  Py.or_int (_received_timestamp (envelope m)) (timestamp m).

Definition sender_num (m : Message) : string :=
  get_envelope_sender_id (envelope m).

(** [__eq__], [__lt__], [__le__]. *)
Definition __eq__ (m other_msg : Message) : bool :=
  bool_decide (envelope m = envelope other_msg).

Definition __lt__ (m other_msg : Message) : bool :=
  (local_timestamp m <? local_timestamp other_msg)%Z.

Definition __le__ (m other_msg : Message) : bool :=
  (local_timestamp m <=? local_timestamp other_msg)%Z.

End Message.

(** ** The conversation store *)

(** A [Chat] is a list of messages (it subclasses [list]) together with the
    dictionary [_reordered_timestamps] of [ReorderedTimestamps], keyed by
    [(sender_num, original_ts)]. *)
Record Chat : Type := {
  items : list Message;
  _reordered_timestamps : gmap (string * Z) Z
}.

Module Chat.
Import Py.

Definition empty : Chat := {| items := []; _reordered_timestamps := ∅ |}.

Definition set_items (f : list Message -> list Message) (c : Chat) : Chat :=
  {| items := f (items c); _reordered_timestamps := _reordered_timestamps c |}.

Definition set_reordered (f : gmap (string * Z) Z -> gmap (string * Z) Z)
    (c : Chat) : Chat :=
  {| items := items c; _reordered_timestamps := f (_reordered_timestamps c) |}.

Definition is_IndexError (e : exn) : bool := bool_decide (e = IndexError).

(** [self[i]], [len(self)], [self.append(msg)], [self.insert(i, msg)],
    [del self[i]]. *)
Definition getitem (i : Z) : M Chat Message :=
  fun c => match Py.getitem (items c) i with
           | Some m => Ok m c
           | None => Raised IndexError c
           end.

Definition len : M Chat Z := fun c => Ok (Z.of_nat (length (items c))) c.

Definition append (msg : Message) : M Chat unit :=
  modify (set_items (fun l => l ++ [msg])).

Definition insert (i : nat) (msg : Message) : M Chat unit :=
  modify (set_items (fun l => list_insert_at l i msg)).

Definition delitem (i : Z) : M Chat unit :=
  fun c => match Py.delitem (items c) i with
           | Some l => Ok tt (set_items (fun _ => l) c)
           | None => Raised IndexError c
           end.

(** [for x in xs: body(x)]. *)
Fixpoint for_each {A} (xs : list A) (body : A -> M Chat unit) : M Chat unit :=
  match xs with
  | [] => ret tt
  | x :: xs' => body x ;;; for_each xs' body
  end.

(** *** [ReorderedTimestamps] *)

Definition _is_neighbd_monotonic (index : Z) : M Chat bool :=
  try_except
    (a <- getitem (index - 1) ;;
     b <- getitem index ;;
     if Message.__le__ a b then
       (c <- getitem (index + 1) ;; ret (Message.__le__ b c))
     else ret false)
    is_IndexError
    (fun _ => ret true).

(** The body of the inner loop of [_add_reordered_neighbors], for one
    neighbour pair and one direction [tlr]. *)
Definition reorder_pair (pre_post : Message * Message) (tlr : bool) : M Chat unit :=
  let '(local, received) :=
    if tlr then pre_post else (snd pre_post, fst pre_post) in
  match _received_timestamp (envelope received) with
  | None => ret tt
  | Some received_ts =>
      let original_ts := Message.timestamp received in
      let '(left_, right_) :=
        if tlr then (original_ts, received_ts) else (received_ts, original_ts) in
      if ((left_ <=? Message.local_timestamp local)%Z
          && (Message.local_timestamp local <=? right_)%Z)%bool
      then modify (set_reordered
                     <[(Message.sender_num received, original_ts) := received_ts]>)
      else ret tt
  end.

Definition _add_reordered_neighbors (index : Z) : M Chat unit :=
  pre_post_pairs <-
    (if (index =? -1)%Z then
       a <- getitem (-2) ;; b <- getitem (-1) ;; ret [(a, b)]
     else if (index =? 0)%Z then
       a <- getitem 0 ;; b <- getitem 1 ;; ret [(a, b)]
     else
       a <- getitem (index - 1) ;; b <- getitem index ;;
       b' <- getitem index ;; c <- getitem (index + 1) ;;
       ret [(a, b); (b', c)]) ;;
  for_each pre_post_pairs (fun pre_post =>
    for_each [true; false] (reorder_pair pre_post)).

(** One iteration of the loop of [_delete_from_reordered]; the result is the
    new value of [modified]. *)
Definition forget_neighbor (index ioffset : Z) (modified : bool) : M Chat bool :=
  try_except
    (neighb <- getitem (index + ioffset) ;;
     c <- get ;;
     let key := (Message.sender_num neighb, Message.timestamp neighb) in
     match _reordered_timestamps c !! key with
     | None => raise KeyError
     | Some _ => modify (set_reordered (delete key)) ;;; ret true
     end)
    (fun e => bool_decide (e = IndexError) || bool_decide (e = KeyError))
    (fun _ => ret modified).

Definition _delete_from_reordered (msg : Message) (index : Z) : M Chat unit :=
  modify (set_reordered
            (delete (Message.sender_num msg, Message.timestamp msg))) ;;;
  n <- len ;;
  let '(index, edge) :=
    if (index =? n)%Z then ((-1)%Z, true)
    else if negb (index =? 0)%Z then ((index - 1)%Z, false)
    else (index, true) in
  modified <-
    (if edge then forget_neighbor index 0 false
     else m1 <- forget_neighbor index (-1) false ;;
          forget_neighbor index 0 m1) ;;
  if modified then _add_reordered_neighbors index else ret tt.

(** *** [Chat] *)

Definition index (msg : Message) : M Chat Z :=
  msg_last <- try_except (getitem (-1)) is_IndexError (fun _ => raise ValueError) ;;
  if Message.__eq__ msg_last msg then
    n <- len ;; ret (n - 1)%Z
  else
    c <- get ;;
    let index := bisect_left Message.__lt__ (items c) msg in
    if bool_decide (index ≠ length (items c)) then
      m <- getitem (Z.of_nat index) ;;
      if Message.__eq__ m msg then ret (Z.of_nat index) else raise ValueError
    else raise ValueError.

Definition match_test (timestamp : Z) (sender_num : option string)
    (msg : Message) : bool :=
  (Message.timestamp msg =? timestamp)%Z
  && match sender_num with
     | Some s => bool_decide (Message.sender_num msg = s)
     | None => true
     end.

(** The probing loop of [index_ts] over the candidate indices [inds]:
    [Some ind] is [return ind]; [None] is leaving the loop ([break] or
    exhaustion). *)
Fixpoint index_ts_probe (timestamp : Z) (sender_num : option string)
    (index : Z) (inds : list Z) : M Chat (option Z) :=
  match inds with
  | [] => ret None
  | ind :: inds' =>
      msg <- getitem ind ;;
      if match_test timestamp sender_num msg then ret (Some ind)
      else if ((Message.timestamp msg >? timestamp)%Z && (ind >? index)%Z)%bool
           then ret None
           else index_ts_probe timestamp sender_num index inds'
  end.

(** [range(lo, hi)] *)
Definition range (lo hi : nat) : list Z :=
  Z.of_nat <$> seq lo (hi - lo).

(** [index_ts].  The dummy message [Message({'timestamp': key})] has no
    other field, so its [local_timestamp] is [key] when [key] is truthy and
    [None] otherwise; in the latter case the first comparison of the
    bisection (the store is not empty there) raises [TypeError]. *)
Definition index_ts (timestamp : Z) (sender_num : option string) : M Chat Z :=
  msg <- try_except (getitem (-1)) is_IndexError (fun _ => raise ValueError) ;;
  if match_test timestamp sender_num msg then
    n <- len ;; ret (n - 1)%Z
  else
    c <- get ;;
    let key :=
      or_int (match sender_num with
              | Some s => _reordered_timestamps c !! (s, timestamp)
              | None => None
              end) timestamp in
    if (key =? 0)%Z then raise TypeError
    else
      let index :=
        bisect_left (fun m k => (Message.local_timestamp m <? k)%Z) (items c) key in
      if bool_decide (index ≠ length (items c)) then
        r <- index_ts_probe timestamp sender_num (Z.of_nat index)
               ([Z.of_nat index; (Z.of_nat index - 1)%Z]
                  ++ range (index + 1) (length (items c))) ;;
        match r with
        | Some ind => ret ind
        | None => raise ValueError
        end
      else raise ValueError.

Definition get_msg_for_timestamp (timestamp : Z) (sender_num : option string)
    : M Chat Message :=
  ind <- index_ts timestamp sender_num ;;
  getitem ind.

Definition add (msg : Message) : M Chat unit :=
  let index := (-1)%Z in
  r <- try_except (m <- getitem index ;; ret (Some m))
         is_IndexError (fun _ => ret None) ;;
  match r with
  | None => append msg
  | Some msg_last =>
      index <-
        (if Message.__le__ msg_last msg then
           append msg ;;; ret index
         else
           c <- get ;;
           let index := bisect_right Message.__lt__ (items c) msg in
           insert index msg ;;; ret (Z.of_nat index)) ;;
      _add_reordered_neighbors index
  end.

Definition delete (msg : Message) (index_arg : option Z) : M Chat unit :=
  index <-
    try_except
      (index <- match index_arg with
                | None => index msg
                | Some i => ret i
                end ;;
       delitem index ;;; ret index)
      (fun e => bool_decide (e = ValueError) || bool_decide (e = IndexError))
      (fun _ => raise ValueError) ;;
  _delete_from_reordered msg index.

(** [adjust_timestamp(msg, timestamp_adj, index)].  The argument [msg] is the
    object stored at position [pos] of the list, so the assignment to
    [msg.timestamp] updates that element in place. *)
Definition adjust_timestamp (pos : nat) (timestamp_adj : Z) (index_arg : option Z)
    : M Chat unit :=
  msg0 <- getitem (Z.of_nat pos) ;;
  let msg := Message.set_timestamp msg0 timestamp_adj in
  modify (set_items <[pos := msg]>) ;;;
  index <- match index_arg with
           | Some i => if (i =? 0)%Z then index msg else ret i
           | None => index msg
           end ;;
  monotonic <- _is_neighbd_monotonic index ;;
  if negb monotonic then
    delete msg (Some index) ;;; add msg
  else ret tt.

(** Running a list of [add] calls from a given store. *)
Fixpoint add_all (msgs : list Message) : M Chat unit :=
  match msgs with
  | [] => ret tt
  | m :: msgs' => add m ;;; add_all msgs'
  end.

(** [get_index_for_envelope], [get_msg_for_envelope]: [Message(envelope)]
    has neither reactions nor a remote delete. *)
Definition get_index_for_envelope (e : Envelope) : M Chat Z :=
  let dummy_message := Message.new e in
  index dummy_message.

Definition get_msg_for_envelope (e : Envelope) : M Chat Message :=
  index <- get_index_for_envelope e ;;
  getitem index.

End Chat.


(** ** The delivery-status tracker *)

Module DeliveryStatus.
Import Py.

(** The status strings, in the order of the keys of [MARKUP_MAP]
    ([st_unset] is the empty string). *)
Inductive Status : Type :=
  | st_unset | st_received_by_me | st_sending | st_send_failed
  | st_sent | st_delivered | st_read | st_ignore_receipts.

#[global] Instance Status_eq_dec : EqDecision Status.
Proof. solve_decision. Defined.

Definition MARKUP_MAP_keys : list Status :=
  [st_unset; st_received_by_me; st_sending; st_send_failed;
   st_sent; st_delivered; st_read; st_ignore_receipts].

Definition MAX_GROUP_SIZE : nat := 15.

(** [_status_order = {key: ind for ind, key in enumerate(MARKUP_MAP)}]. *)
Definition _status_order (status : Status) : nat :=
  match list_find (fun key => key = status) MARKUP_MAP_keys with
  | Some (ind, _) => ind
  | None => 0
  end.

(** [DelivReadConts = namedtuple('DelivReadConts', ['delivered', 'read'])],
    holding two sets of contact ids. *)
Record DelivReadConts : Type := {
  delivered : gset string;
  read : gset string
}.

Inductive field : Type := f_delivered | f_read.

(** [getattr(conts, status)]: only the two field names are attributes. *)
Definition field_of_status (status : Status) : option field :=
  match status with
  | st_delivered => Some f_delivered
  | st_read => Some f_read
  | _ => None
  end.

Definition get_field (f : field) (g : DelivReadConts) : gset string :=
  match f with f_delivered => delivered g | f_read => read g end.

Definition set_field (f : field) (v : gset string) (g : DelivReadConts)
    : DelivReadConts :=
  match f with
  | f_delivered => {| delivered := v; read := read g |}
  | f_read => {| delivered := delivered g; read := v |}
  end.

(** The truth value of a set. *)
Definition nonempty (s : gset string) : bool := bool_decide (s ≠ ∅).

(** [DetailedStatus]; the slot [grp_memb_remain_un] may be unset. *)
Record DetailedStatus : Type := {
  str : Status;
  when : Z;
  grp_memb_remain_un : option DelivReadConts
}.

(** [DetailedStatus()] *)
Definition DetailedStatus_new : DetailedStatus :=
  {| str := st_unset; when := 0%Z; grp_memb_remain_un := None |}.

Definition with_grp (self : DetailedStatus) (g : option DelivReadConts)
    : DetailedStatus :=
  {| str := str self; when := when self; grp_memb_remain_un := g |}.

(** The part of [set_grp_memb_status] after the member has been removed from
    a set; [remaining] names the set that [grp_memb_remaining] refers to. *)
Definition set_grp_memb_status_tail (grp_member : string) (status : Status)
    (remaining : field) (g : DelivReadConts) : M DetailedStatus (option Status) :=
  fun self =>
    if bool_decide (status = st_delivered) then
      let g := set_field f_read (read g ∪ {[grp_member]}) g in
      if nonempty (get_field remaining g) then Ok None (with_grp self (Some g))
      else Ok (Some status) (with_grp self (Some g))
    else if nonempty (delivered g) || nonempty (read g) then
      Ok None (with_grp self (Some g))
    else Ok (Some status) (with_grp self None).

Definition set_grp_memb_status (grp_member : string) (status : Status)
    : M DetailedStatus (option Status) :=
  fun self =>
    match grp_memb_remain_un self with
    | None => Ok None self
    | Some g =>
        match field_of_status status with
        | None => Raised AttributeError self
        | Some f =>
            if bool_decide (grp_member ∈ get_field f g) then
              let g := set_field f (get_field f g ∖ {[grp_member]}) g in
              set_grp_memb_status_tail grp_member status f g self
            else if bool_decide (grp_member ∈ delivered g) then
              let g := set_field f_delivered (delivered g ∖ {[grp_member]}) g in
              if negb (nonempty (delivered g)) && nonempty (read g) then
                Ok (Some st_delivered) (with_grp self (Some g))
              else set_grp_memb_status_tail grp_member status f_delivered g self
            else Ok None self
        end
    end.

(** The tracker: [_status_map], [_buffered], and the calls made to the
    [on_status_changed] callback, most recent first. *)
Record t : Type := {
  _status_map : gmap Z DetailedStatus;
  _buffered : gmap Z DelivReadConts;
  status_changed : list (Z * Status)
}.

(** [DeliveryStatus()] *)
Definition new : t :=
  {| _status_map := ∅; _buffered := ∅; status_changed := [] |}.

Definition set_status_map (f : gmap Z DetailedStatus -> gmap Z DetailedStatus)
    (self : t) : t :=
  {| _status_map := f (_status_map self); _buffered := _buffered self;
     status_changed := status_changed self |}.

Definition set_buffered (f : gmap Z DelivReadConts -> gmap Z DelivReadConts)
    (self : t) : t :=
  {| _status_map := _status_map self; _buffered := f (_buffered self);
     status_changed := status_changed self |}.

Definition on_status_changed (timestamp : Z) (status : Status) : M t unit :=
  modify (fun self =>
    {| _status_map := _status_map self; _buffered := _buffered self;
       status_changed := (timestamp, status) :: status_changed self |}).

(** [self._status_map.get(timestamp, self.DetailedStatus())] *)
Definition get_detailed (timestamp : Z) : M t DetailedStatus :=
  fun self =>
    Ok (match _status_map self !! timestamp with
        | Some d => d
        | None => DetailedStatus_new
        end) self.

Definition get_str (timestamp : Z) : M t Status :=
  d <- get_detailed timestamp ;; ret (str d).

(** [self._status_map.setdefault(timestamp, self.DetailedStatus())] *)
Definition status_map_setdefault (timestamp : Z) : M t DetailedStatus :=
  fun self =>
    match _status_map self !! timestamp with
    | Some d => Ok d self
    | None => Ok DetailedStatus_new
                (set_status_map <[timestamp := DetailedStatus_new]> self)
    end.

(** Running a method of the [DetailedStatus] object stored under
    [timestamp]; the object is updated in place. *)
Definition on_entry {A} (timestamp : Z) (m : M DetailedStatus A) : M t A :=
  fun self =>
    match _status_map self !! timestamp with
    | None => Raised KeyError self
    | Some d =>
        match m d with
        | Ok a d' => Ok a (set_status_map <[timestamp := d']> self)
        | Raised e d' => Raised e (set_status_map <[timestamp := d']> self)
        end
    end.

Definition _set (timestamp : Z) (status : Status) (when_ : option Z)
    (receipt_contact : option string) : M t unit :=
  curr_status_detailed <- status_map_setdefault timestamp ;;
  let curr_status := str curr_status_detailed in
  if (_status_order status <=? _status_order curr_status)%nat then ret tt
  else
    status <-
      match grp_memb_remain_un curr_status_detailed, receipt_contact with
      | Some _, Some contact =>
          on_entry timestamp (set_grp_memb_status contact status)
      | _, _ => ret (Some status)
      end ;;
    match status with
    | None => ret tt
    | Some status =>
        on_entry timestamp (modify (fun d =>
          {| str := status;
             when := match when_ with Some w => w | None => when d end;
             grp_memb_remain_un := grp_memb_remain_un d |})) ;;;
        on_status_changed timestamp status
    end.

Definition _set_group_members (timestamp : Z) (group_members : gset string)
    : M t unit :=
  _ <- on_entry timestamp get ;;
  if (MAX_GROUP_SIZE <? size group_members)%nat then
    _set timestamp st_ignore_receipts None None
  else
    on_entry timestamp (modify (fun d =>
      with_grp d (Some {| delivered := group_members; read := ∅ |}))).

Definition _buffer_receipt (timestamp : Z) (status : Status) (contact : string)
    : M t unit :=
  self <- get ;;
  let buffered :=
    match _buffered self !! timestamp with
    | Some b => b
    | None => {| delivered := ∅; read := ∅ |}
    end in
  modify (set_buffered <[timestamp := buffered]>) ;;;
  match field_of_status status with
  | None => raise AttributeError
  | Some f =>
      modify (set_buffered
                <[timestamp := set_field f (get_field f buffered ∪ {[contact]}) buffered]>)
  end.

(** A receipt envelope: the sender and the fields of [receiptMessage]. *)
Record Receipt : Type := {
  receipt_source : string;
  isDelivery : bool;
  isRead : bool;
  isViewed : bool;
  timestamps : list Z;
  receipt_when : Z
}.

Fixpoint for_each {A} (xs : list A) (body : A -> M t unit) : M t unit :=
  match xs with
  | [] => ret tt
  | x :: xs' => body x ;;; for_each xs' body
  end.

Definition on_receive_receipt (envelope : Receipt) : M t unit :=
  let receipt_contact := receipt_source envelope in
  let go (status : Status) : M t unit :=
    for_each (timestamps envelope) (fun timestamp =>
      self <- get ;;
      match _status_map self !! timestamp with
      | None => _buffer_receipt timestamp status receipt_contact
      | Some _ =>
          _set timestamp status (Some (receipt_when envelope)) (Some receipt_contact)
      end) in
  if isDelivery envelope then go st_delivered
  else if isRead envelope then go st_read
  else if isViewed envelope then ret tt
  else ret tt.

Definition on_sending_message (envelope : Envelope)
    (group_members : option (gset string)) : M t unit :=
  let timestamp := get_envelope_time envelope in
  _set timestamp st_sending None None ;;;
  match group_members with
  | Some members => _set_group_members timestamp members
  | None => ret tt
  end.

(** [self._status_map[timestamp_adj] = self._status_map.pop(timestamp_orig)] *)
Definition _adjust_timestamp (timestamp_orig timestamp_adj : Z) : M t unit :=
  self <- get ;;
  match _status_map self !! timestamp_orig with
  | None => raise KeyError
  | Some d =>
      modify (set_status_map (fun m => <[timestamp_adj := d]> (delete timestamp_orig m)))
  end.

Definition on_sending_done (envelope : Envelope) (status : Status)
    (timestamp_adj : option Z) : M t unit :=
  let timestamp := get_envelope_time envelope in
  self <- get ;;
  match _status_map self !! timestamp with
  | None => ret tt
  | Some _ =>
      _set timestamp status None None ;;;
      if bool_decide (status = st_send_failed) then ret tt
      else match timestamp_adj with
           | Some adj => _adjust_timestamp timestamp adj
           | None => ret tt
           end
  end.

Section iteration_order.
(** The order in which a [for] loop visits a Python [set] is unspecified;
    it is a parameter of the model. *)
Variable set_iter : gset string -> list string.

Definition process_buffered_receipts (timestamp : Z) : M t unit :=
  self <- get ;;
  match _buffered self !! timestamp with
  | None => ret tt
  | Some buffered =>
      for_each [st_delivered; st_read] (fun status =>
        match field_of_status status with
        | None => raise AttributeError
        | Some f =>
            for_each (set_iter (get_field f buffered)) (fun contact =>
              _set timestamp status None (Some contact))
        end) ;;;
      modify (set_buffered (delete timestamp))
  end.

End iteration_order.

(** [delete] *)
Definition delete (timestamp : Z) : M t unit :=
  modify (set_status_map (base.delete timestamp)).

(** The value of a slot of [DetailedStatus], as [serialize] lists them;
    [v_grp None] is the [None] that [getattr(self, attr, None)] gives for
    an unset [grp_memb_remain_un]. *)
Inductive slot_value : Type :=
  | v_str (status : Status)
  | v_when (w : Z)
  | v_grp (g : option DelivReadConts).

(** The truth value of a slot value: the empty string, [0] and [None] are
    falsy; a [DelivReadConts] tuple has two fields and is truthy. *)
Definition truthy (v : slot_value) : bool :=
  match v with
  | v_str status => negb (bool_decide (status = st_unset))
  | v_when w => negb (w =? 0)%Z
  | v_grp (Some _) => true
  | v_grp None => false
  end.

(** [DetailedStatus.serialize]: the slots, without the falsy ones at the
    end. *)
Definition serialize (self : DetailedStatus) : list slot_value :=
  let ret := [v_str (str self); v_when (when self);
              v_grp (grp_memb_remain_un self)] in
  match list_find (fun val => Is_true (truthy val)) (reverse ret) with
  | Some (ind, _) =>
      if bool_decide (ind ≠ 0%nat) then take (length ret - ind) ret else ret
  | None => []
  end.

(** [DetailedStatus] called with the items of [args] as positional
    arguments.  The slots of the model are typed, so an argument list that
    [serialize] cannot produce is answered [None]. *)
Definition DetailedStatus_init (args : list slot_value) : option DetailedStatus :=
  let grp (g : option DelivReadConts) : option DelivReadConts :=
    match g with
    | Some conts =>
        Some {| delivered := if nonempty (delivered conts) then delivered conts else ∅;
                read := if nonempty (read conts) then read conts else ∅ |}
    | None => None
    end in
  match args with
  | [] => Some DetailedStatus_new
  | [v_str status] =>
      Some {| str := status; when := 0%Z; grp_memb_remain_un := None |}
  | [v_str status; v_when w] =>
      Some {| str := status; when := w; grp_memb_remain_un := None |}
  | [v_str status; v_when w; v_grp g] =>
      Some {| str := status; when := w; grp_memb_remain_un := grp g |}
  | _ => None
  end.

(** [dump]: the serialized entries, without those that serialize to the
    empty list. *)
Definition dump (self : t) : gmap Z (list slot_value) :=
  omap (fun status_detailed =>
          match serialize status_detailed with
          | [] => None
          | status_serialized => Some status_serialized
          end) (_status_map self).

(** [load], on a map with integer keys ([int(timestamp)] is then the key
    itself). *)
Definition load (status_map : gmap Z (list slot_value)) : M t unit :=
  for_each (map_to_list status_map) (fun '(timestamp, status_detailed) =>
    match DetailedStatus_init status_detailed with
    | Some d => modify (set_status_map <[timestamp := d]>)
    | None => raise TypeError
    end).

End DeliveryStatus.

(** ** Strings as Python uses them in the output classifier *)

Module PyStr.

Definition code (c : ascii) : nat := nat_of_ascii c.

(** [str.isspace] on the ASCII range. *)
Definition is_space (c : ascii) : bool :=
  ((code c =? 32) || ((9 <=? code c) && (code c <=? 13))
   || ((28 <=? code c) && (code c <=? 31)))%nat.

(** The line boundaries [str.splitlines] recognises below code 256. *)
Definition is_linebreak (c : ascii) : bool :=
  (((10 <=? code c) && (code c <=? 13)) || ((28 <=? code c) && (code c <=? 30))
   || (code c =? 133))%nat.

Definition is_digit (c : ascii) : bool := ((48 <=? code c) && (code c <=? 57))%nat.

Fixpoint chars (s : string) : list ascii :=
  match s with
  | EmptyString => []
  | String c s' => c :: chars s'
  end.

Fixpoint of_chars (l : list ascii) : string :=
  match l with
  | [] => EmptyString
  | c :: l' => String c (of_chars l')
  end.

Fixpoint starts_with (p s : list ascii) : bool :=
  match p, s with
  | [], _ => true
  | _ :: _, [] => false
  | a :: p', b :: s' => bool_decide (a = b) && starts_with p' s'
  end.

(** [needle in s] *)
Fixpoint contains_chars (needle s : list ascii) : bool :=
  starts_with needle s
  || match s with
     | [] => false
     | _ :: s' => contains_chars needle s'
     end.

Definition contains (needle s : string) : bool :=
  contains_chars (chars needle) (chars s).

(** [s.splitlines()[0]]; [None] is the [IndexError] on an empty list. *)
Fixpoint first_line_chars (s : list ascii) : list ascii :=
  match s with
  | [] => []
  | c :: s' => if is_linebreak c then [] else c :: first_line_chars s'
  end.

Definition splitlines_0 (s : string) : option string :=
  match chars s with
  | [] => None
  | l => Some (of_chars (first_line_chars l))
  end.

(** [s.rsplit(sep, 1)[-1]]: what follows the last occurrence of [sep], or
    all of [s] when there is none. *)
Fixpoint after_last_chars (sep s acc : list ascii) : list ascii :=
  match s with
  | [] => acc
  | _ :: s' =>
      after_last_chars sep s'
        (if starts_with sep s then drop (length sep) s else acc)
  end.

Definition rsplit_1_last (sep s : string) : string :=
  of_chars (after_last_chars (chars sep) (chars s) (chars s)).

Fixpoint lstrip_chars (l : list ascii) : list ascii :=
  match l with
  | c :: l' => if is_space c then lstrip_chars l' else l
  | [] => []
  end.

Definition rstrip_chars (l : list ascii) : list ascii :=
  rev (lstrip_chars (rev l)).

Fixpoint take_token (l : list ascii) : list ascii * list ascii :=
  match l with
  | c :: l' =>
      if is_space c then ([], l)
      else let '(tok, rest) := take_token l' in (c :: tok, rest)
  | [] => ([], [])
  end.

(** [s.rsplit(maxsplit=1)]: split once, from the right, on whitespace. *)
Definition rsplit_maxsplit_1 (s : string) : list string :=
  match lstrip_chars (rev (chars s)) with
  | [] => []
  | r =>
      let '(tok, rest) := take_token r in
      match lstrip_chars rest with
      | [] => [of_chars (rev tok)]
      | rest' => [of_chars (rev rest'); of_chars (rev tok)]
      end
  end.

(** The digits of a decimal literal, with single underscores allowed
    between digits. *)
Fixpoint digits_value (l : list ascii) (after_digit : bool) (acc : Z) : option Z :=
  match l with
  | [] => if after_digit then Some acc else None
  | c :: l' =>
      if is_digit c then
        digits_value l' true (10 * acc + Z.of_nat (code c - 48))%Z
      else if bool_decide (c = "_"%char) && after_digit then
        digits_value l' false acc
      else None
  end.

(** [int(s)]; [None] is the [ValueError] for a string that is not a decimal
    integer literal. *)
Definition int (s : string) : option Z :=
  match rstrip_chars (lstrip_chars (chars s)) with
  | c :: l =>
      if bool_decide (c = "-"%char) then Z.opp <$> digits_value l false 0%Z
      else if bool_decide (c = "+"%char) then digits_value l false 0%Z
      else digits_value (c :: l) false 0%Z
  | [] => None
  end.

End PyStr.

(** ** The output classifier of the daemon bridge *)

Module Daemon.
Import Py.

(** A finished process, as [_parse_send_proc_output] reads it. *)
Record Proc : Type := {
  returncode : Z;
  output : string
}.

(** The calls made to the entries of [self.callbacks]. *)
Inductive callback_call : Type :=
  | untrusted_identity_err (envelope : Envelope)
  | user_unregistered_err (envelope : Envelope)
  | named_callback (callback_name : string) (envelope : Envelope)
      (status : option DeliveryStatus.Status) (timestamp_adj : option Z).

(** The state is the list of callback calls made so far, oldest first. *)
Definition call (c : callback_call) : M (list callback_call) unit :=
  modify (fun calls => calls ++ [c]).

Section classifier.
(** [is_envelope_group_message] reads fields of the envelope ([groupInfo],
    [target], [typingMessage]) that the model keeps inside [content]. *)
Variable is_envelope_group_message : Envelope -> bool.

Definition _parse_send_proc_output (proc : Proc) (envelope : Envelope)
    (callback_name : string) : M (list callback_call) unit :=
  if negb (returncode proc =? 0)%Z then
    returned <-
      (if PyStr.contains "UntrustedIdentity" (output proc)
          || PyStr.contains "Untrusted Identity" (output proc)
       then call (untrusted_identity_err envelope) ;;; ret false
       else if PyStr.contains "Unregistered user" (output proc) then
         if negb (is_envelope_group_message envelope) then
           call (user_unregistered_err envelope) ;;; ret false
         else
           line <- match PyStr.splitlines_0 (output proc) with
                   | Some line => ret line
                   | None => raise IndexError
                   end ;;
           timestamp_adj <- match PyStr.int (PyStr.rsplit_1_last ": " line) with
                            | Some n => ret n
                            | None => raise ValueError
                            end ;;
           call (named_callback callback_name envelope
                   (Some DeliveryStatus.st_ignore_receipts) (Some timestamp_adj)) ;;;
           ret true
       else ret false) ;;
    if returned : bool then ret tt
    else call (named_callback callback_name envelope
                 (Some DeliveryStatus.st_send_failed) None)
  else
    r <- try_except
           (token <- match PyStr.rsplit_maxsplit_1 (output proc) !! 1%nat with
                     | Some token => ret token
                     | None => raise IndexError
                     end ;;
            timestamp_adj <- match PyStr.int token with
                             | Some n => ret n
                             | None => raise ValueError
                             end ;;
            ret (Some timestamp_adj))
           (fun e => bool_decide (e = IndexError) || bool_decide (e = AttributeError))
           (fun _ => call (named_callback callback_name envelope None None) ;;;
                     ret None) ;;
    match r with
    | Some timestamp_adj =>
        call (named_callback callback_name envelope
                (Some DeliveryStatus.st_sent) (Some timestamp_adj))
    | None => ret tt
    end.

End classifier.
End Daemon.

(** ** The process scheduler: [AsyncProc], [AsyncQueued], [AsyncContext] *)

Module Async.
Import Py.

(** The arguments of a [run] call: the command, and the callback to call
    with the finished process (with its captured arguments). *)
Record run_args : Type := {
  args : string;
  callback : option string;
  shell : bool
}.

(** What the scheduler does that is visible outside it: it starts a process,
    or calls one of the callbacks it was given.  Processes are named by the
    identity of their [Popen] object. *)
Inductive event : Type :=
  | ev_popen (proc : nat) (args : string)
  | ev_callback (callback : string) (proc : nat)
  | ev_proc_callback (proc_callback : string) (proc : nat)
  | ev_item_callback (callback : string).

#[global] Instance event_eq_dec : EqDecision event.
Proof. solve_decision. Defined.

(** [AsyncContext.ContextItem], with the identity of the object. *)
Record ContextItem : Type := {
  item_id : nat;
  procs : gset nat;
  item_callback : option string;
  proc_callback : option string;
  buffered_runs : gset nat
}.

(** An [AsyncContext] object.  [watched] holds the [watchpipe_handler]
    closures registered with the main loop, by process; [queue] entries
    carry the [id()] of the queued dictionary; [next_id] is the next fresh
    object identity; [trace] lists the events so far, oldest first. *)
Record t : Type := {
  _curr_running : gset nat;
  _run_queue : list (nat * run_args);
  _max_background_procs : Z;
  _context_items : list ContextItem;
  _accepting_new_procs_for_item : bool;
  watched : gmap nat run_args;
  next_id : nat;
  trace : list event
}.

(** [AsyncContext(main_loop)] with the resource limit [max_procs]. *)
Definition new (max_procs : Z) : t :=
  {| _curr_running := ∅; _run_queue := []; _max_background_procs := max_procs;
     _context_items := []; _accepting_new_procs_for_item := false;
     watched := ∅; next_id := 0; trace := [] |}.

Definition emit (e : event) : M t unit :=
  modify (fun self =>
    {| _curr_running := _curr_running self; _run_queue := _run_queue self;
       _max_background_procs := _max_background_procs self;
       _context_items := _context_items self;
       _accepting_new_procs_for_item := _accepting_new_procs_for_item self;
       watched := watched self; next_id := next_id self;
       trace := trace self ++ [e] |}).

Definition fresh : M t nat :=
  fun self =>
    Ok (next_id self)
       {| _curr_running := _curr_running self; _run_queue := _run_queue self;
          _max_background_procs := _max_background_procs self;
          _context_items := _context_items self;
          _accepting_new_procs_for_item := _accepting_new_procs_for_item self;
          watched := watched self; next_id := S (next_id self);
          trace := trace self |}.

Definition set_curr_running (f : gset nat -> gset nat) : M t unit :=
  modify (fun self =>
    {| _curr_running := f (_curr_running self); _run_queue := _run_queue self;
       _max_background_procs := _max_background_procs self;
       _context_items := _context_items self;
       _accepting_new_procs_for_item := _accepting_new_procs_for_item self;
       watched := watched self; next_id := next_id self; trace := trace self |}).

Definition set_run_queue (f : list (nat * run_args) -> list (nat * run_args))
    : M t unit :=
  modify (fun self =>
    {| _curr_running := _curr_running self; _run_queue := f (_run_queue self);
       _max_background_procs := _max_background_procs self;
       _context_items := _context_items self;
       _accepting_new_procs_for_item := _accepting_new_procs_for_item self;
       watched := watched self; next_id := next_id self; trace := trace self |}).

Definition set_context_items (f : list ContextItem -> list ContextItem) : M t unit :=
  modify (fun self =>
    {| _curr_running := _curr_running self; _run_queue := _run_queue self;
       _max_background_procs := _max_background_procs self;
       _context_items := f (_context_items self);
       _accepting_new_procs_for_item := _accepting_new_procs_for_item self;
       watched := watched self; next_id := next_id self; trace := trace self |}).

Definition set_accepting (b : bool) : M t unit :=
  modify (fun self =>
    {| _curr_running := _curr_running self; _run_queue := _run_queue self;
       _max_background_procs := _max_background_procs self;
       _context_items := _context_items self;
       _accepting_new_procs_for_item := b;
       watched := watched self; next_id := next_id self; trace := trace self |}).

Definition set_watched (f : gmap nat run_args -> gmap nat run_args) : M t unit :=
  modify (fun self =>
    {| _curr_running := _curr_running self; _run_queue := _run_queue self;
       _max_background_procs := _max_background_procs self;
       _context_items := _context_items self;
       _accepting_new_procs_for_item := _accepting_new_procs_for_item self;
       watched := f (watched self); next_id := next_id self; trace := trace self |}).

Definition set_procs (f : gset nat -> gset nat) (item : ContextItem) : ContextItem :=
  {| item_id := item_id item; procs := f (procs item);
     item_callback := item_callback item; proc_callback := proc_callback item;
     buffered_runs := buffered_runs item |}.

Definition set_buffered_runs (f : gset nat -> gset nat) (item : ContextItem)
    : ContextItem :=
  {| item_id := item_id item; procs := procs item;
     item_callback := item_callback item; proc_callback := proc_callback item;
     buffered_runs := f (buffered_runs item) |}.

(** Updating the last item in place: [self._curr_item] is
    [self._context_items[-1]]. *)
Definition on_curr_item (f : ContextItem -> ContextItem) : M t unit :=
  self <- get ;;
  match last (_context_items self) with
  | None => raise IndexError
  | Some _ =>
      set_context_items (fun items =>
        take (length items - 1) items ++ (f <$> drop (length items - 1) items))
  end.

(** The truth value of a set. *)
Definition nonempty (s : gset nat) : bool := bool_decide (s ≠ ∅).

(** *** [AsyncProc] and the overriding [_on_proc_started] methods *)

(** [AsyncContext._on_proc_started], which first runs
    [AsyncQueued._on_proc_started]. *)
Definition _on_proc_started (proc : nat) : M t unit :=
  set_curr_running (fun running => running ∪ {[proc]}) ;;;
  self <- get ;;
  if negb (_accepting_new_procs_for_item self) then ret tt
  else on_curr_item (set_procs (fun ps => ps ∪ {[proc]})).

(** [AsyncProc.run]: register the handler, start the process, and call
    [self._on_proc_started]. *)
Definition AsyncProc_run (r : run_args) : M t nat :=
  proc <- fresh ;;
  set_watched <[proc := r]> ;;;
  emit (ev_popen proc (args r)) ;;;
  _on_proc_started proc ;;;
  ret proc.

(** *** [AsyncQueued] *)

Definition _max_procs_reached (self : t) : bool :=
  (Z.of_nat (size (_curr_running self)) =? _max_background_procs self)%Z.

(** [AsyncContext._add_buffered_run] *)
Definition _add_buffered_run (run_id : nat) : M t unit :=
  self <- get ;;
  if negb (_accepting_new_procs_for_item self) then ret tt
  else on_curr_item (set_buffered_runs (fun ids => ids ∪ {[run_id]})).

(** [AsyncContext._add_run_to_queue] *)
Definition _add_run_to_queue (run_id : nat) (r : run_args) : M t unit :=
  set_run_queue (fun q => q ++ [(run_id, r)]) ;;;
  _add_buffered_run run_id.

(** [AsyncQueued.run]; the result is the started process, if any. *)
Definition run (r : run_args) : M t (option nat) :=
  run_id <- fresh ;;
  self <- get ;;
  if negb (_max_procs_reached self) then
    proc <- AsyncProc_run r ;; ret (Some proc)
  else
    _add_run_to_queue run_id r ;;; ret None.

Definition _pop_run (proc : nat) : M t (option (nat * run_args)) :=
  self <- get ;;
  (if bool_decide (proc ∈ _curr_running self) then
     set_curr_running (fun running => running ∖ {[proc]})
   else raise KeyError) ;;;
  match _run_queue self with
  | [] => ret None
  | next :: q => set_run_queue (fun _ => q) ;;; ret (Some next)
  end.

Definition AsyncQueued__on_proc_done (proc : nat)
    : M t (option (nat * run_args) * option nat) :=
  run_args_next <- _pop_run proc ;;
  match run_args_next with
  | Some (run_id, r) =>
      started_proc <- AsyncProc_run r ;;
      ret (Some (run_id, r), Some started_proc)
  | None => ret (None, None)
  end.

(** *** [AsyncContext] *)

Definition _new_item (callback proc_callback : option string) : M t unit :=
  match callback, proc_callback with
  | None, None => ret tt
  | _, _ =>
      id <- fresh ;;
      set_context_items (fun items =>
        items ++ [{| item_id := id; procs := ∅; item_callback := callback;
                     proc_callback := proc_callback; buffered_runs := ∅ |}]) ;;;
      set_accepting true
  end.

(** [_pop_callback(item)]: [None] pops the last item. *)
Definition _pop_callback (item : option ContextItem) : M t unit :=
  item <-
    match item with
    | None =>
        self <- get ;;
        match last (_context_items self) with
        | None => raise IndexError
        | Some item =>
            set_context_items (fun items => take (length items - 1) items) ;;;
            ret item
        end
    | Some item =>
        self <- get ;;
        match list_find (fun i => item_id i = item_id item) (_context_items self) with
        | None => raise ValueError
        | Some (k, _) => set_context_items (delete k) ;;; ret item
        end
    end ;;
  match item_callback item with
  | Some cb => emit (ev_item_callback cb)
  | None => ret tt
  end.

Definition _finalize_item : M t unit :=
  set_accepting false ;;;
  self <- get ;;
  match last (_context_items self) with
  | None => ret tt
  | Some curr_item =>
      if negb (nonempty (procs curr_item)
               || nonempty (buffered_runs curr_item))
      then _pop_callback None
      else ret tt
  end.

(** [with self.callback_finally(callback, proc_callback): body]. *)
Definition callback_finally {A} (callback proc_callback : option string)
    (body : M t A) : M t A :=
  _new_item callback proc_callback ;;;
  fun self =>
    match body self with
    | Ok a self' => (_finalize_item ;;; ret a) self'
    | Raised e self' =>
        match _finalize_item self' with
        | Ok _ self'' => Raised e self''
        | Raised e' self'' => Raised e' self''
        end
    end.

(** The loop of [_remove_buffered_run] over the items. *)
Fixpoint remove_buffered_from (run_id started_proc : nat) (items : list ContextItem)
    : list ContextItem :=
  match items with
  | [] => []
  | item :: items' =>
      if bool_decide (run_id ∈ buffered_runs item) then
        set_procs (fun ps => ps ∪ {[started_proc]})
          (set_buffered_runs (fun ids => ids ∖ {[run_id]}) item) :: items'
      else item :: remove_buffered_from run_id started_proc items'
  end.

Definition _remove_buffered_run (run_params : option (nat * run_args))
    (started_proc : option nat) : M t unit :=
  match run_params, started_proc with
  | Some (run_id, _), Some started_proc =>
      set_context_items (remove_buffered_from run_id started_proc)
  | _, _ => ret tt
  end.

(** [AsyncContext._on_proc_done] *)
Definition _on_proc_done (proc : nat) : M t unit :=
  r <- AsyncQueued__on_proc_done proc ;;
  _remove_buffered_run r.1 r.2 ;;;
  self <- get ;;
  match list_find (fun item => proc ∈ procs item) (_context_items self) with
  | None => ret tt
  | Some (k, item) =>
      let item := set_procs (fun ps => ps ∖ {[proc]}) item in
      set_context_items <[k := item]> ;;;
      match proc_callback item with
      | Some cb => emit (ev_proc_callback cb proc)
      | None => ret tt
      end ;;;
      self <- get ;;
      if negb (nonempty (procs item)
               || nonempty (buffered_runs item)
               || _accepting_new_procs_for_item self)
      then _pop_callback (Some item)
      else ret tt
  end.

(** [watchpipe_handler], run by the main loop when [proc] has exited. *)
Definition watchpipe_handler (proc : nat) : M t unit :=
  self <- get ;;
  match watched self !! proc with
  | None => raise KeyError
  | Some r =>
      set_watched (delete proc) ;;;
      match callback r with
      | Some cb => emit (ev_callback cb proc)
      | None => ret tt
      end ;;;
      _on_proc_done proc
  end.

End Async.

(** ** [UnreadCounts] *)

Module UnreadCounts.
Import Py.

(** A [defaultdict(int)] from contact ids to counts. *)
Abbreviation t := (gmap string Z) (only parsing).

(** [self[contact_id]]: a missing key is inserted with the value [int()]. *)
Definition getitem (contact_id : string) : M t Z :=
  fun self =>
    match self !! contact_id with
    | Some count => Ok count self
    | None => Ok 0%Z (<[contact_id := 0%Z]> self)
    end.

(** [self[contact_id] = count], [self[contact_id] += 1]. *)
Definition setitem (contact_id : string) (count : Z) : M t unit :=
  modify <[contact_id := count]>.

Definition increment (contact_id : string) : M t unit :=
  count <- getitem contact_id ;;
  setitem contact_id (count + 1)%Z.

(** [total]: [sum(self.values())]. *)
Definition total (self : t) : Z :=
  map_fold (fun _ count acc => (acc + count)%Z) 0%Z self.

(** [serialize] *)
Definition serialize (self : t) : gmap string Z :=
  filter (fun kv => kv.2 ≠ 0%Z) self.

End UnreadCounts.

(** ** [CommandsHistory] *)

Module CommandsHistory.
Import Py.

Record t : Type := {
  _history : list string;
  _index : Z;
  _stashed_input : option string
}.

(** [CommandsHistory()] *)
Definition new : t :=
  {| _history := []; _index := 0%Z; _stashed_input := None |}.

Definition set_index (f : Z -> Z) : M t unit :=
  modify (fun self =>
    {| _history := _history self; _index := f (_index self);
       _stashed_input := _stashed_input self |}).

Definition set_stashed_input (input : option string) : M t unit :=
  modify (fun self =>
    {| _history := _history self; _index := _index self;
       _stashed_input := input |}).

(** [self._history[self._index]] *)
Definition history_at_index : M t string :=
  fun self =>
    match Py.getitem (_history self) (_index self) with
    | Some cmd => Ok cmd self
    | None => Raised IndexError self
    end.

Definition prev (curr_input : string) : M t string :=
  self <- get ;;
  differs <-
    (if bool_decide (Some curr_input ≠ _stashed_input self)
        && negb (bool_decide (_history self = []))
     then cmd <- history_at_index ;; ret (bool_decide (curr_input ≠ cmd))
     else ret false) ;;
  (if differs : bool then set_index (fun _ => 0%Z) else ret tt) ;;;
  self <- get ;;
  (if (_index self =? 0)%Z then set_stashed_input (Some curr_input) else ret tt) ;;;
  set_index (fun i => (i - 1)%Z) ;;;
  try_except history_at_index
    (fun e => bool_decide (e = IndexError))
    (fun _ => set_index (fun i => (i + 1)%Z) ;;; ret curr_input).

(** [next]; the result [None] is the [None] of a [_stashed_input] that was
    never set. *)
Definition next (curr_input : string) : M t (option string) :=
  self <- get ;;
  if (_index self =? 0)%Z then ret (Some curr_input)
  else
    set_index (fun i => (i + 1)%Z) ;;;
    self <- get ;;
    if (_index self =? 0)%Z then ret (_stashed_input self)
    else cmd <- history_at_index ;; ret (Some cmd).

Definition add (cmd : string) : M t unit :=
  modify (fun self =>
    {| _history := _history self ++ [cmd]; _index := 0%Z;
       _stashed_input := _stashed_input self |}).

End CommandsHistory.

(** ** [intersperse] *)

(** The items the generator [intersperse(value, container)] yields. *)
Definition intersperse {A} (value : A) (container : list A) : list A :=
  match container with
  | [] => []
  | first :: it => first :: flat_map (fun item => [value; item]) it
  end.
(** ** Facts about the Python primitives *)

Module PyFacts.
Import Py.

Section bisect.
Context {A B : Type}.

Lemma bisect_right_loop_spec (lt : A -> A -> bool) fuel (a : list A) x lo hi :
  (lo <= hi)%nat -> (hi <= length a)%nat -> (hi - lo <= fuel)%nat ->
  let r := bisect_right_loop lt fuel a x lo hi in
  (lo <= r <= hi)%nat /\
  (forall y, (lo < r)%nat -> a !! (r - 1)%nat = Some y -> lt x y = false) /\
  (forall y, (r < hi)%nat -> a !! r = Some y -> lt x y = true).
Proof.
  revert lo hi. induction fuel as [|fuel IH]; intros lo hi Hlh Hlen Hfuel; cbn [bisect_right_loop]; cbv zeta.
  - split; [lia|]. split; intros; lia.
  - destruct (Nat.ltb_spec lo hi) as [Hlt|Hge]; [|split; [lia|split; intros; lia]].
    assert (Hmid : (lo <= (lo + hi) / 2 < hi)%nat).
    { split; [apply Nat.div_le_lower_bound; lia | apply Nat.Div0.div_lt_upper_bound; lia]. }
    destruct (lookup_lt_is_Some_2 a ((lo + hi) / 2)%nat) as [y Hy]; [lia|].
    rewrite Hy. destruct (lt x y) eqn:Hxy.
    + destruct (IH lo ((lo + hi) / 2)%nat) as (Hr & Hl & Hu); [lia..|].
      split; [lia|]. split; [exact Hl|].
      intros z Hz Hlook.
      destruct (decide (bisect_right_loop lt fuel a x lo ((lo + hi) / 2) = (lo + hi) / 2)%nat) as [Heq|Hne].
      * rewrite Heq in Hlook. congruence.
      * apply Hu; [lia|done].
    + destruct (IH ((lo + hi) / 2 + 1)%nat hi) as (Hr & Hl & Hu); [lia..|].
      split; [lia|]. split; [|exact Hu].
      intros z Hz Hlook.
      destruct (decide (bisect_right_loop lt fuel a x ((lo + hi) / 2 + 1) hi = (lo + hi) / 2 + 1)%nat) as [Heq|Hne].
      * rewrite Heq in Hlook. replace ((lo + hi) / 2 + 1 - 1)%nat with ((lo + hi) / 2)%nat in Hlook by lia. congruence.
      * apply Hl; [lia|done].
Qed.

End bisect.
End PyFacts.

(** ** Facts about the conversation store *)

Module ChatFacts.
Import Py.
Local Open Scope Z_scope.

Definition le_key (a b : Message) : Prop :=
  Message.local_timestamp a <= Message.local_timestamp b.

Definition sorted (l : list Message) : Prop := StronglySorted le_key l.

Definition add_items (l : list Message) (msg : Message) : list Message :=
  match last l with
  | None => [msg]
  | Some msg_last =>
      if Message.__le__ msg_last msg then l ++ [msg]
      else list_insert_at l (bisect_right Message.__lt__ l msg) msg
  end.

Definition items_kept {A} (m : M Chat A) : Prop :=
  forall c, exists a r, m c = Ok a {| items := items c; _reordered_timestamps := r |}.

Lemma getitem_nonneg {A} (l : list A) (i : Z) :
  0 <= i -> Py.getitem l i = l !! Z.to_nat i.
Proof. intros Hi. unfold Py.getitem. destruct (Z.ltb_spec i 0); [lia|done]. Qed.

Lemma getitem_neg {A} (l : list A) (i : Z) :
  - Z.of_nat (length l) <= i < 0 ->
  Py.getitem l i = l !! Z.to_nat (i + Z.of_nat (length l)).
Proof.
  intros Hi. unfold Py.getitem. destruct (Z.ltb_spec i 0); [|lia].
  destruct (Z.ltb_spec (i + Z.of_nat (length l)) 0); [lia|done].
Qed.

Lemma getitem_last {A} (l : list A) : Py.getitem l (-1) = last l.
Proof.
  destruct l as [|x l] using rev_ind; [done|].
  rewrite getitem_neg, last_snoc by (rewrite length_app; simpl; lia).
  rewrite length_app; simpl.
  replace (Z.to_nat (-1 + Z.of_nat (length l + 1))) with (length l + 0)%nat by lia.
  by rewrite lookup_app_r, Nat.add_0_r, Nat.sub_diag by lia.
Qed.

Lemma Chat_getitem_Some c i m :
  Py.getitem (items c) i = Some m -> Chat.getitem i c = Ok m c.
Proof. unfold Chat.getitem. by intros ->. Qed.

Lemma reorder_pair_kept pp tlr : items_kept (Chat.reorder_pair pp tlr).
Proof.
  intros c. unfold Chat.reorder_pair.
  destruct (if tlr then pp else (pp.2, pp.1)) as [local received].
  destruct (_received_timestamp (envelope received)) as [received_ts|];
    [|destruct c; by eexists _, _].
  destruct (if tlr then _ else _) as [l r].
  destruct (_ && _); destruct c; by eexists _, _.
Qed.

Lemma for_each_kept {A} (xs : list A) body :
  (forall x, items_kept (body x)) -> items_kept (Chat.for_each xs body).
Proof.
  intros Hbody. induction xs as [|x xs IH]; intros c; simpl.
  - destruct c; by eexists _, _.
  - unfold bind. destruct (Hbody x c) as (a & r & ->).
    destruct (IH {| items := items c; _reordered_timestamps := r |}) as (a' & r' & ->).
    by eexists _, _.
Qed.

Lemma _add_reordered_neighbors_kept index c :
  (index = -1 \/ index = 0) /\ (2 <= length (items c))%nat
  \/ 1 <= index /\ index + 1 < Z.of_nat (length (items c)) ->
  exists r, Chat._add_reordered_neighbors index c
            = Ok tt {| items := items c; _reordered_timestamps := r |}.
Proof.
  intros Hvalid. unfold Chat._add_reordered_neighbors.
  assert (Hloop : forall pairs, items_kept
            (Chat.for_each pairs (fun pre_post : Message * Message =>
               Chat.for_each [true; false] (Chat.reorder_pair pre_post)))).
  { intros pairs. apply for_each_kept. intros pp.
    apply for_each_kept. intros tlr. apply reorder_pair_kept. }
  assert (Hget : forall i, - Z.of_nat (length (items c)) <= i < Z.of_nat (length (items c)) ->
            exists m, Chat.getitem i c = Ok m c).
  { intros i Hi. destruct (Z.ltb_spec i 0).
    - destruct (lookup_lt_is_Some_2 (items c) (Z.to_nat (i + Z.of_nat (length (items c))))) as [m Hm]; [lia|].
      exists m. apply Chat_getitem_Some. by rewrite getitem_neg by lia.
    - destruct (lookup_lt_is_Some_2 (items c) (Z.to_nat i)) as [m Hm]; [lia|].
      exists m. apply Chat_getitem_Some. by rewrite getitem_nonneg by lia. }
  unfold bind at 1.
  destruct (Z.eqb_spec index (-1)) as [->|Hn1].
  { destruct (Hget (-2)) as [a Ha]; [lia|]. destruct (Hget (-1)) as [b Hb]; [lia|].
    unfold bind at 1. rewrite Ha. unfold bind at 1. rewrite Hb. unfold ret at 1.
    destruct (Hloop [(a, b)] c) as ([] & r & ->). by exists r. }
  destruct (Z.eqb_spec index 0) as [->|Hn0].
  { destruct (Hget 0) as [a Ha]; [lia|]. destruct (Hget 1) as [b Hb]; [lia|].
    unfold bind at 1. rewrite Ha. unfold bind at 1. rewrite Hb. unfold ret at 1.
    destruct (Hloop [(a, b)] c) as ([] & r & ->). by exists r. }
  destruct (Hget (index - 1)) as [a Ha]; [lia|].
  destruct (Hget index) as [b Hb]; [lia|].
  destruct (Hget (index + 1)) as [d Hd]; [lia|].
  unfold bind at 1. rewrite Ha. unfold bind at 1. rewrite Hb.
  unfold bind at 1. rewrite Hb. unfold bind at 1. rewrite Hd. unfold ret at 1.
  destruct (Hloop [(a, b); (b, d)] c) as ([] & r & ->). by exists r.
Qed.

Lemma bisect_right_lt_length (l : list Message) msg msg_last :
  last l = Some msg_last -> Message.__le__ msg_last msg = false ->
  (bisect_right Message.__lt__ l msg < length l)%nat.
Proof.
  intros Hlast Hle.
  destruct (PyFacts.bisect_right_loop_spec Message.__lt__ (length l) l msg 0 (length l))
    as (Hr & Hl & _); [lia..|].
  fold (bisect_right Message.__lt__ l msg) in Hr, Hl.
  destruct (decide (bisect_right Message.__lt__ l msg = length l)) as [Heq|]; [|lia].
  assert (Hlen : (0 < length l)%nat) by (destruct l; [done|simpl; lia]).
  rewrite last_lookup in Hlast.
  specialize (Hl msg_last). rewrite Heq in Hl.
  replace (length l - 1)%nat with (Nat.pred (length l)) in Hl by lia.
  specialize (Hl Hlen Hlast).
  unfold Message.__lt__, Message.__le__ in *. lia.
Qed.

Lemma add_ok msg c :
  exists r, Chat.add msg c
            = Ok tt {| items := add_items (items c) msg; _reordered_timestamps := r |}.
Proof.
  unfold Chat.add, add_items. unfold bind at 1. unfold try_except, bind at 1, Chat.getitem.
  rewrite getitem_last. destruct (last (items c)) as [msg_last|] eqn:Hlast.
  - unfold ret at 1. unfold bind at 1.
    destruct (Message.__le__ msg_last msg) eqn:Hle.
    + unfold bind at 1, Chat.append, modify, ret.
      apply _add_reordered_neighbors_kept. left. split; [by left|].
      simpl. rewrite length_app. simpl.
      destruct (items c); [done|simpl; lia].
    + pose proof (bisect_right_lt_length _ _ _ Hlast Hle) as Hlt.
      unfold bind at 1, get. unfold bind at 1, Chat.insert, modify, ret.
      apply _add_reordered_neighbors_kept. simpl.
      unfold list_insert_at. rewrite length_app. simpl.
      rewrite length_take, length_drop.
      destruct (decide (bisect_right Message.__lt__ (items c) msg = 0)%nat) as [->|].
      * left. split; [by right|]. simpl. lia.
      * right. lia.
  - apply last_None in Hlast. destruct c as [l r]; simpl in *; subst l.
    by eexists.
Qed.

Lemma elem_of_drop_lookup {A} (x : A) n l :
  x ∈ drop n l <-> exists i, l !! i = Some x /\ (n <= i)%nat.
Proof.
  rewrite list_elem_of_lookup. setoid_rewrite lookup_drop. split.
  - intros [i Hi]. exists (n + i)%nat. split; [done|lia].
  - intros (i & Hi & Hn). exists (i - n)%nat.
    by replace (n + (i - n))%nat with i by lia.
Qed.

Lemma sorted_lookup (l : list Message) i j x y :
  sorted l -> (i <= j)%nat -> l !! i = Some x -> l !! j = Some y -> le_key x y.
Proof.
  intros Hs Hij Hx Hy.
  destruct (decide (i = j)) as [->|Hne].
  { rewrite Hx in Hy. injection Hy as ->. unfold le_key. lia. }
  rewrite <- (take_drop j l) in Hs.
  eapply StronglySorted_app_1_elem_of; [exact Hs| |].
  - apply elem_of_take. exists i. split; [done|lia].
  - apply elem_of_drop_lookup. exists j. split; [done|lia].
Qed.

Lemma sorted_snoc l msg_last msg :
  sorted l -> last l = Some msg_last -> Message.__le__ msg_last msg = true ->
  sorted (l ++ [msg]).
Proof.
  intros Hs Hlast Hle. apply StronglySorted_app_2.
  - intros x1 x2 Hx1 ->%list_elem_of_singleton.
    apply list_elem_of_lookup in Hx1 as [i Hi].
    rewrite last_lookup in Hlast.
    assert (le_key x1 msg_last).
    { eapply sorted_lookup; [done| |done..]. apply lookup_lt_Some in Hi. lia. }
    unfold le_key, Message.__le__ in *. lia.
  - done.
  - repeat constructor.
Qed.

Lemma sorted_insert l msg :
  sorted l -> sorted (list_insert_at l (bisect_right Message.__lt__ l msg) msg).
Proof.
  intros Hs.
  destruct (PyFacts.bisect_right_loop_spec Message.__lt__ (length l) l msg 0 (length l))
    as (Hr & Hl & Hu); [lia..|].
  fold (bisect_right Message.__lt__ l msg) in Hr, Hl, Hu.
  set (p := bisect_right Message.__lt__ l msg) in *.
  assert (Hbefore : forall x, x ∈ take p l -> le_key x msg).
  { intros x (i & Hi & Hip)%elem_of_take.
    destruct (lookup_lt_is_Some_2 l (p - 1)%nat) as [y Hy]; [lia|].
    assert (le_key x y) by (eapply sorted_lookup; [done| |done..]; lia).
    specialize (Hl y ltac:(lia) Hy).
    unfold le_key, Message.__lt__ in *. lia. }
  assert (Hafter : forall x, x ∈ drop p l -> le_key msg x).
  { intros x (i & Hi & Hip)%elem_of_drop_lookup.
    assert (Hpl : (p < length l)%nat) by (apply lookup_lt_Some in Hi; lia).
    destruct (lookup_lt_is_Some_2 l p) as [y Hy]; [lia|].
    assert (le_key y x) by (eapply sorted_lookup; [done| |done..]; lia).
    specialize (Hu y Hpl Hy).
    unfold le_key, Message.__lt__ in *. lia. }
  unfold sorted in Hs. rewrite <- (take_drop p l) in Hs.
  apply StronglySorted_app in Hs as (Hcross & Htake & Hdrop).
  unfold list_insert_at. apply StronglySorted_app_2.
  - intros x1 x2 Hx1 [->|Hx2]%elem_of_cons; [by apply Hbefore|].
    unfold le_key. pose proof (Hbefore _ Hx1). pose proof (Hafter _ Hx2).
    unfold le_key in *. lia.
  - done.
  - constructor; [done|]. apply Forall_forall. intros x Hx. by apply Hafter.
Qed.

Lemma add_items_sorted l msg : sorted l -> sorted (add_items l msg).
Proof.
  intros Hs. unfold add_items. destruct (last l) as [msg_last|] eqn:Hlast.
  - destruct (Message.__le__ msg_last msg) eqn:Hle.
    + by eapply sorted_snoc.
    + by apply sorted_insert.
  - repeat constructor.
Qed.

Lemma add_all_sorted msgs c :
  sorted (items c) ->
  exists c', Chat.add_all msgs c = Ok tt c' /\ sorted (items c').
Proof.
  revert c. induction msgs as [|m msgs IH]; intros c Hs; simpl.
  - by exists c.
  - unfold bind. destruct (add_ok m c) as [r ->].
    apply IH. simpl. by apply add_items_sorted.
Qed.

(** C1: starting from the empty store, every [add] call returns normally and
    the store is sorted in non-decreasing order of [local_timestamp] after
    each call, that is, after every prefix of the sequence of calls. *)
Theorem add_calls_keep_store_sorted (msgs : list Message) (k : nat) :
  exists c, Chat.add_all (take k msgs) Chat.empty = Ok tt c
            /\ StronglySorted
                 (fun a b => Message.local_timestamp a <= Message.local_timestamp b)
                 (items c).
Proof. apply add_all_sorted. constructor. Qed.

End ChatFacts.

(** ** Message identity *)

Module MessageFacts.
Local Open Scope Z_scope.

(** Two messages that agree on sender and sender timestamp and differ in
    text are not equal. *)
Lemma same_sender_and_timestamp_not_equal :
  let e1 := {| source := "+15550001"; timestamp := 1000;
               dataMessage_timestamp := 1000; _received_timestamp := None;
               content := "hello" |} in
  let e2 := {| source := "+15550001"; timestamp := 1000;
               dataMessage_timestamp := 1000; _received_timestamp := None;
               content := "bye" |} in
  Message.sender_num (Message.new e1) = Message.sender_num (Message.new e2)
  /\ Message.timestamp (Message.new e1) = Message.timestamp (Message.new e2)
  /\ ~ (Message.__eq__ (Message.new e1) (Message.new e2) = true
        <-> Message.sender_num (Message.new e1) = Message.sender_num (Message.new e2)
            /\ Message.timestamp (Message.new e1) = Message.timestamp (Message.new e2)).
Proof.
  cbv zeta. split; [reflexivity|]. split; [reflexivity|].
  intros [_ Hback]. specialize (Hback (conj eq_refl eq_refl)).
  vm_compute in Hback. discriminate.
Qed.

(** C5 (amended): [m1 == m2] holds exactly when the two envelopes are equal
    in every field, whatever the side tables hold; equal messages therefore
    agree on sender id and sender timestamp, and the converse is not
    claimed. *)
Theorem message_eq_is_envelope_equality (m1 m2 : Message) :
  (Message.__eq__ m1 m2 = true
   <-> source (envelope m1) = source (envelope m2)
       /\ timestamp (envelope m1) = timestamp (envelope m2)
       /\ dataMessage_timestamp (envelope m1) = dataMessage_timestamp (envelope m2)
       /\ _received_timestamp (envelope m1) = _received_timestamp (envelope m2)
       /\ content (envelope m1) = content (envelope m2))
  /\ (Message.__eq__ m1 m2 = true ->
      Message.sender_num m1 = Message.sender_num m2
      /\ Message.timestamp m1 = Message.timestamp m2).
Proof.
  unfold Message.__eq__. rewrite bool_decide_eq_true.
  destruct m1 as [[s1 t1 d1 r1 c1] ? ?], m2 as [[s2 t2 d2 r2 c2] ? ?]; simpl.
  split.
  - split.
    + intros [= -> -> -> -> ->]. done.
    + intros (-> & -> & -> & -> & ->). done.
  - intros [= -> -> -> -> ->]. done.
Qed.

End MessageFacts.

(** ** Facts about the delivery-status tracker *)

Module DeliveryStatusFacts.
Import Py DeliveryStatus.

(** What [get_detailed] and [get_str] report for a timestamp. *)
Definition entry_of (self : t) (timestamp : Z) : DetailedStatus :=
  match get_detailed timestamp self with
  | Ok d _ => d
  | Raised _ _ => DetailedStatus_new
  end.

Definition status_of (self : t) (timestamp : Z) : Status :=
  match get_str timestamp self with
  | Ok status _ => status
  | Raised _ _ => st_unset
  end.

Lemma status_of_entry self timestamp :
  status_of self timestamp = str (entry_of self timestamp).
Proof. reflexivity. Qed.

Lemma entry_of_lookup self timestamp :
  entry_of self timestamp
  = match _status_map self !! timestamp with
    | Some d => d
    | None => DetailedStatus_new
    end.
Proof. reflexivity. Qed.

(** What [_set] does to the entry it works on; the result is the status
    passed to [on_status_changed], if the callback is reached. *)
Definition entry_set (status : Status) (when_ : option Z)
    (receipt_contact : option string) : M DetailedStatus (option Status) :=
  fun d =>
    if (_status_order status <=? _status_order (str d))%nat then Ok None d
    else
      let finish (st : Status) (d' : DetailedStatus) :=
        Ok (Some st)
           {| str := st;
              when := match when_ with Some w => w | None => when d' end;
              grp_memb_remain_un := grp_memb_remain_un d' |} in
      match grp_memb_remain_un d, receipt_contact with
      | Some _, Some contact =>
          match set_grp_memb_status contact status d with
          | Ok (Some st) d' => finish st d'
          | Ok None d' => Ok None d'
          | Raised e d' => Raised e d'
          end
      | _, _ => finish status d
      end.

Definition store_entry (self : t) (timestamp : Z) (d : DetailedStatus)
    (notified : option Status) : t :=
  {| _status_map := <[timestamp := d]> (_status_map self);
     _buffered := _buffered self;
     status_changed :=
       match notified with
       | Some st => (timestamp, st) :: status_changed self
       | None => status_changed self
       end |}.

Lemma _set_unfold timestamp status when_ receipt_contact self :
  _set timestamp status when_ receipt_contact self =
    match entry_set status when_ receipt_contact (entry_of self timestamp) with
    | Ok r d' => Ok tt (store_entry self timestamp d' r)
    | Raised e d' => Raised e (store_entry self timestamp d' None)
    end.
Proof.
  destruct self as [m b l].
  unfold _set, entry_set, entry_of, get_detailed, store_entry, status_map_setdefault. simpl.
  unfold bind at 1. simpl.
  destruct (m !! timestamp) as [d|] eqn:Hm; simpl.
  - destruct (_status_order status <=? _status_order (str d))%nat; simpl.
    { unfold ret. by rewrite insert_id. }
    unfold bind at 1.
    destruct (grp_memb_remain_un d) as [g|] eqn:Hg; [destruct receipt_contact as [contact|]|].
    + unfold on_entry at 1. simpl. rewrite Hm.
      destruct (set_grp_memb_status contact status d) as [[st|] d'|e d']; simpl; try done.
      unfold bind, on_entry, modify, on_status_changed, set_status_map. simpl.
      rewrite lookup_insert_eq. simpl. by rewrite insert_insert_eq.
    + unfold ret at 1. unfold bind, on_entry, modify, on_status_changed, set_status_map. simpl.
      rewrite Hm. simpl. by rewrite Hg.
    + unfold ret at 1. unfold bind, on_entry, modify, on_status_changed, set_status_map. simpl.
      rewrite Hm. simpl. by rewrite Hg.
  - destruct (_status_order status <=? _)%nat; simpl.
    { done. }
    unfold bind, ret, on_entry, modify, on_status_changed, set_status_map. simpl.
    rewrite lookup_insert_eq. simpl. by rewrite insert_insert_eq.
Qed.

Lemma _status_order_values :
  _status_order <$> MARKUP_MAP_keys = [0; 1; 2; 3; 4; 5; 6; 7]%nat.
Proof. reflexivity. Qed.

Lemma entry_set_advances status when_ receipt_contact d :
  (_status_order (str d)
   <= _status_order (str (final_state (entry_set status when_ receipt_contact d))))%nat.
Proof.
  unfold entry_set.
  destruct (Nat.leb_spec (_status_order status) (_status_order (str d))) as [|Hlt];
    [done|].
  destruct (grp_memb_remain_un d) as [g|] eqn:Hg; [|simpl; lia].
  destruct receipt_contact as [contact|]; [|simpl; lia].
  unfold set_grp_memb_status. rewrite Hg.
  destruct status; simpl; try done; unfold set_grp_memb_status_tail;
    repeat (simpl; match goal with
                   | |- context [bool_decide ?P] => destruct (bool_decide_reflect P)
                   | |- context [nonempty ?s] => destruct (nonempty s)
                   end); simpl; try done; try lia;
    destruct (str d); try done; vm_compute in Hlt |- *; lia.
Qed.

(** A computation advances when it never lowers the status reported for
    any timestamp, whether it returns or raises. *)
Definition advances {A} (m : M t A) : Prop :=
  forall self timestamp,
    (_status_order (status_of self timestamp)
     <= _status_order (status_of (final_state (m self)) timestamp))%nat.

Lemma advances_ret {A} (a : A) : advances (ret a).
Proof. intros self ts. done. Qed.

Lemma advances_raise {A} e : advances (raise (A := A) e).
Proof. intros self ts. done. Qed.

Lemma advances_get : advances get.
Proof. intros self ts. done. Qed.

Lemma advances_bind {A B} (m : M t A) (k : A -> M t B) :
  advances m -> (forall a, advances (k a)) -> advances (bind m k).
Proof.
  intros Hm Hk self ts. unfold bind. specialize (Hm self ts).
  destruct (m self) as [a s'|e s']; simpl in *; [|done].
  etrans; [exact Hm|]. apply Hk.
Qed.

Lemma advances_for_each {A} (xs : list A) body :
  (forall x, advances (body x)) -> advances (for_each xs body).
Proof.
  intros Hbody. induction xs as [|x xs IH]; simpl.
  - apply advances_ret.
  - apply advances_bind; [apply Hbody|]. intros _. apply IH.
Qed.

Lemma advances_set_buffered f : advances (modify (set_buffered f)).
Proof. intros self ts. done. Qed.

Lemma advances_on_status_changed ts status : advances (on_status_changed ts status).
Proof. intros self ts'. done. Qed.

Lemma status_of_store_entry self timestamp d r ts' :
  status_of (store_entry self timestamp d r) ts'
  = if decide (timestamp = ts') then str d else status_of self ts'.
Proof.
  unfold status_of, get_str, get_detailed, bind, ret, store_entry. simpl.
  rewrite lookup_insert. by destruct (decide (timestamp = ts')).
Qed.

Lemma advances_on_entry {A} timestamp (m : M DetailedStatus A) :
  (forall d, (_status_order (str d) <= _status_order (str (final_state (m d))))%nat) ->
  advances (on_entry timestamp m).
Proof.
  intros Hm self ts'. unfold on_entry.
  destruct (_status_map self !! timestamp) as [d|] eqn:Hd; [|done].
  specialize (Hm d).
  assert (Hgoal : (_status_order (status_of self ts')
            <= _status_order (status_of (set_status_map <[timestamp := final_state (m d)]> self) ts'))%nat).
  { unfold status_of, get_str, get_detailed, bind, ret, set_status_map. simpl.
    rewrite lookup_insert. destruct (decide (timestamp = ts')) as [<-|]; [|done].
    by rewrite Hd. }
  by destruct (m d).
Qed.

Lemma advances__set timestamp status when_ receipt_contact :
  advances (_set timestamp status when_ receipt_contact).
Proof.
  intros self ts'. rewrite _set_unfold.
  pose proof (entry_set_advances status when_ receipt_contact (entry_of self timestamp)) as Hadv.
  destruct (entry_set _ _ _ _) as [r d'|e d']; simpl in *;
    rewrite status_of_store_entry; destruct (decide (timestamp = ts')) as [<-|]; done.
Qed.

Lemma advances__buffer_receipt timestamp status contact :
  advances (_buffer_receipt timestamp status contact).
Proof.
  unfold _buffer_receipt. apply advances_bind; [apply advances_get|]. intros self.
  apply advances_bind; [apply advances_set_buffered|]. intros _.
  destruct (field_of_status status); [apply advances_set_buffered|apply advances_raise].
Qed.

Lemma advances_on_receive_receipt envelope : advances (on_receive_receipt envelope).
Proof.
  unfold on_receive_receipt.
  assert (Hgo : forall status, advances (for_each (timestamps envelope) (fun timestamp =>
            self <- get ;;
            match _status_map self !! timestamp with
            | None => _buffer_receipt timestamp status (receipt_source envelope)
            | Some _ => _set timestamp status (Some (receipt_when envelope))
                          (Some (receipt_source envelope))
            end))).
  { intros status. apply advances_for_each. intros ts.
    apply advances_bind; [apply advances_get|]. intros self.
    destruct (_status_map self !! ts); [apply advances__set|apply advances__buffer_receipt]. }
  destruct (isDelivery envelope); [apply Hgo|].
  destruct (isRead envelope); [apply Hgo|].
  destruct (isViewed envelope); apply advances_ret.
Qed.

Lemma advances__set_group_members timestamp group_members :
  advances (_set_group_members timestamp group_members).
Proof.
  unfold _set_group_members. apply advances_bind.
  { apply advances_on_entry. intros d. done. }
  intros _. destruct (_ <? _)%nat; [apply advances__set|].
  apply advances_on_entry. intros d. done.
Qed.

Lemma advances_on_sending_message envelope group_members :
  advances (on_sending_message envelope group_members).
Proof.
  unfold on_sending_message. apply advances_bind; [apply advances__set|]. intros _.
  destruct group_members; [apply advances__set_group_members|apply advances_ret].
Qed.

Lemma advances_process_buffered_receipts set_iter timestamp :
  advances (process_buffered_receipts set_iter timestamp).
Proof.
  unfold process_buffered_receipts. apply advances_bind; [apply advances_get|]. intros self.
  destruct (_buffered self !! timestamp) as [buffered|]; [|apply advances_ret].
  apply advances_bind; [|intros _; apply advances_set_buffered].
  apply advances_for_each. intros status.
  destruct (field_of_status status); [|apply advances_raise].
  apply advances_for_each. intros contact. apply advances__set.
Qed.

(** The calls of the tracker that set or report a status. *)
Inductive call : Type :=
  | call__set (timestamp : Z) (status : Status) (when_ : option Z)
      (receipt_contact : option string)
  | call_on_receive_receipt (envelope : Receipt)
  | call_on_sending_message (envelope : Envelope) (group_members : option (gset string))
  | call_process_buffered_receipts (timestamp : Z).

Definition run_call (set_iter : gset string -> list string) (c : call) : M t unit :=
  match c with
  | call__set timestamp status when_ receipt_contact =>
      _set timestamp status when_ receipt_contact
  | call_on_receive_receipt envelope => on_receive_receipt envelope
  | call_on_sending_message envelope group_members =>
      on_sending_message envelope group_members
  | call_process_buffered_receipts timestamp =>
      process_buffered_receipts set_iter timestamp
  end.

(** The tracker after a sequence of calls; a call that raises leaves the
    tracker as it was at the point of the exception. *)
Fixpoint run_calls (set_iter : gset string -> list string) (cs : list call)
    (self : t) : t :=
  match cs with
  | [] => self
  | c :: cs' => run_calls set_iter cs' (final_state (run_call set_iter c self))
  end.

Lemma advances_run_call set_iter c : advances (run_call set_iter c).
Proof.
  destruct c; simpl;
    auto using advances__set, advances_on_receive_receipt,
      advances_on_sending_message, advances_process_buffered_receipts.
Qed.

Lemma run_calls_app set_iter cs1 cs2 self :
  run_calls set_iter (cs1 ++ cs2) self
  = run_calls set_iter cs2 (run_calls set_iter cs1 self).
Proof. revert self. induction cs1 as [|c cs1 IH]; intros self; simpl; [done|apply IH]. Qed.

Lemma run_calls_advances set_iter cs self timestamp :
  (_status_order (status_of self timestamp)
   <= _status_order (status_of (run_calls set_iter cs self) timestamp))%nat.
Proof.
  revert self. induction cs as [|c cs IH]; intros self; simpl; [done|].
  etrans; [apply (advances_run_call set_iter c)|apply IH].
Qed.

Lemma _set_noop timestamp status when_ receipt_contact self :
  (_status_order status <= _status_order (status_of self timestamp))%nat ->
  exists self',
    _set timestamp status when_ receipt_contact self = Ok tt self'
    /\ (forall ts', entry_of self' ts' = entry_of self ts')
    /\ _buffered self' = _buffered self
    /\ status_changed self' = status_changed self
    /\ (is_Some (_status_map self !! timestamp) -> self' = self).
Proof.
  intros Hle. rewrite _set_unfold. unfold entry_set.
  rewrite status_of_entry in Hle.
  destruct (Nat.leb_spec (_status_order status) (_status_order (str (entry_of self timestamp))));
    [|lia].
  eexists. split; [done|]. split; [|split; [done|split; [done|]]].
  - intros ts'. rewrite !entry_of_lookup. unfold store_entry. simpl.
    rewrite lookup_insert. destruct (decide (timestamp = ts')) as [<-|]; done.
  - intros [d Hd]. rewrite entry_of_lookup, Hd.
    destruct self as [m b l]. unfold store_entry. simpl in *. by rewrite insert_id.
Qed.

(** C2: over any sequence of [_set], receipt, sending and replay calls, in
    any interleaving, the status reported for a timestamp never moves down
    the precedence order of [MARKUP_MAP]; and a [_set] whose new status does
    not rank above the current one returns without changing any reported
    entry, the buffered receipts or the notifications, and leaves the
    tracker itself unchanged when the timestamp is already tracked. *)
Theorem status_only_advances (set_iter : gset string -> list string) (self : t) :
  (forall calls_before calls_after timestamp,
     (_status_order (status_of (run_calls set_iter calls_before self) timestamp)
      <= _status_order
           (status_of (run_calls set_iter (calls_before ++ calls_after) self) timestamp))%nat)
  /\ (forall timestamp status when_ receipt_contact,
        (_status_order status <= _status_order (status_of self timestamp))%nat ->
        exists self',
          _set timestamp status when_ receipt_contact self = Ok tt self'
          /\ (forall ts', entry_of self' ts' = entry_of self ts')
          /\ _buffered self' = _buffered self
          /\ status_changed self' = status_changed self
          /\ (is_Some (_status_map self !! timestamp) -> self' = self)).
Proof.
  split.
  - intros cs1 cs2 ts. rewrite run_calls_app. apply run_calls_advances.
  - intros. by apply _set_noop.
Qed.

(** C10: for a timestamp with no entry, [get_detailed] returns the default
    [DetailedStatus()] (empty status, [when = 0], no group sets) and
    [get_str] the empty status, and both leave the tracker, that is the
    status map, the buffered receipts and the notifications, as it was. *)
Theorem queries_of_untracked_timestamp_are_pure (self : t) (timestamp : Z) :
  _status_map self !! timestamp = None ->
  get_detailed timestamp self
    = Ok {| str := st_unset; when := 0%Z; grp_memb_remain_un := None |} self
  /\ get_str timestamp self = Ok st_unset self.
Proof.
  intros Hnone. unfold get_str, bind, get_detailed. rewrite Hnone. done.
Qed.

Lemma queries_of_untracked_timestamp_are_pure_witness :
  let self := {| _status_map := {[ 1700000000001%Z :=
                    {| str := st_sent; when := 0%Z; grp_memb_remain_un := None |} ]};
                 _buffered := {[ 1700000000002%Z :=
                    {| delivered := {[ "+15550001" ]}; read := ∅ |} ]};
                 status_changed := [] |} in
  get_detailed 1700000000002%Z self
    = Ok {| str := st_unset; when := 0%Z; grp_memb_remain_un := None |} self
  /\ get_str 1700000000002%Z self = Ok st_unset self.
Proof.
  cbv zeta. apply queries_of_untracked_timestamp_are_pure. reflexivity.
Defined.

End DeliveryStatusFacts.

(** ** Receipts commute: the effect of a set of receipts on one entry *)

Module ReplayFacts.
Import Py DeliveryStatus DeliveryStatusFacts.

Definition core : Type := Status * option DelivReadConts.

Definition core_of (d : DetailedStatus) : core := (str d, grp_memb_remain_un d).

Definition status_of_field (f : field) : Status :=
  match f with f_delivered => st_delivered | f_read => st_read end.

(** The effect of one receipt on the status and the group sets of an
    entry, in closed form. *)
Definition recv (contact : string) (f : field) (c : core) : core :=
  if (_status_order (status_of_field f) <=? _status_order c.1)%nat then c
  else
    match c.2 with
    | None => (status_of_field f, None)
    | Some g =>
        match f with
        | f_delivered =>
            if bool_decide (contact ∈ delivered g) then
              (if bool_decide (delivered g ∖ {[contact]} ≠ ∅) then c.1 else st_delivered,
               Some {| delivered := delivered g ∖ {[contact]};
                       read := read g ∪ {[contact]} |})
            else c
        | f_read =>
            if bool_decide (contact ∈ read g) then
              if bool_decide (delivered g ≠ ∅) || bool_decide (read g ∖ {[contact]} ≠ ∅)
              then (c.1, Some {| delivered := delivered g; read := read g ∖ {[contact]} |})
              else (st_read, None)
            else if bool_decide (contact ∈ delivered g) then
              if negb (bool_decide (delivered g ∖ {[contact]} ≠ ∅))
                 && bool_decide (read g ≠ ∅)
              then (st_delivered,
                    Some {| delivered := delivered g ∖ {[contact]}; read := read g |})
              else if bool_decide (delivered g ∖ {[contact]} ≠ ∅)
                      || bool_decide (read g ≠ ∅)
              then (c.1, Some {| delivered := delivered g ∖ {[contact]}; read := read g |})
              else (st_read, None)
            else c
        end
    end.

Lemma entry_set_recv contact f when_ d :
  exists r d',
    entry_set (status_of_field f) when_ (Some contact) d = Ok r d'
    /\ core_of d' = recv contact f (core_of d).
Proof.
  unfold entry_set, recv, core_of. simpl.
  destruct (_ <=? _)%nat; [by eexists _, _|].
  destruct d as [tag w [g|]]; simpl; [|by eexists _, _].
  unfold set_grp_memb_status, set_grp_memb_status_tail, nonempty, with_grp. simpl.
  destruct f; simpl;
    repeat (match goal with
            | |- context [bool_decide ?P] => destruct (bool_decide_reflect P)
            end; simpl);
    try (by eexists _, _); try done.
Qed.

(** *** Order independence

    The status and group sets an entry reaches under a sequence of
    receipts are a function of the entry before the sequence and of the two
    pending sets after it ([reached]); the pending sets after it depend only
    on which contacts sent a delivery receipt and which a read receipt
    ([pending_after]). *)

Definition blocks (f : field) (tag : Status) : bool :=
  (_status_order (status_of_field f) <=? _status_order tag)%nat.

(** The effect of one receipt on the pending sets of an entry whose status
    before the sequence was [tag0]. *)
Definition upd (tag0 : Status) (contact : string) (f : field)
    (g : DelivReadConts) : DelivReadConts :=
  if blocks f_read tag0 then g
  else match f with
       | f_read =>
           if bool_decide (contact ∈ read g) then
             {| delivered := delivered g; read := read g ∖ {[contact]} |}
           else if bool_decide (contact ∈ delivered g) then
             {| delivered := delivered g ∖ {[contact]}; read := read g |}
           else g
       | f_delivered =>
           if blocks f_delivered tag0 then g
           else if bool_decide (contact ∈ delivered g) then
             {| delivered := delivered g ∖ {[contact]}; read := read g ∪ {[contact]} |}
           else g
       end.

Definition reached (tag0 : Status) (g0 g : DelivReadConts) : core :=
  if blocks f_read tag0 then (tag0, Some g)
  else if bool_decide (delivered g = ∅) && bool_decide (read g = ∅)
          && negb (bool_decide (delivered g0 = ∅) && bool_decide (read g0 = ∅))
  then (st_read, None)
  else (if negb (blocks f_delivered tag0) && bool_decide (delivered g = ∅)
           && negb (bool_decide (delivered g0 = ∅))
        then st_delivered else tag0,
        Some g).

(** The two pending sets of a group entry are disjoint. *)
Definition wf (c : core) : Prop :=
  match c.2 with
  | Some g => delivered g ## read g
  | None => True
  end.

(** What relates the pending sets during a sequence to those before it. *)
Definition within (g0 g : DelivReadConts) : Prop :=
  delivered g ⊆ delivered g0
  /\ read g ⊆ read g0 ∪ delivered g0
  /\ delivered g ## read g.

Lemma blocks_classes (tag : Status) :
  (blocks f_delivered tag = false /\ blocks f_read tag = false)
  \/ (tag = st_delivered)
  \/ (blocks f_delivered tag = true /\ blocks f_read tag = true).
Proof. destruct tag; vm_compute; auto. Qed.

Lemma within_refl g : delivered g ## read g -> within g g.
Proof. unfold within. set_solver. Qed.

Lemma upd_within tag0 contact f g0 g : within g0 g -> within g0 (upd tag0 contact f g).
Proof.
  unfold within, upd. intros (H1 & H2 & H3).
  destruct (blocks f_read tag0); [done|].
  destruct f; [destruct (blocks f_delivered tag0); [done|]|].
  - destruct (bool_decide_reflect (contact ∈ delivered g)); [|done].
    cbn [delivered read]. set_solver.
  - destruct (bool_decide_reflect (contact ∈ read g)); [cbn [delivered read]; set_solver|].
    destruct (bool_decide_reflect (contact ∈ delivered g)); [|done].
    cbn [delivered read]. set_solver.
Qed.

Lemma reached_start tag0 g0 : reached tag0 g0 g0 = (tag0, Some g0).
Proof.
  unfold reached. destruct (blocks f_read tag0); [done|].
  destruct (bool_decide (delivered g0 = ∅)), (bool_decide (read g0 = ∅)),
    (blocks f_delivered tag0); done.
Qed.

Ltac blocks_eval :=
  repeat match goal with
         | |- context [blocks ?f ?tag] =>
             is_constructor f; is_constructor tag;
             let v := eval vm_compute in (blocks f tag) in
             change (blocks f tag) with v; cbv iota
         | H : blocks ?f ?tag = _ |- context [blocks ?f ?tag] => rewrite H; cbv iota
         end.

Ltac reach_step :=
  repeat first [ progress blocks_eval
               | progress cbn [fst snd delivered read status_of_field negb andb orb] ].

Ltac reach_cases :=
  reach_step;
  repeat (match goal with
          | |- context [bool_decide (?x ∈ ?X)] =>
              destruct (bool_decide_reflect (x ∈ X))
          end; reach_step);
  repeat (match goal with
          | |- context [bool_decide ?P] => destruct (bool_decide_reflect P)
          end; reach_step).

Lemma recv_blocks contact f c :
  recv contact f c
  = if blocks f c.1 then c
    else match c.2 with
         | None => (status_of_field f, None)
         | Some g =>
             match f with
             | f_delivered =>
                 if bool_decide (contact ∈ delivered g) then
                   (if bool_decide (delivered g ∖ {[contact]} ≠ ∅) then c.1 else st_delivered,
                    Some {| delivered := delivered g ∖ {[contact]};
                            read := read g ∪ {[contact]} |})
                 else c
             | f_read =>
                 if bool_decide (contact ∈ read g) then
                   if bool_decide (delivered g ≠ ∅) || bool_decide (read g ∖ {[contact]} ≠ ∅)
                   then (c.1, Some {| delivered := delivered g; read := read g ∖ {[contact]} |})
                   else (st_read, None)
                 else if bool_decide (contact ∈ delivered g) then
                   if negb (bool_decide (delivered g ∖ {[contact]} ≠ ∅))
                      && bool_decide (read g ≠ ∅)
                   then (st_delivered,
                         Some {| delivered := delivered g ∖ {[contact]}; read := read g |})
                   else if bool_decide (delivered g ∖ {[contact]} ≠ ∅)
                           || bool_decide (read g ≠ ∅)
                   then (c.1, Some {| delivered := delivered g ∖ {[contact]}; read := read g |})
                   else (st_read, None)
                 else c
             end
         end.
Proof. reflexivity. Qed.

Lemma bool_decide_nonempty (X : gset string) :
  bool_decide (X ≠ ∅) = negb (bool_decide (X = ∅)).
Proof. by destruct (bool_decide_reflect (X = ∅)), (bool_decide_reflect (X ≠ ∅)). Qed.

Section set_facts.
Context (D R D0 R0 : gset string) (x : string).

Lemma elem_of_nonempty : x ∈ D -> D = ∅ -> False.
Proof. set_solver. Qed.

Lemma difference_empty : D = ∅ -> D ∖ {[x]} = ∅.
Proof. set_solver. Qed.

Lemma difference_empty_inv : x ∉ D -> D ∖ {[x]} = ∅ -> D = ∅.
Proof. set_solver. Qed.

Lemma union_singleton_nonempty : R ∪ {[x]} = ∅ -> False.
Proof. set_solver. Qed.

Lemma subseteq_empty : D ⊆ D0 -> D0 = ∅ -> D = ∅.
Proof. set_solver. Qed.

Lemma subseteq_union_empty : R ⊆ R0 ∪ D0 -> D0 = ∅ -> R0 = ∅ -> R = ∅.
Proof. intros H -> ->. set_solver. Qed.

Lemma disjoint_elem_of : D ## R -> x ∈ D -> x ∈ R -> False.
Proof. set_solver. Qed.

End set_facts.

Lemma recv_reached tag0 g0 g contact f :
  within g0 g ->
  recv contact f (reached tag0 g0 g) = reached tag0 g0 (upd tag0 contact f g).
Proof.
  destruct g0 as [D0 R0], g as [D R]. unfold within. cbn [delivered read].
  intros (HD & HR & Hdisj).
  pose proof (elem_of_nonempty D contact) as F1.
  pose proof (difference_empty D contact) as F2.
  pose proof (difference_empty_inv D contact) as F3.
  pose proof (elem_of_nonempty R contact) as G1.
  pose proof (difference_empty R contact) as G2.
  pose proof (difference_empty_inv R contact) as G3.
  pose proof (union_singleton_nonempty R contact) as F4.
  pose proof (subseteq_empty D D0 HD) as F5.
  pose proof (subseteq_union_empty R D0 R0 HR) as F6.
  pose proof (disjoint_elem_of D R contact Hdisj) as F7.
  clear HD HR Hdisj.
  rewrite recv_blocks. unfold reached, upd. rewrite ?bool_decide_nonempty.
  destruct (blocks_classes tag0) as [[Hd Hr]|[->|[Hd Hr]]]; destruct f.
  all: reach_cases.
  all: try reflexivity.
  all: exfalso; tauto.
Qed.

(** The pending sets after receipts from the contacts [Del] (delivery) and
    [Rd] (read), whatever their order and multiplicity. *)
Definition pending_after (tag0 : Status) (g0 : DelivReadConts)
    (Del Rd : gset string) : DelivReadConts :=
  if blocks f_read tag0 then g0
  else if blocks f_delivered tag0 then
    {| delivered := delivered g0 ∖ Rd; read := read g0 ∖ Rd |}
  else
    {| delivered := delivered g0 ∖ (Del ∪ Rd);
       read := (read g0 ∪ (delivered g0 ∩ Del)) ∖ Rd |}.

(** The status of an entry without group sets after such receipts. *)
Definition nongroup_after (tag0 : Status) (Del Rd : gset string) : Status :=
  if negb (bool_decide (Rd = ∅)) && negb (blocks f_read tag0) then st_read
  else if negb (bool_decide (Del = ∅)) && negb (blocks f_delivered tag0)
  then st_delivered
  else tag0.

Definition core_after (c0 : core) (Del Rd : gset string) : core :=
  match c0.2 with
  | Some g0 => reached c0.1 g0 (pending_after c0.1 g0 Del Rd)
  | None => (nongroup_after c0.1 Del Rd, None)
  end.

Definition add_contact (f f' : field) (contact : string) (X : gset string)
    : gset string :=
  match f, f' with
  | f_delivered, f_delivered | f_read, f_read => X ∪ {[contact]}
  | _, _ => X
  end.

Lemma pending_after_start tag0 g0 : pending_after tag0 g0 ∅ ∅ = g0.
Proof.
  unfold pending_after. destruct g0 as [D0 R0].
  destruct (blocks f_read tag0); [done|].
  destruct (blocks f_delivered tag0); cbn [delivered read]; f_equal; set_solver.
Qed.

Lemma pending_after_within tag0 g0 Del Rd :
  delivered g0 ## read g0 -> within g0 (pending_after tag0 g0 Del Rd).
Proof.
  intros Hdisj. unfold within, pending_after.
  destruct (blocks f_read tag0); [set_solver|].
  destruct (blocks f_delivered tag0); cbn [delivered read]; set_solver.
Qed.

Lemma upd_pending_after tag0 g0 Del Rd contact f :
  delivered g0 ## read g0 ->
  upd tag0 contact f (pending_after tag0 g0 Del Rd)
  = pending_after tag0 g0 (add_contact f_delivered f contact Del)
      (add_contact f_read f contact Rd).
Proof.
  destruct g0 as [D0 R0]. cbn [delivered read]. intros Hdisj.
  unfold upd, pending_after.
  destruct (blocks f_read tag0); [done|].
  destruct f, (blocks f_delivered tag0); cbn [add_contact delivered read];
    try done;
    repeat (match goal with
            | |- context [bool_decide ?P] => destruct (bool_decide_reflect P)
            end; cbn [delivered read]);
    f_equal;
    first [ set_solver
          | destruct (decide (contact ∈ Del)), (decide (contact ∈ Rd)); set_solver ].
Qed.

Lemma core_after_start c0 : core_after c0 ∅ ∅ = c0.
Proof.
  destruct c0 as [tag0 [g0|]]; unfold core_after; cbn [fst snd].
  - by rewrite pending_after_start, reached_start.
  - unfold nongroup_after. by rewrite bool_decide_eq_true_2.
Qed.

Lemma union_singleton_empty (X : gset string) x :
  bool_decide (X ∪ {[x]} = ∅) = false.
Proof. apply bool_decide_eq_false_2. set_solver. Qed.

Lemma recv_core_after c0 Del Rd contact f :
  wf c0 ->
  recv contact f (core_after c0 Del Rd)
  = core_after c0 (add_contact f_delivered f contact Del)
      (add_contact f_read f contact Rd).
Proof.
  destruct c0 as [tag0 [g0|]]; unfold wf, core_after; cbn [fst snd]; intros Hwf.
  - rewrite recv_reached by by apply pending_after_within.
    by rewrite upd_pending_after.
  - rewrite recv_blocks. unfold nongroup_after. cbn [fst snd].
    destruct (blocks_classes tag0) as [[Hd Hr]|[->|[Hd Hr]]]; destruct f;
      cbn [add_contact]; rewrite ?union_singleton_empty;
      destruct (bool_decide (Rd = ∅)), (bool_decide (Del = ∅)); reach_step;
      reflexivity.
Qed.

(** The contacts named by a list of receipts of one kind. *)
Definition contacts_of (f : field) (l : list (string * field)) : gset string :=
  foldl (fun X r => add_contact f r.2 r.1 X) ∅ l.

Lemma foldl_recv_core_after c0 l Del Rd :
  wf c0 ->
  foldl (fun c r => recv r.1 r.2 c) (core_after c0 Del Rd) l
  = core_after c0 (foldl (fun X r => add_contact f_delivered r.2 r.1 X) Del l)
      (foldl (fun X r => add_contact f_read r.2 r.1 X) Rd l).
Proof.
  intros Hwf. revert Del Rd. induction l as [|[contact f] l IH]; intros Del Rd; [done|].
  cbn [foldl fst snd]. rewrite recv_core_after by done. apply IH.
Qed.

Lemma foldl_recv_contacts_of c0 l :
  wf c0 ->
  foldl (fun c r => recv r.1 r.2 c) c0 l
  = core_after c0 (contacts_of f_delivered l) (contacts_of f_read l).
Proof.
  intros Hwf. unfold contacts_of.
  rewrite <- foldl_recv_core_after by done. by rewrite core_after_start.
Qed.

(** Two lists of receipts that name the same contacts for each kind lead
    an entry to the same status and group sets. *)
Lemma foldl_recv_same_contacts c0 l1 l2 :
  wf c0 ->
  contacts_of f_delivered l1 = contacts_of f_delivered l2 ->
  contacts_of f_read l1 = contacts_of f_read l2 ->
  foldl (fun c r => recv r.1 r.2 c) c0 l1 = foldl (fun c r => recv r.1 r.2 c) c0 l2.
Proof.
  intros Hwf HD HR. rewrite !foldl_recv_contacts_of by done. by rewrite HD, HR.
Qed.

End ReplayFacts.

(** ** Buffered receipts and their replay *)

Module ReplayTracker.
Import Py DeliveryStatus DeliveryStatusFacts ReplayFacts.

Lemma bind_Ok {S A B} (m : M S A) (k : A -> M S B) s a s' :
  m s = Ok a s' -> bind m k s = k a s'.
Proof. unfold bind. by intros ->. Qed.

(** The kind of a receipt envelope, as [on_receive_receipt] reads it. *)
Definition kind_of (envelope : Receipt) : option field :=
  if isDelivery envelope then Some f_delivered
  else if isRead envelope then Some f_read
  else None.

(** The receipts for [timestamp] among the envelopes [envs], in arrival
    order: one per occurrence of the timestamp in an envelope. *)
Fixpoint named (timestamp : Z) (envs : list Receipt) : list (string * field) :=
  match envs with
  | [] => []
  | envelope :: envs' =>
      match kind_of envelope with
      | Some f =>
          ((fun _ => (receipt_source envelope, f))
             <$> filter (fun ts => ts = timestamp) (timestamps envelope))
          ++ named timestamp envs'
      | None => named timestamp envs'
      end
  end.

Definition empty_conts : DelivReadConts := {| delivered := ∅; read := ∅ |}.

Definition buffer_add (r : string * field) (b : option DelivReadConts)
    : option DelivReadConts :=
  let b := match b with Some b => b | None => empty_conts end in
  Some (set_field r.2 (get_field r.2 b ∪ {[r.1]}) b).

Lemma _buffer_receipt_unfold timestamp f contact self :
  _buffer_receipt timestamp (status_of_field f) contact self
  = Ok tt (set_buffered
             (fun m => match buffer_add (contact, f) (m !! timestamp) with
                       | Some b => <[timestamp := b]> m
                       | None => m
                       end) self).
Proof.
  unfold _buffer_receipt, bind, get, modify, set_buffered, buffer_add. simpl.
  destruct f; simpl; by rewrite insert_insert_eq.
Qed.

Lemma _set_receipt_unfold timestamp f when_ contact self :
  exists r d',
    _set timestamp (status_of_field f) when_ (Some contact) self
      = Ok tt (store_entry self timestamp d' r)
    /\ core_of d' = recv contact f (core_of (entry_of self timestamp)).
Proof.
  rewrite _set_unfold.
  destruct (entry_set_recv contact f when_ (entry_of self timestamp)) as (r & d' & -> & Hcore).
  by exists r, d'.
Qed.

(** One iteration of the loop of [on_receive_receipt]. *)
Definition receive_one (f : field) (envelope : Receipt) (timestamp : Z) : M t unit :=
  self <- get ;;
  match _status_map self !! timestamp with
  | None => _buffer_receipt timestamp (status_of_field f) (receipt_source envelope)
  | Some _ =>
      _set timestamp (status_of_field f) (Some (receipt_when envelope))
        (Some (receipt_source envelope))
  end.

Lemma on_receive_receipt_kind envelope :
  on_receive_receipt envelope
  = match kind_of envelope with
    | Some f => for_each (timestamps envelope) (receive_one f envelope)
    | None => ret tt
    end.
Proof.
  unfold on_receive_receipt, kind_of.
  destruct (isDelivery envelope); [done|].
  destruct (isRead envelope); [done|]. by destruct (isViewed envelope).
Qed.

Section one_timestamp.
Variable T : Z.

(** While [T] is not tracked, receipts for it accumulate in the buffer. *)
Lemma receive_one_untracked f envelope ts self :
  _status_map self !! T = None ->
  exists self',
    receive_one f envelope ts self = Ok tt self'
    /\ _status_map self' !! T = None
    /\ _buffered self' !! T
       = if decide (ts = T)
         then buffer_add (receipt_source envelope, f) (_buffered self !! T)
         else _buffered self !! T.
Proof.
  intros HT. unfold receive_one, bind at 1, get.
  destruct (_status_map self !! ts) as [d|] eqn:Hts.
  - assert (ts <> T) by congruence.
    destruct (_set_receipt_unfold ts f (Some (receipt_when envelope))
                (receipt_source envelope) self) as (r & d' & -> & _).
    eexists. split; [done|]. unfold store_entry. simpl.
    rewrite lookup_insert_ne by done. by rewrite decide_False by done.
  - rewrite _buffer_receipt_unfold. eexists. split; [done|].
    unfold set_buffered, buffer_add. simpl. split; [done|].
    destruct (decide (ts = T)) as [->|].
    + by rewrite lookup_insert_eq.
    + by rewrite lookup_insert_ne.
Qed.

(** Once [T] is tracked, receipts for it are applied to its entry. *)
Lemma receive_one_tracked f envelope ts self d :
  _status_map self !! T = Some d ->
  exists self' d',
    receive_one f envelope ts self = Ok tt self'
    /\ _status_map self' !! T = Some d'
    /\ core_of d'
       = if decide (ts = T) then recv (receipt_source envelope) f (core_of d)
         else core_of d.
Proof.
  intros HT. unfold receive_one, bind at 1, get.
  destruct (_status_map self !! ts) as [dts|] eqn:Hts.
  - destruct (_set_receipt_unfold ts f (Some (receipt_when envelope))
                (receipt_source envelope) self) as (r & d' & -> & Hcore).
    rewrite entry_of_lookup, Hts in Hcore.
    destruct (decide (ts = T)) as [->|].
    + exists (store_entry self T d' r), d'. split; [done|].
      unfold store_entry. simpl. rewrite lookup_insert_eq.
      split; [done|]. congruence.
    + exists (store_entry self ts d' r), d. split; [done|].
      unfold store_entry. simpl. by rewrite lookup_insert_ne.
  - assert (ts <> T) by congruence.
    rewrite _buffer_receipt_unfold. eexists _, d. split; [done|].
    unfold set_buffered. simpl. by rewrite decide_False by done.
Qed.


Lemma receive_timestamps_untracked f envelope tss self :
  _status_map self !! T = None ->
  exists self',
    for_each tss (receive_one f envelope) self = Ok tt self'
    /\ _status_map self' !! T = None
    /\ _buffered self' !! T
       = foldl (fun b r => buffer_add r b) (_buffered self !! T)
           ((fun _ => (receipt_source envelope, f)) <$> filter (fun ts => ts = T) tss).
Proof.
  revert self. induction tss as [|ts tss IH]; intros self HT.
  - by exists self.
  - destruct (receive_one_untracked f envelope ts self HT) as (s1 & Hrun & HT1 & Hb1).
    destruct (IH s1 HT1) as (s2 & Hrun2 & HT2 & Hb2).
    exists s2. cbn [for_each]. rewrite (bind_Ok _ _ _ _ _ Hrun).
    split; [done|]. split; [done|]. rewrite Hb2, Hb1.
    rewrite filter_cons. destruct (decide (ts = T)); done.
Qed.

Lemma receive_timestamps_tracked f envelope tss self d :
  _status_map self !! T = Some d ->
  exists self' d',
    for_each tss (receive_one f envelope) self = Ok tt self'
    /\ _status_map self' !! T = Some d'
    /\ core_of d'
       = foldl (fun c r => recv r.1 r.2 c) (core_of d)
           ((fun _ => (receipt_source envelope, f)) <$> filter (fun ts => ts = T) tss).
Proof.
  revert self d. induction tss as [|ts tss IH]; intros self d HT.
  - by exists self, d.
  - destruct (receive_one_tracked f envelope ts self d HT) as (s1 & d1 & Hrun & HT1 & Hc1).
    destruct (IH s1 d1 HT1) as (s2 & d2 & Hrun2 & HT2 & Hc2).
    exists s2, d2. cbn [for_each]. rewrite (bind_Ok _ _ _ _ _ Hrun).
    split; [done|]. split; [done|]. rewrite Hc2, Hc1.
    rewrite filter_cons. destruct (decide (ts = T)); done.
Qed.

Lemma receive_all_untracked envs self :
  _status_map self !! T = None ->
  exists self',
    for_each envs on_receive_receipt self = Ok tt self'
    /\ _status_map self' !! T = None
    /\ _buffered self' !! T
       = foldl (fun b r => buffer_add r b) (_buffered self !! T) (named T envs).
Proof.
  revert self. induction envs as [|envelope envs IH]; intros self HT.
  - by exists self.
  - cbn [for_each named]. rewrite on_receive_receipt_kind.
    destruct (kind_of envelope) as [f|].
    + destruct (receive_timestamps_untracked f envelope (timestamps envelope) self HT)
        as (s1 & Hrun & HT1 & Hb1).
      destruct (IH s1 HT1) as (s2 & Hrun2 & HT2 & Hb2).
      exists s2. rewrite (bind_Ok _ _ _ _ _ Hrun). split; [done|]. split; [done|].
      by rewrite foldl_app, Hb2, Hb1.
    + destruct (IH self HT) as (s2 & Hrun2 & HT2 & Hb2). by exists s2.
Qed.

Lemma receive_all_tracked envs self d :
  _status_map self !! T = Some d ->
  exists self' d',
    for_each envs on_receive_receipt self = Ok tt self'
    /\ _status_map self' !! T = Some d'
    /\ core_of d' = foldl (fun c r => recv r.1 r.2 c) (core_of d) (named T envs).
Proof.
  revert self d. induction envs as [|envelope envs IH]; intros self d HT.
  - by exists self, d.
  - cbn [for_each named]. rewrite on_receive_receipt_kind.
    destruct (kind_of envelope) as [f|].
    + destruct (receive_timestamps_tracked f envelope (timestamps envelope) self d HT)
        as (s1 & d1 & Hrun & HT1 & Hc1).
      destruct (IH s1 d1 HT1) as (s2 & d2 & Hrun2 & HT2 & Hc2).
      exists s2, d2. rewrite (bind_Ok _ _ _ _ _ Hrun). split; [done|]. split; [done|].
      by rewrite foldl_app, Hc2, Hc1.
    + destruct (IH self d HT) as (s2 & d2 & Hrun2 & HT2 & Hc2). by exists s2, d2.
Qed.

(** Replaying the contacts [cs] of one kind. *)
Lemma replay_contacts f cs self d :
  _status_map self !! T = Some d ->
  exists self' d',
    for_each cs (fun contact => _set T (status_of_field f) None (Some contact)) self
      = Ok tt self'
    /\ _status_map self' !! T = Some d'
    /\ _buffered self' = _buffered self
    /\ core_of d' = foldl (fun c r => recv r.1 r.2 c) (core_of d)
                      ((fun contact => (contact, f)) <$> cs).
Proof.
  revert self d. induction cs as [|contact cs IH]; intros self d HT.
  - by exists self, d.
  - destruct (_set_receipt_unfold T f None contact self) as (r & d1 & Hrun & Hc1).
    rewrite entry_of_lookup, HT in Hc1.
    destruct (IH (store_entry self T d1 r) d1) as (s2 & d2 & Hrun2 & HT2 & Hb2 & Hc2).
    { unfold store_entry. simpl. by rewrite lookup_insert_eq. }
    exists s2, d2. cbn [for_each]. rewrite (bind_Ok _ _ _ _ _ Hrun).
    split; [done|]. split; [done|]. split; [by rewrite Hb2|].
    rewrite fmap_cons. cbn [foldl fst snd]. by rewrite Hc2, Hc1.
Qed.


End one_timestamp.

(** *** The contacts a list of receipts names *)

Lemma foldl_add_contact f l X :
  foldl (fun X r => add_contact f r.2 r.1 X) X l = X ∪ contacts_of f l.
Proof.
  unfold contacts_of. revert X. induction l as [|[contact f'] l IH] using rev_ind; intros X.
  - cbn [foldl]. set_solver.
  - rewrite !foldl_app. cbn [foldl fst snd]. rewrite IH.
    destruct f, f'; cbn [add_contact]; set_solver.
Qed.

Lemma contacts_of_app f l1 l2 :
  contacts_of f (l1 ++ l2) = contacts_of f l1 ∪ contacts_of f l2.
Proof. unfold contacts_of at 1. rewrite foldl_app. apply foldl_add_contact. Qed.

Lemma contacts_of_cons f contact f' l :
  contacts_of f ((contact, f') :: l)
  = add_contact f f' contact ∅ ∪ contacts_of f l.
Proof. unfold contacts_of at 1. cbn [foldl fst snd]. apply foldl_add_contact. Qed.

Lemma contacts_of_same f cs :
  contacts_of f ((fun contact => (contact, f)) <$> cs) = list_to_set cs.
Proof.
  induction cs as [|contact cs IH]; [done|].
  rewrite fmap_cons, contacts_of_cons, IH. destruct f; cbn [add_contact]; set_solver.
Qed.

Lemma contacts_of_other f f' cs :
  f <> f' -> contacts_of f ((fun contact => (contact, f')) <$> cs) = ∅.
Proof.
  intros Hne. induction cs as [|contact cs IH]; [done|].
  rewrite fmap_cons, contacts_of_cons, IH. destruct f, f'; cbn [add_contact]; set_solver.
Qed.

Lemma buffer_after_Some b l :
  foldl (fun b r => buffer_add r b) (Some b) l
  = Some {| delivered := delivered b ∪ contacts_of f_delivered l;
            read := read b ∪ contacts_of f_read l |}.
Proof.
  revert b. induction l as [|[contact f] l IH]; intros [D R].
  - cbn [foldl delivered read]. do 2 f_equal; set_solver.
  - cbn [foldl]. unfold buffer_add at 2. cbn [fst snd]. rewrite IH.
    rewrite !contacts_of_cons.
    destruct f; cbn [set_field get_field delivered read add_contact];
      do 2 f_equal; set_solver.
Qed.

Lemma buffer_after_None l :
  foldl (fun b r => buffer_add r b) None l
  = match l with
    | [] => None
    | _ => Some {| delivered := contacts_of f_delivered l;
                   read := contacts_of f_read l |}
    end.
Proof.
  destruct l as [|[contact f] l]; [done|].
  cbn [foldl]. unfold buffer_add at 2. cbn [fst snd]. rewrite buffer_after_Some.
  rewrite !contacts_of_cons.
  destruct f; cbn [set_field get_field delivered read add_contact empty_conts];
    do 2 f_equal; set_solver.
Qed.

(** *** Registration and replay *)

(** What [_set] without a receipt contact does to an entry. *)
Definition plain_set (status : Status) (d : DetailedStatus) : DetailedStatus :=
  if (_status_order status <=? _status_order (str d))%nat then d
  else {| str := status; when := when d; grp_memb_remain_un := grp_memb_remain_un d |}.

Lemma _set_plain_unfold timestamp status self :
  exists r,
    _set timestamp status None None self
    = Ok tt (store_entry self timestamp (plain_set status (entry_of self timestamp)) r).
Proof.
  rewrite _set_unfold. unfold entry_set, plain_set.
  destruct (_ <=? _)%nat; [by eexists|].
  destruct (grp_memb_remain_un (entry_of self timestamp)); by eexists.
Qed.

(** The entry of a timestamp after [on_sending_message] and
    [on_sending_done], when it was not tracked before. *)
Definition registered (group_members : option (gset string)) (status : Status)
    : DetailedStatus :=
  let d1 := plain_set st_sending DetailedStatus_new in
  let d2 :=
    match group_members with
    | None => d1
    | Some members =>
        if (MAX_GROUP_SIZE <? size members)%nat then plain_set st_ignore_receipts d1
        else with_grp d1 (Some {| delivered := members; read := ∅ |})
    end in
  plain_set status d2.

Lemma registered_wf group_members status : wf (core_of (registered group_members status)).
Proof.
  unfold registered, wf, core_of, plain_set. cbn [snd].
  destruct group_members as [members|];
    repeat match goal with |- context [(?a <=? ?b)%nat] => destruct (a <=? b)%nat end;
    try destruct (_ <? _)%nat; simpl; try done;
    repeat match goal with |- context [(?a <=? ?b)%nat] => destruct (a <=? b)%nat end;
    simpl; try done; set_solver.
Qed.

Lemma registration envelope group_members status self :
  _status_map self !! get_envelope_time envelope = None ->
  exists self',
    (on_sending_message envelope group_members ;;;
     on_sending_done envelope status None) self = Ok tt self'
    /\ _status_map self' !! get_envelope_time envelope
       = Some (registered group_members status)
    /\ _buffered self' = _buffered self.
Proof.
  set (T := get_envelope_time envelope). intros HT.
  unfold on_sending_message, on_sending_done. fold T.
  destruct (_set_plain_unfold T st_sending self) as [r1 Hset1].
  rewrite entry_of_lookup, HT in Hset1.
  set (s1 := store_entry self T (plain_set st_sending DetailedStatus_new) r1) in *.
  assert (Hs1 : _status_map s1 !! T = Some (plain_set st_sending DetailedStatus_new)).
  { unfold s1, store_entry. simpl. by rewrite lookup_insert_eq. }
  assert (Hgroup : exists s2,
    match group_members with
    | Some members => _set_group_members T members
    | None => ret tt
    end s1 = Ok tt s2
    /\ _status_map s2 !! T
       = Some match group_members with
              | None => plain_set st_sending DetailedStatus_new
              | Some members =>
                  if (MAX_GROUP_SIZE <? size members)%nat
                  then plain_set st_ignore_receipts (plain_set st_sending DetailedStatus_new)
                  else with_grp (plain_set st_sending DetailedStatus_new)
                         (Some {| delivered := members; read := ∅ |})
              end
    /\ _buffered s2 = _buffered self).
  { destruct group_members as [members|]; [|by exists s1].
    unfold _set_group_members, bind at 1, on_entry at 1. rewrite Hs1. unfold get at 1.
    set (s1' := set_status_map _ s1).
    assert (Hs1' : _status_map s1' !! T = Some (plain_set st_sending DetailedStatus_new)).
    { unfold s1', set_status_map. simpl. by rewrite lookup_insert_eq. }
    destruct (MAX_GROUP_SIZE <? size members)%nat.
    - destruct (_set_plain_unfold T st_ignore_receipts s1') as [r2 ->].
      rewrite entry_of_lookup, Hs1'. eexists. split; [done|].
      unfold store_entry. simpl. by rewrite lookup_insert_eq.
    - unfold on_entry, modify. rewrite Hs1'. eexists. split; [done|].
      unfold set_status_map. simpl. by rewrite lookup_insert_eq. }
  destruct Hgroup as (s2 & Hrun2 & Hs2 & Hb2).
  unfold bind at 1. unfold bind at 1. rewrite Hset1, Hrun2.
  unfold bind at 1, get. rewrite Hs2.
  destruct (_set_plain_unfold T status s2) as [r3 Hset3].
  rewrite entry_of_lookup, Hs2 in Hset3.
  unfold bind at 1. rewrite Hset3.
  eexists. split; [by destruct (bool_decide (status = st_send_failed))|].
  split; [|done].
  unfold store_entry, registered. cbn [_status_map]. rewrite lookup_insert_eq. done.
Qed.

Section replay.
Variable set_iter : gset string -> list string.
Hypothesis set_iter_elements : forall X, set_iter X ≡ₚ elements X.

Lemma list_to_set_set_iter (X : gset string) : list_to_set (set_iter X) = X.
Proof.
  rewrite (list_to_set_perm_L _ _ (set_iter_elements X)).
  apply list_to_set_elements_L.
Qed.

Lemma process_buffered_receipts_replays T self d b :
  _status_map self !! T = Some d ->
  _buffered self !! T = Some b ->
  exists self' d',
    process_buffered_receipts set_iter T self = Ok tt self'
    /\ _status_map self' !! T = Some d'
    /\ core_of d'
       = foldl (fun c r => recv r.1 r.2 c) (core_of d)
           (((fun contact => (contact, f_delivered)) <$> set_iter (delivered b))
            ++ ((fun contact => (contact, f_read)) <$> set_iter (read b))).
Proof.
  intros HT Hb. unfold process_buffered_receipts, bind at 1, get. rewrite Hb.
  destruct (replay_contacts T f_delivered (set_iter (delivered b)) self d HT)
    as (s1 & d1 & Hrun1 & HT1 & _ & Hc1).
  destruct (replay_contacts T f_read (set_iter (read b)) s1 d1 HT1)
    as (s2 & d2 & Hrun2 & HT2 & _ & Hc2).
  cbn [for_each field_of_status get_field].
  cbn [status_of_field] in Hrun1, Hrun2.
  unfold bind. rewrite Hrun1, Hrun2. unfold ret, modify.
  eexists _, d2. split; [done|]. split; [done|].
  by rewrite foldl_app, Hc2, Hc1.
Qed.

(** C8: receipts that name a timestamp before it is tracked are buffered and
    replayed by [process_buffered_receipts] once the timestamp has been
    registered by [on_sending_message] and [on_sending_done]; the status
    (and the pending group sets) the timestamp ends with are those it ends
    with when the same receipts arrive, in the same order, after the
    registration. *)
Theorem buffered_receipts_replay_to_same_status
    (self : t) (envelope : Envelope) (group_members : option (gset string))
    (status : Status) (receipts : list Receipt) :
  _status_map self !! get_envelope_time envelope = None ->
  _buffered self !! get_envelope_time envelope = None ->
  exists before after,
    (for_each receipts on_receive_receipt ;;;
     (on_sending_message envelope group_members ;;;
      on_sending_done envelope status None) ;;;
     process_buffered_receipts set_iter (get_envelope_time envelope)) self
      = Ok tt before
    /\ ((on_sending_message envelope group_members ;;;
         on_sending_done envelope status None) ;;;
        process_buffered_receipts set_iter (get_envelope_time envelope) ;;;
        for_each receipts on_receive_receipt) self
       = Ok tt after
    /\ status_of before (get_envelope_time envelope)
       = status_of after (get_envelope_time envelope)
    /\ grp_memb_remain_un (entry_of before (get_envelope_time envelope))
       = grp_memb_remain_un (entry_of after (get_envelope_time envelope)).
Proof.
  set (T := get_envelope_time envelope). intros HT Hbuf.
  (* receipts first *)
  destruct (receive_all_untracked T receipts self HT) as (a1 & Ha1 & HTa1 & Hba1).
  destruct (registration envelope group_members status a1 HTa1) as (a2 & Ha2 & HTa2 & Hba2).
  fold T in Ha2, HTa2.
  (* registration first *)
  destruct (registration envelope group_members status self HT) as (b1 & Hb1 & HTb1 & Hbb1).
  fold T in Hb1, HTb1.
  destruct (receive_all_tracked T receipts b1 _ HTb1) as (b2 & d2 & Hb2 & HTb2 & Hcb2).
  assert (Hprocess_b : process_buffered_receipts set_iter T b1 = Ok tt b1).
  { unfold process_buffered_receipts, bind, get. by rewrite Hbb1, Hbuf. }
  rewrite Hbuf, buffer_after_None in Hba1. rewrite <- Hba2 in Hba1.
  assert (Hcore : forall dA dB,
            _status_map b2 !! T = Some dB -> core_of dA = core_of dB ->
            forall sA, _status_map sA !! T = Some dA ->
            status_of sA T = status_of b2 T
            /\ grp_memb_remain_un (entry_of sA T) = grp_memb_remain_un (entry_of b2 T)).
  { intros dA dB HB [= Hstr Hgrp] sA HA.
    rewrite !status_of_entry, !entry_of_lookup, HA, HB. done. }
  destruct (named T receipts) as [|r0 rs] eqn:Hnamed.
  - (* no receipt names the timestamp: nothing was buffered *)
    exists a2, b2.
    rewrite (bind_Ok _ _ _ _ _ Ha1), (bind_Ok _ _ _ _ _ Ha2).
    rewrite (bind_Ok _ _ _ _ _ Hb1), (bind_Ok _ _ _ _ _ Hprocess_b).
    split; [unfold process_buffered_receipts, bind, get; by rewrite Hba1|].
    split; [done|]. by eapply Hcore.
  - destruct (process_buffered_receipts_replays T a2 _ _ HTa2 Hba1)
      as (a3 & d3 & Ha3 & HTa3 & Hca3).
    exists a3, b2.
    rewrite (bind_Ok _ _ _ _ _ Ha1), (bind_Ok _ _ _ _ _ Ha2).
    rewrite (bind_Ok _ _ _ _ _ Hb1), (bind_Ok _ _ _ _ _ Hprocess_b).
    split; [done|]. split; [done|].
    eapply Hcore; [done| |done].
    rewrite Hca3, Hcb2. cbn [delivered read].
    apply foldl_recv_same_contacts; [apply registered_wf|..].
    + rewrite contacts_of_app, contacts_of_same, contacts_of_other by done.
      rewrite list_to_set_set_iter. set_solver.
    + rewrite contacts_of_app, contacts_of_same, contacts_of_other by done.
      rewrite list_to_set_set_iter. set_solver.
Qed.

End replay.

Lemma buffered_receipts_replay_to_same_status_witness :
  let envelope := {| source := "+15550000"; timestamp := 1700000000000%Z;
                     dataMessage_timestamp := 1700000000000%Z;
                     _received_timestamp := None; content := "hi" |} in
  let receipts :=
    [ {| receipt_source := "+15550002"; isDelivery := false; isRead := true;
         isViewed := false; timestamps := [1700000000000%Z]; receipt_when := 5%Z |};
      {| receipt_source := "+15550001"; isDelivery := true; isRead := false;
         isViewed := false; timestamps := [1700000000000%Z]; receipt_when := 6%Z |} ] in
  exists before after,
    (for_each receipts on_receive_receipt ;;;
     (on_sending_message envelope (Some {[ "+15550001"; "+15550002" ]}) ;;;
      on_sending_done envelope st_sent None) ;;;
     process_buffered_receipts elements (get_envelope_time envelope)) new
      = Ok tt before
    /\ ((on_sending_message envelope (Some {[ "+15550001"; "+15550002" ]}) ;;;
         on_sending_done envelope st_sent None) ;;;
        process_buffered_receipts elements (get_envelope_time envelope) ;;;
        for_each receipts on_receive_receipt) new
       = Ok tt after
    /\ status_of before (get_envelope_time envelope)
       = status_of after (get_envelope_time envelope)
    /\ grp_memb_remain_un (entry_of before (get_envelope_time envelope))
       = grp_memb_remain_un (entry_of after (get_envelope_time envelope)).
Proof.
  cbv zeta.
  apply (buffered_receipts_replay_to_same_status elements); [done|reflexivity..].
Defined.

End ReplayTracker.

(** ** Facts about the process scheduler *)

Module AsyncFacts.
Import Py Async.

(** The call of the callback given to [run], if there is one. *)
Definition callback_events (r : run_args) (proc : nat) : list event :=
  match callback r with
  | Some cb => [ev_callback cb proc]
  | None => []
  end.

(** The callbacks of a scope: [proc_callback] and the final [callback]. *)
Definition is_scope_callback (e : event) : Prop :=
  match e with
  | ev_proc_callback _ _ | ev_item_callback _ => True
  | _ => False
  end.

(** [e1] occurs in the trace, and [e2] occurs after its first occurrence
    or not at all before it. *)
Definition precedes (e1 e2 : event) (tr : list event) : bool :=
  match list_find (fun e => e = e1) tr, list_find (fun e => e = e2) tr with
  | Some (i, _), Some (j, _) => (i <? j)%nat
  | _, _ => false
  end.

(** With one slot, a command with a callback and a second, queued command:
    when the first process exits, its callback is called before the queued
    command is started, not after. *)
Lemma callback_runs_before_next_launch :
  let submit :=
    run {| args := "first"; callback := Some "on_done"; shell := false |} ;;;
    run {| args := "second"; callback := None; shell := false |} in
  exists s,
    submit (new 1) = Ok None s
    /\ _curr_running s = {[1%nat]}
    /\ (snd <$> _run_queue s) = [{| args := "second"; callback := None; shell := false |}]
    /\ trace (final_state (watchpipe_handler 1 s))
       = trace s ++ [ev_callback "on_done" 1; ev_popen 3 "second"]
    /\ precedes (ev_popen 3 "second") (ev_callback "on_done" 1)
         (trace (final_state (watchpipe_handler 1 s))) = false
    /\ precedes (ev_callback "on_done" 1) (ev_popen 3 "second")
         (trace (final_state (watchpipe_handler 1 s))) = true.
Proof.
  cbv zeta. eexists. split; [vm_compute; reflexivity|].
  repeat split; vm_compute; reflexivity.
Qed.

(** The part of [_on_proc_done] that follows [AsyncQueued._on_proc_done]. *)
Definition after_queued_done (proc : nat)
    (r : option (nat * run_args) * option nat) : M t unit :=
  _remove_buffered_run r.1 r.2 ;;;
  self <- get ;;
  match list_find (fun item => proc ∈ procs item) (_context_items self) with
  | None => ret tt
  | Some (k, item) =>
      let item := set_procs (fun ps => ps ∖ {[proc]}) item in
      set_context_items <[k := item]> ;;;
      match proc_callback item with
      | Some cb => emit (ev_proc_callback cb proc)
      | None => ret tt
      end ;;;
      self <- get ;;
      if negb (nonempty (procs item) || nonempty (buffered_runs item)
               || _accepting_new_procs_for_item self)
      then _pop_callback (Some item)
      else ret tt
  end.

Lemma _on_proc_done_unfold proc :
  _on_proc_done proc = (r <- AsyncQueued__on_proc_done proc ;; after_queued_done proc r).
Proof. reflexivity. Qed.

(** The state in which the next command has just been started. *)
Definition popened (s : t) (proc : nat) (r next : run_args) (q : list (nat * run_args))
    : t :=
  {| _curr_running := _curr_running s ∖ {[proc]};
     _run_queue := q;
     _max_background_procs := _max_background_procs s;
     _context_items := _context_items s;
     _accepting_new_procs_for_item := _accepting_new_procs_for_item s;
     watched := <[next_id s := next]> (delete proc (watched s));
     next_id := S (next_id s);
     trace := (trace s ++ callback_events r proc) ++ [ev_popen (next_id s) (args next)] |}.

Lemma watchpipe_handler_prefix s proc r run_id next q :
  watched s !! proc = Some r ->
  proc ∈ _curr_running s ->
  _run_queue s = (run_id, next) :: q ->
  watchpipe_handler proc s
  = (started <- (_on_proc_started (next_id s) ;;; ret (next_id s)) ;;
     after_queued_done proc (Some (run_id, next), Some started))
      (popened s proc r next q).
Proof.
  intros Hw Hrun Hq. destruct s as [running queue maxp items acc w nid tr].
  cbn [watched _curr_running _run_queue next_id trace] in *. subst queue.
  unfold watchpipe_handler, bind at 1, get. cbn [watched]. rewrite Hw.
  rewrite _on_proc_done_unfold.
  unfold popened, callback_events.
  destruct (callback r);
    cbv [AsyncQueued__on_proc_done _pop_run AsyncProc_run bind get set_watched modify emit
         ret set_curr_running set_run_queue fresh
         _curr_running _run_queue _context_items _accepting_new_procs_for_item watched
         next_id trace _max_background_procs];
    rewrite bool_decide_eq_true_2 by done;
    rewrite ?app_nil_r;
    match goal with |- context [_on_proc_started ?p ?st] =>
      destruct (_on_proc_started p st) end; reflexivity.
Qed.

(** Computations that call no callback and start no process. *)
Definition silent {A} (m : M t A) : Prop :=
  forall s, trace (final_state (m s)) = trace s.

(** Computations whose only events are calls of scope callbacks. *)
Definition scope_only {A} (m : M t A) : Prop :=
  forall s, exists rest,
    trace (final_state (m s)) = trace s ++ rest /\ Forall is_scope_callback rest.

Lemma silent_scope_only {A} (m : M t A) : silent m -> scope_only m.
Proof. intros Hm s. exists []. by rewrite app_nil_r, Hm. Qed.

Lemma silent_bind {A B} (m : M t A) (k : A -> M t B) :
  silent m -> (forall a, silent (k a)) -> silent (bind m k).
Proof.
  intros Hm Hk s. unfold bind. specialize (Hm s).
  destruct (m s) as [a s'|e s']; simpl in *; [|done]. by rewrite Hk.
Qed.

Lemma scope_only_bind {A B} (m : M t A) (k : A -> M t B) :
  scope_only m -> (forall a, scope_only (k a)) -> scope_only (bind m k).
Proof.
  intros Hm Hk s. unfold bind. destruct (Hm s) as (rest1 & Htr1 & Hrest1).
  destruct (m s) as [a s'|e s']; simpl in *; [|by exists rest1].
  destruct (Hk a s') as (rest2 & Htr2 & Hrest2).
  exists (rest1 ++ rest2). rewrite Htr2, Htr1, app_assoc. split; [done|].
  by apply Forall_app.
Qed.

Lemma silent_ret {A} (a : A) : silent (ret a).
Proof. done. Qed.

Lemma silent_raise {A} e : silent (raise (A := A) e).
Proof. done. Qed.

Lemma silent_get : silent get.
Proof. done. Qed.

Lemma silent_set_context_items f : silent (set_context_items f).
Proof. done. Qed.

Lemma silent_set_curr_running f : silent (set_curr_running f).
Proof. done. Qed.

Lemma silent_on_curr_item f : silent (on_curr_item f).
Proof.
  unfold on_curr_item. apply silent_bind; [apply silent_get|]. intros self.
  destruct (last (_context_items self));
    [apply silent_set_context_items|apply silent_raise].
Qed.

Lemma silent__on_proc_started proc : silent (_on_proc_started proc).
Proof.
  unfold _on_proc_started. apply silent_bind; [apply silent_set_curr_running|].
  intros _. apply silent_bind; [apply silent_get|]. intros self.
  destruct (negb _); [apply silent_ret|apply silent_on_curr_item].
Qed.

Lemma silent__remove_buffered_run r started : silent (_remove_buffered_run r started).
Proof.
  unfold _remove_buffered_run. destruct r as [[run_id ?]|]; [|apply silent_ret].
  destruct started; [apply silent_set_context_items|apply silent_ret].
Qed.

Lemma scope_only_emit_proc_callback cb proc : scope_only (emit (ev_proc_callback cb proc)).
Proof. intros s. exists [ev_proc_callback cb proc]. split; [done|]. by repeat constructor. Qed.

Lemma scope_only_emit_item_callback cb : scope_only (emit (ev_item_callback cb)).
Proof. intros s. exists [ev_item_callback cb]. split; [done|]. by repeat constructor. Qed.

Lemma scope_only__pop_callback item : scope_only (_pop_callback item).
Proof.
  unfold _pop_callback. apply scope_only_bind.
  - apply silent_scope_only. destruct item as [item|].
    + apply silent_bind; [apply silent_get|]. intros self.
      destruct (list_find _ _) as [[k ?]|]; [|apply silent_raise].
      apply silent_bind; [apply silent_set_context_items|]. intros _. apply silent_ret.
    + apply silent_bind; [apply silent_get|]. intros self.
      destruct (last _); [|apply silent_raise].
      apply silent_bind; [apply silent_set_context_items|]. intros _. apply silent_ret.
  - intros it. destruct (item_callback it);
      [apply scope_only_emit_item_callback|apply silent_scope_only, silent_ret].
Qed.

Lemma scope_only_after_queued_done proc r : scope_only (after_queued_done proc r).
Proof.
  unfold after_queued_done.
  apply scope_only_bind; [apply silent_scope_only, silent__remove_buffered_run|]. intros _.
  apply scope_only_bind; [apply silent_scope_only, silent_get|]. intros self.
  destruct (list_find _ _) as [[k item]|]; [|apply silent_scope_only, silent_ret].
  cbv zeta.
  apply scope_only_bind; [apply silent_scope_only, silent_set_context_items|]. intros _.
  apply scope_only_bind.
  { destruct (proc_callback _);
      [apply scope_only_emit_proc_callback|apply silent_scope_only, silent_ret]. }
  intros _. apply scope_only_bind; [apply silent_scope_only, silent_get|]. intros self'.
  destruct (negb _); [apply scope_only__pop_callback|apply silent_scope_only, silent_ret].
Qed.

(** C3 (amended): when a process exits while commands are queued, the
    callback given to its [run] call (if any) is called first, then the
    next queued command is taken from the queue and started, and only
    afterwards are the scope's [proc_callback] and final [callback]
    called. *)
Theorem completion_calls_callback_then_launches_next
    (s : t) (proc : nat) (r : run_args) (run_id : nat) (next : run_args)
    (q : list (nat * run_args)) :
  watched s !! proc = Some r ->
  proc ∈ _curr_running s ->
  _run_queue s = (run_id, next) :: q ->
  exists rest,
    trace (final_state (watchpipe_handler proc s))
    = trace s ++ callback_events r proc ++ ev_popen (next_id s) (args next) :: rest
    /\ Forall is_scope_callback rest.
Proof.
  intros Hw Hrun Hq.
  rewrite (watchpipe_handler_prefix s proc r run_id next q Hw Hrun Hq).
  assert (Htail : scope_only
            (started <- (_on_proc_started (next_id s) ;;; ret (next_id s)) ;;
             after_queued_done proc (Some (run_id, next), Some started))).
  { apply scope_only_bind; [|intros; apply scope_only_after_queued_done].
    apply silent_scope_only, silent_bind; [apply silent__on_proc_started|].
    intros _. apply silent_ret. }
  destruct (Htail (popened s proc r next q)) as (rest & -> & Hrest).
  exists rest. split; [|done]. unfold popened. cbn [trace].
  by rewrite <- !app_assoc.
Qed.

Lemma completion_calls_callback_then_launches_next_witness :
  exists rest,
    trace (final_state (watchpipe_handler 1
      {| _curr_running := {[1%nat]};
         _run_queue := [(2%nat, {| args := "second"; callback := None; shell := false |})];
         _max_background_procs := 1%Z; _context_items := [];
         _accepting_new_procs_for_item := false;
         watched := {[1%nat := {| args := "first"; callback := Some "on_done";
                                  shell := false |}]};
         next_id := 3; trace := [ev_popen 1 "first"] |}))
    = [ev_popen 1 "first"]
        ++ callback_events {| args := "first"; callback := Some "on_done"; shell := false |} 1
        ++ ev_popen 3 "second" :: rest
    /\ Forall is_scope_callback rest.
Proof.
  apply (completion_calls_callback_then_launches_next
           {| _curr_running := {[1%nat]};
              _run_queue := [(2%nat, {| args := "second"; callback := None; shell := false |})];
              _max_background_procs := 1%Z; _context_items := [];
              _accepting_new_procs_for_item := false;
              watched := {[1%nat := {| args := "first"; callback := Some "on_done";
                                       shell := false |}]};
              next_id := 3; trace := [ev_popen 1 "first"] |}
           1 {| args := "first"; callback := Some "on_done"; shell := false |}
           2 {| args := "second"; callback := None; shell := false |} []);
    [reflexivity|cbn [_curr_running]; apply elem_of_singleton; reflexivity|reflexivity].
Defined.

(** C9: with a cap of one process, three commands submitted inside one
    [callback_finally] scope run one after the other: only the first is
    started inside the scope, and each of the others is started by the
    handler of the exit of the one before it; [proc_callback] is called
    once per exit, in exit order, and the final callback once, at the third
    exit.  (The processes are the objects 2, 5 and 6; only the running one
    has a handler, so no other exit order is possible.) *)
Theorem three_commands_with_one_slot_run_sequentially
    (r1 r2 r3 : run_args) (all_done each_done : string) :
  exists s0 s1 s2 s3,
    callback_finally (Some all_done) (Some each_done)
      (run r1 ;;; run r2 ;;; run r3) (new 1) = Ok None s0
    /\ trace s0 = [ev_popen 2 (args r1)]
    /\ _curr_running s0 = {[2%nat]} /\ dom (watched s0) = {[2%nat]}
    /\ (snd <$> _run_queue s0) = [r2; r3]
    /\ watchpipe_handler 2 s0 = Ok tt s1
    /\ trace s1 = trace s0 ++ callback_events r1 2
                    ++ [ev_popen 5 (args r2); ev_proc_callback each_done 2]
    /\ _curr_running s1 = {[5%nat]} /\ dom (watched s1) = {[5%nat]}
    /\ (snd <$> _run_queue s1) = [r3]
    /\ watchpipe_handler 5 s1 = Ok tt s2
    /\ trace s2 = trace s1 ++ callback_events r2 5
                    ++ [ev_popen 6 (args r3); ev_proc_callback each_done 5]
    /\ _curr_running s2 = {[6%nat]} /\ dom (watched s2) = {[6%nat]}
    /\ _run_queue s2 = []
    /\ watchpipe_handler 6 s2 = Ok tt s3
    /\ trace s3 = trace s2 ++ callback_events r3 6
                    ++ [ev_proc_callback each_done 6; ev_item_callback all_done]
    /\ _curr_running s3 = ∅ /\ dom (watched s3) = ∅
    /\ _context_items s3 = [].
Proof.
  set (s0 := final_state (callback_finally (Some all_done) (Some each_done)
                             (run r1 ;;; run r2 ;;; run r3) (new 1))).
  set (s1 := final_state (watchpipe_handler 2 s0)).
  set (s2 := final_state (watchpipe_handler 5 s1)).
  set (s3 := final_state (watchpipe_handler 6 s2)).
  exists s0, s1, s2, s3. subst s0 s1 s2 s3.
  destruct r1 as [a1 [k1|] sh1], r2 as [a2 [k2|] sh2], r3 as [a3 [k3|] sh3];
    unfold callback_events; cbn [callback args];
    repeat (split; [vm_compute; reflexivity|]); vm_compute; reflexivity.
Qed.

End AsyncFacts.

(** ** Facts about the output classifier *)

Module DaemonFacts.
Import Py Daemon.

(** C4 (the code raises): a zero-exit output whose last token is not a
    decimal integer, and a failed group send whose output contains
    "Unregistered user" without a trailing integer on its first line, make
    [_parse_send_proc_output] raise [ValueError] before any callback is
    called: [int()] is not guarded on the second path, and the handler on
    the first catches [IndexError] and [AttributeError] only. *)
Theorem parse_send_proc_output_raises_ValueError
    (envelope : Envelope) (callback_name : string) (calls : list callback_call) :
  _parse_send_proc_output (fun _ => true)
    {| returncode := 0; output := "   int64 0x18bcfe56800" |}
    envelope callback_name calls
  = Raised ValueError calls
  /\ _parse_send_proc_output (fun _ => true)
       {| returncode := 1;
          output := "Failed to send message: Unregistered user +15550001" |}
       envelope callback_name calls
     = Raised ValueError calls.
Proof. split; reflexivity. Qed.

(** For comparison, the outputs the parser expects are classified. *)
Lemma parse_send_proc_output_expected
    (envelope : Envelope) (callback_name : string) :
  _parse_send_proc_output (fun _ => true)
    {| returncode := 0; output := "   int64 1700000000123" |}
    envelope callback_name []
  = Ok tt [named_callback callback_name envelope
             (Some DeliveryStatus.st_sent) (Some 1700000000123%Z)]
  /\ _parse_send_proc_output (fun _ => true)
       {| returncode := 0; output := "" |} envelope callback_name []
     = Ok tt [named_callback callback_name envelope None None]
  /\ _parse_send_proc_output (fun _ => true)
       {| returncode := 1; output := "Unregistered user: 1700000000456" |}
       envelope callback_name []
     = Ok tt [named_callback callback_name envelope
                (Some DeliveryStatus.st_ignore_receipts) (Some 1700000000456%Z)]
  /\ _parse_send_proc_output (fun _ => true)
       {| returncode := 1; output := "connection refused" |}
       envelope callback_name []
     = Ok tt [named_callback callback_name envelope
                (Some DeliveryStatus.st_send_failed) None].
Proof. repeat split; reflexivity. Qed.

End DaemonFacts.

Module ChatMoreFacts.
Import Py ChatFacts.
Local Open Scope Z_scope.

Lemma bisect_left_loop_spec {A B} (lt : A -> B -> bool) fuel (a : list A) x lo hi :
  (lo <= hi)%nat -> (hi <= length a)%nat -> (hi - lo <= fuel)%nat ->
  (lo <= bisect_left_loop lt fuel a x lo hi <= hi)%nat
  /\ (forall y, (lo < bisect_left_loop lt fuel a x lo hi)%nat ->
        a !! (bisect_left_loop lt fuel a x lo hi - 1)%nat = Some y -> lt y x = true)
  /\ (forall y, (bisect_left_loop lt fuel a x lo hi < hi)%nat ->
        a !! bisect_left_loop lt fuel a x lo hi = Some y -> lt y x = false).
Proof.
  revert lo hi. induction fuel as [|fuel IH]; intros lo hi Hlh Hlen Hfuel;
    cbn [bisect_left_loop]; cbv zeta.
  - split; [lia|]. split; intros; lia.
  - destruct (Nat.ltb_spec lo hi) as [Hlt|Hge]; [|split; [lia|split; intros; lia]].
    assert (Hmid : (lo <= (lo + hi) / 2 < hi)%nat).
    { split; [apply Nat.div_le_lower_bound; lia | apply Nat.Div0.div_lt_upper_bound; lia]. }
    destruct (lookup_lt_is_Some_2 a ((lo + hi) / 2)%nat) as [y Hy]; [lia|].
    rewrite Hy. destruct (lt y x) eqn:Hyx.
    + destruct (IH ((lo + hi) / 2 + 1)%nat hi) as (Hr & Hl & Hu); [lia..|].
      split; [lia|]. split; [|exact Hu].
      intros z Hz Hlook.
      destruct (decide (bisect_left_loop lt fuel a x ((lo + hi) / 2 + 1) hi
                        = (lo + hi) / 2 + 1)%nat) as [Heq|Hne].
      * rewrite Heq in Hlook.
        replace ((lo + hi) / 2 + 1 - 1)%nat with ((lo + hi) / 2)%nat in Hlook by lia.
        congruence.
      * apply Hl; [lia|done].
    + destruct (IH lo ((lo + hi) / 2)%nat) as (Hr & Hl & Hu); [lia..|].
      split; [lia|]. split; [exact Hl|].
      intros z Hz Hlook.
      destruct (decide (bisect_left_loop lt fuel a x lo ((lo + hi) / 2)
                        = (lo + hi) / 2)%nat) as [Heq|Hne].
      * rewrite Heq in Hlook. congruence.
      * apply Hu; [lia|done].
Qed.

(** Computations that leave the list of messages as it is. *)
Definition keeps_items {A} (m : M Chat A) : Prop :=
  forall c, items (final_state (m c)) = items c.

Lemma keeps_ret {A} (a : A) : keeps_items (ret a).
Proof. done. Qed.

Lemma keeps_raise {A} e : keeps_items (raise (A := A) e).
Proof. done. Qed.

Lemma keeps_get : keeps_items get.
Proof. done. Qed.

Lemma keeps_len : keeps_items Chat.len.
Proof. done. Qed.

Lemma keeps_getitem i : keeps_items (Chat.getitem i).
Proof. intros c. unfold Chat.getitem. by destruct (Py.getitem _ _). Qed.

Lemma keeps_set_reordered f : keeps_items (modify (Chat.set_reordered f)).
Proof. done. Qed.

Lemma keeps_bind {A B} (m : M Chat A) (k : A -> M Chat B) :
  keeps_items m -> (forall a, keeps_items (k a)) -> keeps_items (bind m k).
Proof.
  intros Hm Hk c. unfold bind. specialize (Hm c).
  destruct (m c) as [a c'|e c']; simpl in *; [|done]. by rewrite Hk.
Qed.

Lemma keeps_try_except {A} (m : M Chat A) caught h :
  keeps_items m -> (forall e, keeps_items (h e)) -> keeps_items (try_except m caught h).
Proof.
  intros Hm Hh c. unfold try_except. specialize (Hm c).
  destruct (m c) as [a c'|e c']; simpl in *; [done|].
  destruct (caught e); [by rewrite Hh|done].
Qed.

Lemma keeps_for_each {A} (xs : list A) body :
  (forall x, keeps_items (body x)) -> keeps_items (Chat.for_each xs body).
Proof.
  intros Hbody. induction xs as [|x xs IH]; simpl; [apply keeps_ret|].
  apply keeps_bind; [apply Hbody|]. intros _. apply IH.
Qed.

Lemma keeps_reorder_pair pp tlr : keeps_items (Chat.reorder_pair pp tlr).
Proof.
  intros c. destruct (reorder_pair_kept pp tlr c) as (a & r & ->). done.
Qed.

Ltac keeps :=
  repeat first
    [ apply keeps_ret | apply keeps_raise | apply keeps_get | apply keeps_len
    | apply keeps_getitem | apply keeps_set_reordered | apply keeps_reorder_pair
    | apply keeps_bind; [|intros ?]
    | apply keeps_try_except; [|intros ?]
    | apply keeps_for_each; intros ?
    | progress cbv zeta
    | match goal with
      | |- keeps_items (if ?b then _ else _) => destruct b
      | |- keeps_items (match ?x with _ => _ end) => destruct x
      | |- keeps_items (let '(_, _) := ?x in _) => destruct x
      end ].

Lemma keeps__add_reordered_neighbors index :
  keeps_items (Chat._add_reordered_neighbors index).
Proof. unfold Chat._add_reordered_neighbors. keeps. Qed.

Lemma keeps_forget_neighbor index ioffset modified :
  keeps_items (Chat.forget_neighbor index ioffset modified).
Proof. unfold Chat.forget_neighbor. keeps. Qed.

Lemma keeps__delete_from_reordered msg index :
  keeps_items (Chat._delete_from_reordered msg index).
Proof.
  unfold Chat._delete_from_reordered.
  apply keeps_bind; [apply keeps_set_reordered|]. intros _.
  apply keeps_bind; [apply keeps_len|]. intros n.
  destruct (if (index =? n) then _ else _) as [index' edge].
  apply keeps_bind.
  - destruct edge; [apply keeps_forget_neighbor|].
    apply keeps_bind; [apply keeps_forget_neighbor|]. intros ?. apply keeps_forget_neighbor.
  - intros modified. destruct modified; [apply keeps__add_reordered_neighbors|apply keeps_ret].
Qed.

(** *** A message whose ordering key no other message shares *)

Section unique_key.
Variables (l : list Message) (p : nat) (m : Message).
Hypothesis Hsorted : sorted l.
Hypothesis Hp : l !! p = Some m.
Hypothesis Hunique :
  forall j x, j <> p -> l !! j = Some x ->
    Message.local_timestamp x <> Message.local_timestamp m.

Lemma unique_key_before j x :
  (j < p)%nat -> l !! j = Some x ->
  Message.local_timestamp x < Message.local_timestamp m.
Proof.
  intros Hj Hx. pose proof (sorted_lookup l j p x m Hsorted ltac:(lia) Hx Hp) as Hle.
  pose proof (Hunique j x ltac:(lia) Hx). unfold le_key in Hle. lia.
Qed.

Lemma unique_key_after j x :
  (p < j)%nat -> l !! j = Some x ->
  Message.local_timestamp m < Message.local_timestamp x.
Proof.
  intros Hj Hx. pose proof (sorted_lookup l p j m x Hsorted ltac:(lia) Hp Hx) as Hle.
  pose proof (Hunique j x ltac:(lia) Hx). unfold le_key in Hle. lia.
Qed.

Lemma p_lt_length : (p < length l)%nat.
Proof. by eapply lookup_lt_Some. Qed.

Lemma bisect_left_unique_key : bisect_left Message.__lt__ l m = p.
Proof.
  destruct (bisect_left_loop_spec Message.__lt__ (length l) l m 0 (length l))
    as (Hr & Hl & Hu); [lia..|].
  fold (bisect_left Message.__lt__ l m) in Hr, Hl, Hu.
  set (i := bisect_left Message.__lt__ l m) in *.
  pose proof p_lt_length as Hlen.
  destruct (Nat.lt_trichotomy i p) as [Hlt|[Heq|Hgt]]; [|done|]; exfalso.
  - destruct (lookup_lt_is_Some_2 l i) as [y Hy]; [lia|].
    specialize (Hu y ltac:(lia) Hy).
    pose proof (unique_key_before i y Hlt Hy). unfold Message.__lt__ in Hu. lia.
  - destruct (lookup_lt_is_Some_2 l (i - 1)%nat) as [y Hy]; [lia|].
    specialize (Hl y ltac:(lia) Hy). unfold Message.__lt__ in Hl.
    destruct (decide (i - 1 = p)%nat) as [Hip|Hip].
    + rewrite Hip, Hp in Hy. injection Hy as <-. lia.
    + pose proof (unique_key_after (i - 1)%nat y ltac:(lia) Hy). lia.
Qed.

Lemma index_unique_key c :
  items c = l -> Chat.index m c = Ok (Z.of_nat p) c.
Proof.
  intros Hc. pose proof p_lt_length as Hlen.
  unfold Chat.index, bind at 1, try_except, Chat.getitem. rewrite Hc, getitem_last.
  destruct (last l) as [msg_last|] eqn:Hlast;
    [|apply last_None in Hlast; rewrite Hlast in Hlen; simpl in Hlen; lia].
  destruct (Message.__eq__ msg_last m) eqn:Heq.
  - unfold bind, Chat.len, ret. rewrite Hc. do 2 f_equal.
    rewrite last_lookup in Hlast.
    destruct (decide (Nat.pred (length l) = p)) as [|Hne]; [lia|exfalso].
    apply (Hunique _ _ Hne Hlast).
    unfold Message.__eq__ in Heq. apply bool_decide_eq_true in Heq.
    unfold Message.local_timestamp, Message.timestamp. by rewrite Heq.
  - unfold bind at 1, get. rewrite Hc, bisect_left_unique_key.
    rewrite bool_decide_eq_true_2 by lia.
    unfold bind, Chat.getitem. rewrite Hc, getitem_nonneg by lia.
    rewrite Nat2Z.id, Hp.
    unfold Message.__eq__. by rewrite bool_decide_eq_true_2.
Qed.

Lemma sorted_delete : sorted (delete p l).
Proof.
  rewrite delete_take_drop. unfold sorted in *.
  rewrite <- (take_drop_middle l p m Hp) in Hsorted.
  apply StronglySorted_app in Hsorted as (Hcross & Htake & Hrest).
  apply StronglySorted_inv in Hrest as [Hdrop _].
  apply StronglySorted_app_2; [|done..].
  intros x1 x2 Hx1 Hx2. apply Hcross; [done|]. by apply list_elem_of_further.
Qed.

Lemma lookup_delete_before j : (j < p)%nat -> delete p l !! j = l !! j.
Proof. intros. by rewrite list_lookup_delete_lt by lia. Qed.

Lemma lookup_delete_after j : (p <= j)%nat -> delete p l !! j = l !! S j.
Proof. intros. by rewrite list_lookup_delete_ge by lia. Qed.

Lemma bisect_right_unique_key m' :
  envelope m' = envelope m -> bisect_right Message.__lt__ (delete p l) m' = p.
Proof.
  intros Henv.
  assert (Hkey : Message.local_timestamp m' = Message.local_timestamp m).
  { unfold Message.local_timestamp, Message.timestamp. by rewrite Henv. }
  pose proof p_lt_length as Hlen.
  assert (Hlen' : length (delete p l) = (length l - 1)%nat).
  { rewrite length_delete by (by eexists). lia. }
  destruct (PyFacts.bisect_right_loop_spec Message.__lt__ (length (delete p l))
              (delete p l) m' 0 (length (delete p l))) as (Hr & Hl & Hu); [lia..|].
  fold (bisect_right Message.__lt__ (delete p l) m') in Hr, Hl, Hu.
  set (r := bisect_right Message.__lt__ (delete p l) m') in *.
  destruct (Nat.lt_trichotomy r p) as [Hlt|[Heq|Hgt]]; [|done|]; exfalso.
  - destruct (lookup_lt_is_Some_2 (delete p l) r) as [y Hy]; [lia|].
    specialize (Hu y ltac:(lia) Hy). rewrite lookup_delete_before in Hy by done.
    pose proof (unique_key_before r y Hlt Hy). unfold Message.__lt__ in Hu. lia.
  - destruct (lookup_lt_is_Some_2 (delete p l) (r - 1)%nat) as [y Hy]; [lia|].
    specialize (Hl y ltac:(lia) Hy). rewrite lookup_delete_after in Hy by lia.
    pose proof (unique_key_after (S (r - 1)) y ltac:(lia) Hy).
    unfold Message.__lt__ in Hl. lia.
Qed.

Lemma add_items_delete_unique_key m' :
  envelope m' = envelope m ->
  add_items (delete p l) m' = take p l ++ m' :: drop (S p) l.
Proof.
  intros Henv.
  assert (Hkey : Message.local_timestamp m' = Message.local_timestamp m).
  { unfold Message.local_timestamp, Message.timestamp. by rewrite Henv. }
  pose proof p_lt_length as Hlen.
  unfold add_items. destruct (last (delete p l)) as [msg_last|] eqn:Hlast.
  - destruct (Message.__le__ msg_last m') eqn:Hle.
    + (* appended: [m] was the last message *)
      rewrite last_lookup in Hlast.
      rewrite length_delete in Hlast by (by eexists).
      destruct (decide (p = length l - 1)%nat) as [Hpl|Hpl].
      * rewrite delete_take_drop, (drop_ge l (S p)) by lia. by rewrite app_nil_r.
      * exfalso. rewrite lookup_delete_after in Hlast by lia.
        pose proof (unique_key_after (S (Nat.pred (length l - 1))) msg_last
                      ltac:(lia) Hlast).
        unfold Message.__le__ in Hle. lia.
    + rewrite bisect_right_unique_key by done. unfold list_insert_at.
      rewrite delete_take_drop.
      rewrite take_app_length' by (rewrite length_take; lia).
      rewrite drop_app_length' by (rewrite length_take; lia). done.
  - apply last_None in Hlast. rewrite delete_take_drop in Hlast.
    apply app_eq_nil in Hlast as [Htake Hdrop]. by rewrite Htake, Hdrop.
Qed.

End unique_key.

(** C7 (amended): in a sorted store, deleting a message whose ordering key
    no other message shares and adding an equal message again restores the
    sequence of messages (compared by their envelopes), and the store stays
    sorted.  Nothing is claimed about [_reordered_timestamps], nor about
    the position of a message that shares its ordering key with others. *)
Theorem delete_then_add_restores_sequence
    (c c1 : Chat) (p : nat) (m m' : Message) (index_arg : option Z) :
  sorted (items c) ->
  items c !! p = Some m ->
  (forall j x, j <> p -> items c !! j = Some x ->
     Message.local_timestamp x <> Message.local_timestamp m) ->
  Message.__eq__ m' m = true ->
  index_arg = None \/ index_arg = Some (Z.of_nat p) ->
  Chat.delete m index_arg c = Ok tt c1 ->
  exists c2,
    Chat.add m' c1 = Ok tt c2
    /\ envelope <$> items c2 = envelope <$> items c
    /\ sorted (items c2).
Proof.
  intros Hsorted Hp Hunique Heq Harg Hdel.
  apply bool_decide_eq_true in Heq.
  pose proof (p_lt_length _ _ _ Hp) as Hlen.
  assert (Hitems : items c1 = delete p (items c)).
  { unfold Chat.delete, bind at 1, try_except in Hdel.
    assert (Hindex : match index_arg with
                     | Some i => ret i
                     | None => Chat.index m
                     end c = Ok (Z.of_nat p) c).
    { destruct Harg as [->| ->]; [|done].
      by apply (index_unique_key (items c) p m). }
    unfold bind at 1 in Hdel. rewrite Hindex in Hdel.
    unfold bind at 1, Chat.delitem, Py.delitem in Hdel.
    destruct (Z.ltb_spec (Z.of_nat p) 0); [lia|].
    destruct (Z.ltb_spec (Z.of_nat p) (Z.of_nat (length (items c)))); [|lia].
    rewrite Nat2Z.id in Hdel. unfold ret in Hdel.
    pose proof (keeps__delete_from_reordered m (Z.of_nat p)
                  (Chat.set_items (fun _ => delete p (items c)) c)) as Hkeep.
    rewrite Hdel in Hkeep. exact Hkeep. }
  destruct (add_ok m' c1) as [r Hadd]. eexists. split; [exact Hadd|].
  cbn [items]. rewrite Hitems.
  split.
  - rewrite (add_items_delete_unique_key _ _ _ Hsorted Hp Hunique) by done.
    rewrite <- (take_drop_middle (items c) p m Hp) at 3.
    rewrite !fmap_app, !fmap_cons. by rewrite Heq.
  - apply add_items_sorted. by eapply sorted_delete.
Qed.

(** Example messages: sender, sender timestamp, optional receiver
    timestamp. *)
Definition example_message (sender : string) (ts : Z) (received : option Z) : Message :=
  Message.new {| source := sender; timestamp := ts; dataMessage_timestamp := ts;
                 _received_timestamp := received; content := "" |}.

Definition store_of (msgs : list Message) : Chat :=
  final_state (Chat.add_all msgs Chat.empty).

Lemma delete_then_add_restores_sequence_witness :
  let m := example_message "B" 20 None in
  let c := store_of [example_message "A" 10 None; m; example_message "C" 30 None] in
  exists c2,
    Chat.add m (final_state (Chat.delete m None c)) = Ok tt c2
    /\ envelope <$> items c2 = envelope <$> items c
    /\ sorted (items c2).
Proof.
  cbv zeta.
  apply (delete_then_add_restores_sequence
           (store_of [example_message "A" 10 None; example_message "B" 20 None;
                      example_message "C" 30 None])
           _ 1 (example_message "B" 20 None) (example_message "B" 20 None) None).
  - repeat constructor; unfold le_key; vm_compute; discriminate.
  - reflexivity.
  - intros [|[|[|j]]] x Hj Hx; try done; vm_compute in Hx;
      try discriminate; injection Hx as <-; vm_compute; discriminate.
  - reflexivity.
  - by left.
  - reflexivity.
Defined.

(** Deleting a message and adding it again does not restore the store in
    general.  With two messages of equal ordering key the re-added one
    moves behind the other; and in the second store the sequence comes back
    but the entry of [_reordered_timestamps] for the message two places
    before the deleted one is dropped and not recomputed. *)
Lemma delete_then_add_changes_store :
  let a := example_message "A" 10 None in
  let c := store_of [a; example_message "B" 10 None] in
  let c' := (Chat.delete a None ;;; Chat.add a) c in
  let m := example_message "M" 30 None in
  let d := store_of [example_message "X" 10 (Some 20); example_message "Y" 15 None;
                     example_message "Z" 25 None; m; example_message "W" 40 None] in
  let d' := (Chat.delete m None ;;; Chat.add m) d in
  (is_ok c' = true
   /\ envelope <$> items (final_state c') <> envelope <$> items c)
  /\ (is_ok d' = true
      /\ envelope <$> items (final_state d') = envelope <$> items d
      /\ _reordered_timestamps d !! ("X", 10) = Some 20
      /\ _reordered_timestamps (final_state d') !! ("X", 10) = None).
Proof.
  cbv zeta. split; [split; [reflexivity|]|].
  - intros H. vm_compute in H. discriminate.
  - repeat split; vm_compute; reflexivity.
Qed.

End ChatMoreFacts.


(** ** Lookup by identity and [adjust_timestamp] *)

Module ChatLookupFacts.
Import Py ChatFacts ChatMoreFacts.
Local Open Scope Z_scope.

Lemma Chat_getitem_inv c i m c' :
  Chat.getitem i c = Ok m c' -> c' = c /\ Py.getitem (items c) i = Some m.
Proof.
  unfold Chat.getitem. destruct (Py.getitem (items c) i); [|done].
  by intros [= -> ->].
Qed.

Lemma Chat_getitem_nat c (k : nat) :
  Chat.getitem (Z.of_nat k) c
  = match items c !! k with
    | Some m => Ok m c
    | None => Raised IndexError c
    end.
Proof. unfold Chat.getitem. by rewrite getitem_nonneg, Nat2Z.id by lia. Qed.

(** [index] returns only positions that hold an equal message. *)
Lemma index_sound msg c i c' :
  Chat.index msg c = Ok i c' ->
  c' = c /\ exists (k : nat) x,
    i = Z.of_nat k /\ items c !! k = Some x /\ envelope x = envelope msg.
Proof.
  unfold Chat.index, bind at 1, try_except, Chat.getitem. rewrite getitem_last.
  destruct (last (items c)) as [msg_last|] eqn:Hlast; [|done].
  destruct (Message.__eq__ msg_last msg) eqn:Heq.
  - unfold bind, Chat.len, ret. intros [= <- <-]. split; [done|].
    exists (Nat.pred (length (items c))), msg_last.
    rewrite last_lookup in Hlast. split; [|split; [done|]].
    + assert (0 < length (items c))%nat; [|lia].
      apply lookup_lt_Some in Hlast. lia.
    + by apply bool_decide_eq_true in Heq.
  - unfold bind at 1, get.
    set (k := bisect_left Message.__lt__ (items c) msg).
    destruct (bool_decide (k <> length (items c))); [|done].
    unfold bind. rewrite getitem_nonneg, Nat2Z.id by lia.
    destruct (items c !! k) as [x|] eqn:Hx; [|done].
    destruct (Message.__eq__ x msg) eqn:Heqx; [|done].
    unfold ret. intros [= <- <-]. split; [done|]. exists k, x.
    split; [done|]. split; [done|]. by apply bool_decide_eq_true in Heqx.
Qed.

(** [_is_neighbd_monotonic] never raises, and a positive answer bounds the
    message by its two neighbours in the list. *)
Lemma _is_neighbd_monotonic_spec c (k : nat) x :
  items c !! k = Some x ->
  exists b,
    Chat._is_neighbd_monotonic (Z.of_nat k) c = Ok b c
    /\ (b = true ->
        (forall a, (0 < k)%nat -> items c !! (k - 1)%nat = Some a -> le_key a x)
        /\ (forall d, items c !! S k = Some d -> le_key x d)).
Proof.
  intros Hx. pose proof (lookup_lt_Some _ _ _ Hx) as Hlen.
  unfold Chat._is_neighbd_monotonic, try_except.
  assert (Hprev : exists a, Chat.getitem (Z.of_nat k - 1) c = Ok a c
            /\ ((0 < k)%nat -> items c !! (k - 1)%nat = Some a)).
  { destruct k as [|k'].
    - unfold Chat.getitem. change (Z.of_nat 0 - 1) with (-1). rewrite getitem_last.
      destruct (last (items c)) as [a|] eqn:Hlast.
      + exists a. split; [done|lia].
      + apply last_None in Hlast. rewrite Hlast in Hlen. simpl in Hlen. lia.
    - destruct (lookup_lt_is_Some_2 (items c) k') as [a Ha]; [lia|].
      exists a. replace (Z.of_nat (S k') - 1) with (Z.of_nat k') by lia.
      rewrite Chat_getitem_nat, Ha. split; [done|]. intros _.
      by replace (S k' - 1)%nat with k' by lia. }
  destruct Hprev as (a & Hgeta & Ha).
  unfold bind at 1. rewrite Hgeta. unfold bind at 1. rewrite Chat_getitem_nat, Hx.
  destruct (Message.__le__ a x) eqn:Hax.
  - replace (Z.of_nat k + 1) with (Z.of_nat (S k)) by lia.
    unfold bind. rewrite Chat_getitem_nat.
    destruct (items c !! S k) as [d|] eqn:Hd.
    + exists (Message.__le__ x d). split; [done|]. intros Hxd. split.
      * intros a' Hk Ha'. rewrite (Ha Hk) in Ha'. injection Ha' as <-.
        unfold le_key, Message.__le__ in *. lia.
      * intros d' [= <-]. unfold le_key, Message.__le__ in *. lia.
    + exists true. unfold Chat.is_IndexError. rewrite bool_decide_eq_true_2 by done.
      split; [done|]. intros _. split; [|done].
      intros a' Hk Ha'. rewrite (Ha Hk) in Ha'. injection Ha' as <-.
      unfold le_key, Message.__le__ in *. lia.
  - exists false. split; [done|]. done.
Qed.

Lemma bisect_left_loop_ext {A B C} (lt1 : A -> B -> bool) (lt2 : A -> C -> bool) x1 x2 :
  (forall y, lt1 y x1 = lt2 y x2) ->
  forall fuel a lo hi,
    bisect_left_loop lt1 fuel a x1 lo hi = bisect_left_loop lt2 fuel a x2 lo hi.
Proof.
  intros Hext fuel a. induction fuel as [|fuel IH]; intros lo hi; [done|].
  cbn [bisect_left_loop]. cbv zeta. destruct (lo <? hi)%nat; [|done].
  destruct (a !! ((lo + hi) / 2)%nat) as [y|]; [|done].
  rewrite Hext. by destruct (lt2 y x2).
Qed.

(** In a sorted store, a message that is alone with its ordering key and
    alone with its identity is found by [index_ts] under its sender and
    sender timestamp, when its ordering key is that timestamp and
    [_reordered_timestamps] has no entry for the identity. *)
Lemma index_ts_finds (c : Chat) (p : nat) (m : Message) :
  sorted (items c) ->
  items c !! p = Some m ->
  (forall j x, j <> p -> items c !! j = Some x ->
     Message.local_timestamp x <> Message.local_timestamp m) ->
  (forall j x, j <> p -> items c !! j = Some x ->
     ~ (Message.sender_num x = Message.sender_num m
        /\ Message.timestamp x = Message.timestamp m)) ->
  Message.local_timestamp m = Message.timestamp m ->
  Message.timestamp m <> 0 ->
  _reordered_timestamps c !! (Message.sender_num m, Message.timestamp m) = None ->
  Chat.index_ts (Message.timestamp m) (Some (Message.sender_num m)) c
  = Ok (Z.of_nat p) c.
Proof.
  intros Hsorted Hp Hkeys Hident Hkey Hnz Hentry.
  pose proof (lookup_lt_Some _ _ _ Hp) as Hlen.
  assert (Hmatch : Chat.match_test (Message.timestamp m)
                     (Some (Message.sender_num m)) m = true).
  { unfold Chat.match_test. rewrite Z.eqb_refl. by rewrite bool_decide_eq_true_2. }
  unfold Chat.index_ts, bind at 1, try_except, Chat.getitem. rewrite getitem_last.
  destruct (last (items c)) as [msg_last|] eqn:Hlast;
    [|apply last_None in Hlast; rewrite Hlast in Hlen; simpl in Hlen; lia].
  destruct (Chat.match_test _ _ msg_last) eqn:Hml.
  - unfold bind, Chat.len, ret. do 2 f_equal.
    rewrite last_lookup in Hlast.
    destruct (decide (Nat.pred (length (items c)) = p)) as [|Hne]; [lia|exfalso].
    apply (Hident _ _ Hne Hlast). unfold Chat.match_test in Hml.
    apply andb_true_iff in Hml as [Hts Hs].
    apply bool_decide_eq_true in Hs. split; [done|lia].
  - unfold bind at 1, get. rewrite Hentry. cbn [or_int].
    destruct (Z.eqb_spec (Message.timestamp m) 0) as [|_]; [done|].
    assert (Hbisect : bisect_left (fun (m0 : Message) (k : Z) =>
                         Message.local_timestamp m0 <? k) (items c)
                        (Message.timestamp m) = p).
    { rewrite <- (bisect_left_unique_key (items c) p m Hsorted Hp Hkeys).
      unfold bisect_left. apply bisect_left_loop_ext.
      intros y. unfold Message.__lt__. by rewrite Hkey. }
    rewrite Hbisect. rewrite bool_decide_eq_true_2 by lia.
    unfold bind at 1. cbn [app Chat.index_ts_probe].
    unfold bind at 1, Chat.getitem. rewrite getitem_nonneg, Nat2Z.id, Hp by lia.
    rewrite Hmatch. done.
Qed.

(** [index_ts] returns only positions that hold a message matching the
    requested sender timestamp and sender. *)
Lemma index_ts_probe_sound timestamp sender_num index inds c i c' :
  Chat.index_ts_probe timestamp sender_num index inds c = Ok (Some i) c' ->
  c' = c /\ exists x,
    Py.getitem (items c) i = Some x
    /\ Chat.match_test timestamp sender_num x = true.
Proof.
  induction inds as [|ind inds IH]; [done|].
  cbn [Chat.index_ts_probe]. unfold bind at 1.
  destruct (Chat.getitem ind c) as [msg c0|] eqn:Hget; [|done].
  apply Chat_getitem_inv in Hget as [-> Hget].
  destruct (Chat.match_test timestamp sender_num msg) eqn:Hmatch.
  - intros [= <- <-]. split; [done|]. by exists msg.
  - destruct (_ && _); [done|]. apply IH.
Qed.

Lemma index_ts_sound timestamp sender_num c i c' :
  Chat.index_ts timestamp sender_num c = Ok i c' ->
  c' = c /\ exists x,
    Py.getitem (items c) i = Some x
    /\ Chat.match_test timestamp sender_num x = true.
Proof.
  unfold Chat.index_ts, bind at 1, try_except, Chat.getitem. rewrite getitem_last.
  destruct (last (items c)) as [msg_last|] eqn:Hlast; [|done].
  destruct (Chat.match_test _ _ msg_last) eqn:Hml.
  - unfold bind, Chat.len, ret. intros [= <- <-]. split; [done|].
    exists msg_last. split; [|done].
    rewrite last_lookup in Hlast. pose proof (lookup_lt_Some _ _ _ Hlast).
    rewrite getitem_nonneg by lia. rewrite <- Hlast. f_equal. lia.
  - unfold bind at 1, get.
    destruct (_ =? 0); [done|].
    destruct (bool_decide _); [|done].
    unfold bind.
    destruct (Chat.index_ts_probe _ _ _ _ c) as [[ind|] c0|] eqn:Hprobe; [|done..].
    apply index_ts_probe_sound in Hprobe as [-> Hprobe].
    unfold ret. by intros [= <- <-].
Qed.

(** *** Keys of [_reordered_timestamps] come from messages that carry a
    receiver timestamp *)

Lemma getitem_elem_of {A} (l : list A) i x : Py.getitem l i = Some x -> x ∈ l.
Proof.
  unfold Py.getitem.
  destruct (i <? 0); [destruct (_ <? 0); [done|]|]; apply list_elem_of_lookup_2.
Qed.

Section no_entry.
Variables (l : list Message) (key : string * Z).
Hypothesis Hother_keys :
  forall x, x ∈ l -> is_Some (_received_timestamp (envelope x)) ->
    (Message.sender_num x, Message.timestamp x) <> key.

Definition no_entry (c : Chat) : Prop :=
  items c = l /\ _reordered_timestamps c !! key = None.

(** [holds m Q]: run from a store without an entry for [key], [m] leaves a
    store without such an entry, and its result satisfies [Q]. *)
Definition holds {A} (m : M Chat A) (Q : A -> Prop) : Prop :=
  forall c, no_entry c ->
    no_entry (final_state (m c)) /\ forall a c', m c = Ok a c' -> Q a.

Lemma holds_ret {A} (a : A) (Q : A -> Prop) : Q a -> holds (ret a) Q.
Proof. intros Ha c Hc. split; [done|]. by intros a' c' [= <- <-]. Qed.

Lemma holds_raise {A} e (Q : A -> Prop) : holds (raise e) Q.
Proof. intros c Hc. by split. Qed.

Lemma holds_get : holds get (fun _ => True).
Proof. intros c Hc. by split. Qed.

Lemma holds_len : holds Chat.len (fun _ => True).
Proof. intros c Hc. by split. Qed.

Lemma holds_getitem i : holds (Chat.getitem i) (fun x => x ∈ l).
Proof.
  intros c Hc. unfold Chat.getitem.
  destruct (Py.getitem (items c) i) as [x|] eqn:Hx; (split; [done|]); [|done].
  intros a c' [= <- <-]. destruct Hc as [<- _]. by eapply getitem_elem_of.
Qed.

Lemma holds_bind {A B} (m : M Chat A) (k : A -> M Chat B) Q R :
  holds m Q -> (forall a, Q a -> holds (k a) R) -> holds (bind m k) R.
Proof.
  intros Hm Hk c Hc. unfold bind. destruct (Hm c Hc) as [Hc' HQ].
  destruct (m c) as [a c'|e c']; simpl in *; [|by split].
  apply (Hk a); [by eapply HQ|done].
Qed.

Lemma holds_try_except {A} (m : M Chat A) caught h Q :
  holds m Q -> (forall e, holds (h e) Q) -> holds (try_except m caught h) Q.
Proof.
  intros Hm Hh c Hc. unfold try_except. destruct (Hm c Hc) as [Hc' HQ].
  destruct (m c) as [a c'|e c']; simpl in *.
  - split; [done|]. intros a' c'' [= <- <-]. by eapply HQ.
  - destruct (caught e); [by apply Hh|by split].
Qed.

Lemma holds_for_each {A} (xs : list A) body :
  (forall x, x ∈ xs -> holds (body x) (fun _ => True)) ->
  holds (Chat.for_each xs body) (fun _ => True).
Proof.
  induction xs as [|x xs IH]; intros Hbody; simpl; [by apply holds_ret|].
  eapply holds_bind; [apply Hbody; apply elem_of_cons; by left|].
  intros _ _. apply IH. intros y Hy. apply Hbody. apply elem_of_cons. by right.
Qed.

Lemma holds_insert_entry k v :
  k <> key -> holds (modify (Chat.set_reordered <[k := v]>)) (fun _ => True).
Proof.
  intros Hk c [Hl Hc]. split; [|done]. split; [done|].
  simpl. by rewrite lookup_insert_ne.
Qed.

Lemma holds_delete_entry k :
  holds (modify (Chat.set_reordered (delete k))) (fun _ => True).
Proof.
  intros c [Hl Hc]. split; [|done]. split; [done|].
  simpl. apply lookup_delete_None. by right.
Qed.

Lemma holds_reorder_pair a b tlr :
  a ∈ l -> b ∈ l -> holds (Chat.reorder_pair (a, b) tlr) (fun _ => True).
Proof.
  intros Ha Hb. unfold Chat.reorder_pair.
  assert (Hpair : forall local received, received ∈ l ->
    holds (match _received_timestamp (envelope received) with
           | None => ret tt
           | Some received_ts =>
               let original_ts := Message.timestamp received in
               let '(left_, right_) :=
                 if tlr then (original_ts, received_ts) else (received_ts, original_ts) in
               if ((left_ <=? Message.local_timestamp local)
                   && (Message.local_timestamp local <=? right_))%bool
               then modify (Chat.set_reordered
                              <[(Message.sender_num received, original_ts) := received_ts]>)
               else ret tt
           end) (fun _ => True)).
  { intros local received Hreceived.
    destruct (_received_timestamp (envelope received)) as [received_ts|] eqn:Hrecv;
      [|by apply holds_ret].
    cbv zeta. destruct (if tlr then _ else _) as [left_ right_].
    destruct (_ && _); [|by apply holds_ret].
    apply holds_insert_entry. apply Hother_keys; [done|]. by rewrite Hrecv. }
  destruct tlr; simpl; by apply Hpair.
Qed.

Lemma holds__add_reordered_neighbors index :
  holds (Chat._add_reordered_neighbors index) (fun _ => True).
Proof.
  unfold Chat._add_reordered_neighbors.
  apply holds_bind with (Q := fun pairs : list (Message * Message) =>
                                forall pp, pp ∈ pairs -> pp.1 ∈ l /\ pp.2 ∈ l).
  - destruct (index =? -1); [|destruct (index =? 0)].
    + eapply holds_bind; [apply holds_getitem|]. intros a Ha.
      eapply holds_bind; [apply holds_getitem|]. intros b Hb.
      apply holds_ret. intros pp ->%list_elem_of_singleton. done.
    + eapply holds_bind; [apply holds_getitem|]. intros a Ha.
      eapply holds_bind; [apply holds_getitem|]. intros b Hb.
      apply holds_ret. intros pp ->%list_elem_of_singleton. done.
    + eapply holds_bind; [apply holds_getitem|]. intros a Ha.
      eapply holds_bind; [apply holds_getitem|]. intros b Hb.
      eapply holds_bind; [apply holds_getitem|]. intros b' Hb'.
      eapply holds_bind; [apply holds_getitem|]. intros d Hd.
      apply holds_ret. intros pp [-> | ->%list_elem_of_singleton]%elem_of_cons; done.
  - intros pairs Hpairs. apply holds_for_each. intros [a b] Hpp.
    destruct (Hpairs _ Hpp) as [Ha Hb]. apply holds_for_each. intros tlr _.
    by apply holds_reorder_pair.
Qed.

Lemma holds_forget_neighbor index ioffset modified :
  holds (Chat.forget_neighbor index ioffset modified) (fun _ => True).
Proof.
  unfold Chat.forget_neighbor.
  apply holds_try_except; [|intros e; by apply holds_ret].
  eapply holds_bind; [apply holds_getitem|]. intros neighb _.
  eapply holds_bind; [apply holds_get|]. intros c _.
  destruct (_reordered_timestamps c !! _); [|apply holds_raise].
  eapply holds_bind; [apply holds_delete_entry|]. intros _ _. by apply holds_ret.
Qed.

Lemma holds__delete_from_reordered msg index :
  holds (Chat._delete_from_reordered msg index) (fun _ => True).
Proof.
  unfold Chat._delete_from_reordered.
  eapply holds_bind; [apply holds_delete_entry|]. intros _ _.
  eapply holds_bind; [apply holds_len|]. intros n _.
  destruct (if (index =? n) then _ else _) as [index' edge].
  eapply holds_bind with (Q := fun _ => True).
  - destruct edge; [apply holds_forget_neighbor|].
    eapply holds_bind; [apply holds_forget_neighbor|]. intros ? _.
    apply holds_forget_neighbor.
  - intros modified _.
    destruct modified; [apply holds__add_reordered_neighbors|by apply holds_ret].
Qed.

End no_entry.

Lemma add_no_entry key msg c :
  (forall x, x ∈ add_items (items c) msg ->
     is_Some (_received_timestamp (envelope x)) ->
     (Message.sender_num x, Message.timestamp x) <> key) ->
  _reordered_timestamps c !! key = None ->
  _reordered_timestamps (final_state (Chat.add msg c)) !! key = None.
Proof.
  intros Hkeys Hentry. unfold add_items in Hkeys.
  unfold Chat.add. unfold bind at 1. unfold try_except, bind at 1, Chat.getitem.
  rewrite getitem_last. destruct (last (items c)) as [msg_last|] eqn:Hlast; [|done].
  unfold ret at 1. unfold bind at 1.
  destruct (Message.__le__ msg_last msg) eqn:Hle.
  - unfold bind at 1, Chat.append, modify, ret.
    refine (proj2 (proj1 (holds__add_reordered_neighbors _ key Hkeys _ _ _))).
    by split.
  - unfold bind at 1, get. unfold bind at 1, Chat.insert, modify, ret.
    refine (proj2 (proj1 (holds__add_reordered_neighbors _ key Hkeys _ _ _))).
    by split.
Qed.

(** *** Lists after an update in place, a deletion and an insertion *)

Lemma sorted_of_lookup l :
  (forall i j x y, (i < j)%nat -> l !! i = Some x -> l !! j = Some y -> le_key x y) ->
  sorted l.
Proof.
  induction l as [|a l IH]; intros Hl; constructor.
  - apply IH. intros i j x y Hij Hx Hy. by apply (Hl (S i) (S j)); [lia|..].
  - apply Forall_forall. intros y [j Hy]%list_elem_of_lookup_1.
    by apply (Hl 0%nat (S j)); [lia|..].
Qed.

Lemma sorted_update l pos m1 :
  sorted l -> (pos < length l)%nat ->
  (forall a, (0 < pos)%nat -> l !! (pos - 1)%nat = Some a -> le_key a m1) ->
  (forall d, l !! S pos = Some d -> le_key m1 d) ->
  sorted (<[pos := m1]> l).
Proof.
  intros Hsorted Hpos Hprev Hnext. apply sorted_of_lookup.
  intros i j x y Hij Hx Hy.
  destruct (decide (i = pos)) as [->|Hi], (decide (j = pos)) as [->|Hj]; [lia|..].
  - rewrite list_lookup_insert_eq in Hx by done. injection Hx as <-.
    rewrite list_lookup_insert_ne in Hy by done.
    destruct (lookup_lt_is_Some_2 l (S pos)) as [d Hd];
      [apply lookup_lt_Some in Hy; lia|].
    pose proof (Hnext d Hd). pose proof (sorted_lookup l (S pos) j d y Hsorted ltac:(lia) Hd Hy).
    unfold le_key in *. lia.
  - rewrite list_lookup_insert_eq in Hy by done. injection Hy as <-.
    rewrite list_lookup_insert_ne in Hx by done.
    destruct (lookup_lt_is_Some_2 l (pos - 1)%nat) as [a Ha]; [lia|].
    pose proof (Hprev a ltac:(lia) Ha).
    pose proof (sorted_lookup l i (pos - 1)%nat x a Hsorted ltac:(lia) Hx Ha).
    unfold le_key in *. lia.
  - rewrite list_lookup_insert_ne in Hx, Hy by done.
    apply (sorted_lookup l i j x y Hsorted); [lia|done..].
Qed.

Lemma delitem_nat {A} (l : list A) (k : nat) :
  (k < length l)%nat -> Py.delitem l (Z.of_nat k) = Some (delete k l).
Proof.
  intros Hk. unfold Py.delitem.
  destruct (Z.ltb_spec (Z.of_nat k) 0); [lia|].
  destruct (Z.ltb_spec (Z.of_nat k) (Z.of_nat (length l))); [|lia].
  by rewrite Nat2Z.id.
Qed.

Lemma delete_insert_same {A} (l : list A) k x : delete k (<[k := x]> l) = delete k l.
Proof.
  rewrite !delete_take_drop. by rewrite take_insert_ge, drop_insert_lt by lia.
Qed.

Lemma elem_of_delete_lookup {A} (l : list A) k x :
  x ∈ delete k l -> exists j, j <> k /\ l !! j = Some x.
Proof.
  intros [j Hj]%list_elem_of_lookup_1. rewrite list_lookup_delete in Hj.
  destruct (decide (j < k)%nat); eexists; (split; [|exact Hj]); lia.
Qed.

Lemma lookup_insert_at_other {A} (l : list A) k y j x :
  j <> k -> (k <= length l)%nat ->
  list_insert_at l k y !! j = Some x -> x ∈ l.
Proof.
  intros Hj Hk. unfold list_insert_at.
  destruct (decide (j < k)%nat) as [Hlt|Hge].
  - rewrite lookup_app_l by (rewrite length_take; lia).
    rewrite lookup_take_lt by done. apply list_elem_of_lookup_2.
  - rewrite lookup_app_r by (rewrite length_take; lia).
    rewrite length_take, Nat.min_l by done.
    destruct (j - k)%nat as [|n] eqn:Hn; [lia|]. simpl.
    rewrite lookup_drop. apply list_elem_of_lookup_2.
Qed.

Lemma add_items_split l msg :
  exists k, (k <= length l)%nat /\ add_items l msg = list_insert_at l k msg.
Proof.
  unfold add_items. destruct (last l) as [msg_last|] eqn:Hlast.
  - destruct (Message.__le__ msg_last msg) eqn:Hle.
    + exists (length l). split; [done|].
      unfold list_insert_at. by rewrite take_ge, drop_ge by done.
    + exists (bisect_right Message.__lt__ l msg). split; [|done].
      pose proof (bisect_right_lt_length _ _ _ Hlast Hle). lia.
  - apply last_None in Hlast as ->. by exists 0%nat.
Qed.

Lemma delete_at msg (k : nat) c :
  (k < length (items c))%nat ->
  Chat.delete msg (Some (Z.of_nat k)) c
  = Chat._delete_from_reordered msg (Z.of_nat k)
      (Chat.set_items (fun _ => delete k (items c)) c).
Proof.
  intros Hk. unfold Chat.delete, bind, try_except, ret, Chat.delitem.
  by rewrite delitem_nat.
Qed.

Lemma set_timestamp_timestamp m t :
  Message.timestamp (Message.set_timestamp m t) = t.
Proof.
  unfold Message.timestamp, get_envelope_time. simpl. by destruct (t =? 0).
Qed.

(** *** [adjust_timestamp] *)

(** C6 (amended): a message [m] of a sorted store that carries no receiver
    timestamp is found, after a successful [adjust_timestamp] to [t'], by
    lookup under its sender and the adjusted timestamp [t'], provided [t']
    is not zero, no other message of the store has [t'] as ordering key or
    [(sender, t')] as identity, and [_reordered_timestamps] has no entry
    for [(sender, t')].  The store is sorted afterwards.  A lookup under the
    original timestamp never returns the position of [m]. *)
Theorem lookup_after_adjust_timestamp
    (c c' : Chat) (pos : nat) (m : Message) (t' : Z) (index_arg : option Z) :
  sorted (items c) ->
  items c !! pos = Some m ->
  _received_timestamp (envelope m) = None ->
  t' <> 0 ->
  (forall j x, j <> pos -> items c !! j = Some x ->
     Message.local_timestamp x <> t'
     /\ ~ (Message.sender_num x = Message.sender_num m /\ Message.timestamp x = t')) ->
  _reordered_timestamps c !! (Message.sender_num m, t') = None ->
  index_arg = None \/ index_arg = Some (Z.of_nat pos) ->
  Chat.adjust_timestamp pos t' index_arg c = Ok tt c' ->
  sorted (items c')
  /\ Chat.get_msg_for_timestamp t' (Some (Message.sender_num m)) c'
     = Ok (Message.set_timestamp m t') c'
  /\ (Message.timestamp m <> t' ->
      forall i c'',
        Chat.index_ts (Message.timestamp m) (Some (Message.sender_num m)) c' = Ok i c'' ->
        Py.getitem (items c') i <> Some (Message.set_timestamp m t')).
Proof.
  intros Hsorted Hm Hrecv Ht' Hothers Hentry Hidx Hrun.
  pose proof (set_timestamp_timestamp m t') as Hts1.
  assert (Hlt1 : Message.local_timestamp (Message.set_timestamp m t') = t').
  { unfold Message.local_timestamp. simpl. rewrite Hrecv. simpl. exact Hts1. }
  pose proof (lookup_lt_Some _ _ _ Hm) as Hlen.
  set (m1 := Message.set_timestamp m t') in *.
  set (key := (Message.sender_num m, t')) in *.
  assert (Hplaced : exists p,
    sorted (items c') /\ items c' !! p = Some m1
    /\ (forall j x, j <> p -> items c' !! j = Some x ->
          exists j', j' <> pos /\ items c !! j' = Some x)
    /\ _reordered_timestamps c' !! key = None).
  { unfold Chat.adjust_timestamp in Hrun. unfold bind at 1 in Hrun.
    rewrite Chat_getitem_nat, Hm in Hrun. cbv zeta in Hrun. fold m1 in Hrun.
    unfold bind at 1, modify in Hrun.
    set (c1 := Chat.set_items <[pos := m1]> c) in Hrun.
    assert (Hc1 : items c1 !! pos = Some m1) by (by apply list_lookup_insert_eq).
    assert (Hc1o : forall j, j <> pos -> items c1 !! j = items c !! j).
    { intros j Hj. by apply list_lookup_insert_ne. }
    assert (Hindex : forall i c1', Chat.index m1 c1 = Ok i c1' ->
                       i = Z.of_nat pos /\ c1' = c1).
    { intros i c1' Hi. apply index_sound in Hi as (-> & k & x & -> & Hk & Hx).
      split; [|done]. f_equal.
      destruct (decide (k = pos)) as [|Hne]; [done|exfalso].
      rewrite Hc1o in Hk by done.
      destruct (Hothers k x Hne Hk) as [_ Hid]. apply Hid.
      unfold Message.sender_num, Message.timestamp. rewrite Hx. by split. }
    unfold bind at 1 in Hrun.
    match type of Hrun with
    | match ?x with Ok _ _ => _ | Raised _ _ => _ end = _ =>
        destruct x as [i c1'|] eqn:Hi; [|done]
    end.
    assert (i = Z.of_nat pos /\ c1' = c1) as [-> ->].
    { destruct Hidx as [-> | ->]; [by apply Hindex|].
      destruct (Z.of_nat pos =? 0); [by apply Hindex|].
      unfold ret in Hi. by injection Hi as <- <-. }
    unfold bind at 1 in Hrun.
    destruct (_is_neighbd_monotonic_spec c1 pos m1 Hc1) as (b & Hb & Hbounds).
    rewrite Hb in Hrun. destruct b; simpl in Hrun.
    - injection Hrun as <-. exists pos.
      destruct (Hbounds eq_refl) as [Hprev Hnext].
      split; [|split; [done|split; [|done]]].
      + apply sorted_update; [done..| |].
        * intros a Hpos Ha. apply Hprev; [done|]. by rewrite Hc1o by lia.
        * intros d Hd. apply Hnext. by rewrite Hc1o by lia.
      + intros j x Hj Hx. exists j. by rewrite Hc1o in Hx.
    - unfold bind at 1 in Hrun.
      rewrite delete_at in Hrun by (simpl; rewrite length_insert; lia).
      simpl in Hrun. rewrite delete_insert_same in Hrun.
      set (c2 := Chat.set_items _ c1) in Hrun.
      assert (Hkeys2 : forall x, x ∈ delete pos (items c) ->
                is_Some (_received_timestamp (envelope x)) ->
                (Message.sender_num x, Message.timestamp x) <> key).
      { intros x (j & Hj & Hx)%elem_of_delete_lookup _ [= Hs Ht].
        destruct (Hothers j x Hj Hx) as [_ Hid]. by apply Hid. }
      destruct (holds__delete_from_reordered _ key Hkeys2 m1 (Z.of_nat pos) c2)
        as [[Hitems3 Hentry3] _]; [by split|].
      destruct (Chat._delete_from_reordered m1 (Z.of_nat pos) c2)
        as [[] c3|] eqn:Hdel; [|done].
      simpl in Hitems3, Hentry3.
      destruct (add_ok m1 c3) as [r Hadd]. rewrite Hadd in Hrun. injection Hrun as <-.
      destruct (add_items_split (items c3) m1) as (k & Hk & Hsplit).
      assert (Hentry' : _reordered_timestamps (final_state (Chat.add m1 c3)) !! key
                        = None).
      { apply add_no_entry; [|done]. rewrite Hsplit, Hitems3.
        intros x Hx Hsome. unfold list_insert_at in Hx.
        apply elem_of_app in Hx as [Hx|[->|Hx]%elem_of_cons].
        - apply Hkeys2; [|done]. apply elem_of_take in Hx as (j & Hx & _).
          by eapply list_elem_of_lookup_2.
        - unfold m1 in Hsome. simpl in Hsome. rewrite Hrecv in Hsome.
          by apply is_Some_None in Hsome.
        - apply Hkeys2; [|done]. apply elem_of_drop_lookup in Hx as (j & Hx & _).
          by eapply list_elem_of_lookup_2. }
      rewrite Hadd in Hentry'. simpl in Hentry'.
      exists k. cbn [items]. split; [|split; [|split; [|done]]].
      + apply add_items_sorted. rewrite Hitems3. by eapply sorted_delete.
      + rewrite Hsplit. unfold list_insert_at. apply list_lookup_middle.
        by rewrite length_take, Nat.min_l.
      + intros j x Hj Hx. rewrite Hsplit in Hx.
        apply lookup_insert_at_other in Hx; [|done..].
        rewrite Hitems3 in Hx. by apply elem_of_delete_lookup. }
  destruct Hplaced as (p & Hsorted' & Hp & Hrest & Hentry').
  split; [done|]. split.
  - unfold Chat.get_msg_for_timestamp, bind.
    assert (Hfind : Chat.index_ts t' (Some (Message.sender_num m)) c'
                    = Ok (Z.of_nat p) c').
    { rewrite <- Hts1.
      change (Message.sender_num m) with (Message.sender_num m1).
      apply index_ts_finds; [done..| | | | |].
      - intros j x Hj Hx. destruct (Hrest j x Hj Hx) as (j' & Hj' & Hx').
        rewrite Hlt1. by destruct (Hothers j' x Hj' Hx').
      - intros j x Hj Hx. destruct (Hrest j x Hj Hx) as (j' & Hj' & Hx').
        rewrite Hts1. by destruct (Hothers j' x Hj' Hx').
      - by rewrite Hlt1.
      - by rewrite Hts1.
      - by rewrite Hts1. }
    rewrite Hfind. by rewrite Chat_getitem_nat, Hp.
  - intros Hne i c'' Hi Hget.
    apply index_ts_sound in Hi as (_ & x & Hx & Hmatch).
    rewrite Hget in Hx. injection Hx as <-.
    unfold Chat.match_test in Hmatch. apply andb_true_iff in Hmatch as [Hts _].
    apply Z.eqb_eq in Hts. congruence.
Qed.

Lemma lookup_after_adjust_timestamp_witness :
  let m := example_message "M" 20 None in
  let c := store_of [example_message "A" 10 None; m; example_message "B" 30 None;
                     example_message "C" 40 None] in
  let c' := final_state (Chat.adjust_timestamp 1 35 (Some 1) c) in
  sorted (items c')
  /\ Chat.get_msg_for_timestamp 35 (Some "M") c' = Ok (Message.set_timestamp m 35) c'
  /\ (Message.timestamp m <> 35 ->
      forall i c'',
        Chat.index_ts (Message.timestamp m) (Some "M") c' = Ok i c'' ->
        Py.getitem (items c') i <> Some (Message.set_timestamp m 35)).
Proof.
  cbv zeta.
  apply (lookup_after_adjust_timestamp
           (store_of [example_message "A" 10 None; example_message "M" 20 None;
                      example_message "B" 30 None; example_message "C" 40 None])
           _ 1 (example_message "M" 20 None) 35 (Some 1)).
  - repeat constructor; unfold le_key; vm_compute; discriminate.
  - reflexivity.
  - reflexivity.
  - lia.
  - intros [|[|[|[|j]]]] x Hj Hx; try done; vm_compute in Hx;
      try discriminate; injection Hx as <-;
      (split; [vm_compute; discriminate|]);
      intros [_ Ht]; vm_compute in Ht; discriminate.
  - reflexivity.
  - by right.
  - vm_compute. reflexivity.
Defined.

(** After [adjust_timestamp], lookup under the original sender timestamp
    fails.  In the store below both [m] and [x] are found under their
    sender timestamps, and [_reordered_timestamps] maps [x]'s identity to
    its receiver timestamp 20, recorded because [m]'s ordering key 15 lies
    between 10 and 20.  Adjusting [m] from 15 to 17, or [x] from 10 to 12,
    stays between 10 and 20; afterwards lookup under the original
    timestamp raises [ValueError], and the message is found under the
    adjusted timestamp instead. *)
Lemma lookup_by_original_timestamp_fails_after_adjust :
  let m := example_message "M" 15 None in
  let x := example_message "X" 10 (Some 20) in
  let c := store_of [example_message "A" 5 None; m; x; example_message "Z" 30 None] in
  let c_m := final_state (Chat.adjust_timestamp 1 17 None c) in
  let c_x := final_state (Chat.adjust_timestamp 2 12 None c) in
  (items c !! 1%nat = Some m /\ items c !! 2%nat = Some x
   /\ _reordered_timestamps c !! ("X", 10) = Some 20
   /\ Chat.index_ts 15 (Some "M") c = Ok 1 c
   /\ Chat.index_ts 10 (Some "X") c = Ok 2 c)
  /\ (Chat.adjust_timestamp 1 17 None c = Ok tt c_m
      /\ Message.local_timestamp <$> items c_m = [5; 17; 20; 30]
      /\ Chat.index_ts 15 (Some "M") c_m = Raised ValueError c_m
      /\ Chat.index_ts 17 (Some "M") c_m = Ok 1 c_m)
  /\ (Chat.adjust_timestamp 2 12 None c = Ok tt c_x
      /\ Message.local_timestamp <$> items c_x = [5; 15; 20; 30]
      /\ _reordered_timestamps c_x !! ("X", 10) = Some 20
      /\ Chat.index_ts 10 (Some "X") c_x = Raised ValueError c_x
      /\ Chat.index_ts 12 (Some "X") c_x = Ok 2 c_x).
Proof. cbv zeta. repeat split; vm_compute; reflexivity. Qed.

End ChatLookupFacts.

(** ** More about the conversation store: lookup, insertion, deletion *)

Module ChatStoreFacts.
Import Py ChatFacts ChatMoreFacts ChatLookupFacts.
Local Open Scope Z_scope.

Lemma bisect_left_le_length {A B} (lt : A -> B -> bool) (a : list A) x :
  (bisect_left lt a x <= length a)%nat.
Proof.
  unfold bisect_left.
  pose proof (bisect_left_loop_spec lt (length a) a x 0 (length a)) as [Hr _]; lia.
Qed.

Lemma index_raises c msg e c' :
  Chat.index msg c = Raised e c' -> e = ValueError /\ c' = c.
Proof.
  unfold Chat.index, bind at 1, try_except, Chat.getitem. rewrite getitem_last.
  destruct (last (items c)) as [msg_last|]; [|by intros [= <- <-]].
  destruct (Message.__eq__ msg_last msg); [done|].
  unfold bind at 1, get.
  pose proof (bisect_left_le_length Message.__lt__ (items c) msg) as Hle.
  set (k := bisect_left Message.__lt__ (items c) msg) in *.
  destruct (bool_decide_reflect (k ≠ length (items c))) as [Hk|_];
    [|by intros [= <- <-]].
  unfold bind. rewrite getitem_nonneg, Nat2Z.id by lia.
  destruct (lookup_lt_is_Some_2 (items c) k) as [x ->]; [lia|].
  destruct (Message.__eq__ x msg); [done|]. by intros [= <- <-].
Qed.

(** X1: [Chat.index] either returns a position of the list that holds a message
    equal to [msg], or raises [ValueError]; the store is not changed.  On
    the empty store it raises. *)
Theorem index_returns_position_of_equal_message (msg : Message) (c : Chat) :
  match Chat.index msg c with
  | Ok i c' =>
      c' = c /\ exists (k : nat) x,
        i = Z.of_nat k /\ items c !! k = Some x /\ Message.__eq__ x msg = true
  | Raised e c' => e = ValueError /\ c' = c
  end
  /\ (items c = [] -> Chat.index msg c = Raised ValueError c).
Proof.
  split.
  - destruct (Chat.index msg c) as [i c'|e c'] eqn:Hi.
    + apply index_sound in Hi as (-> & k & x & -> & Hk & Hx).
      split; [done|]. exists k, x. split; [done|]. split; [done|].
      by apply bool_decide_eq_true_2.
    + by apply index_raises in Hi.
  - intros Hnil. unfold Chat.index, bind, try_except, Chat.getitem.
    by rewrite Hnil.
Qed.

Lemma index_ts_probe_total timestamp sender_num index inds c :
  (forall ind, ind ∈ inds -> - Z.of_nat (length (items c)) <= ind < Z.of_nat (length (items c))) ->
  exists r, Chat.index_ts_probe timestamp sender_num index inds c = Ok r c.
Proof.
  induction inds as [|ind inds IH]; intros Hinds; [by eexists|].
  cbn [Chat.index_ts_probe]. unfold bind, Chat.getitem.
  assert (Hind := Hinds ind ltac:(apply elem_of_cons; by left)).
  assert (is_Some (Py.getitem (items c) ind)) as [msg ->].
  { unfold Py.getitem. destruct (Z.ltb_spec ind 0).
    - destruct (Z.ltb_spec (ind + Z.of_nat (length (items c))) 0); [lia|].
      apply lookup_lt_is_Some_2. lia.
    - apply lookup_lt_is_Some_2. lia. }
  destruct (Chat.match_test _ _ msg); [by eexists|].
  destruct (_ && _); [by eexists|].
  apply IH. intros i Hi. apply Hinds. apply elem_of_cons. by right.
Qed.

Lemma index_ts_raises timestamp sender_num c e c' :
  Chat.index_ts timestamp sender_num c = Raised e c' ->
  (e = ValueError \/ e = TypeError) /\ c' = c.
Proof.
  unfold Chat.index_ts, bind at 1, try_except, Chat.getitem. rewrite getitem_last.
  destruct (last (items c)) as [msg_last|] eqn:Hlast;
    [|intros [= <- <-]; split; [by left|done]].
  destruct (Chat.match_test _ _ msg_last); [done|].
  unfold bind at 1, get.
  destruct (_ =? 0); [intros [= <- <-]; split; [by right|done]|].
  match goal with
  | |- context [bisect_left ?lt ?a ?x] =>
      pose proof (bisect_left_le_length lt a x) as Hle;
      set (k := bisect_left lt a x) in *
  end.
  destruct (bool_decide_reflect (k ≠ length (items c))) as [Hk|_];
    [|intros [= <- <-]; split; [by left|done]].
  unfold bind.
  destruct (index_ts_probe_total timestamp sender_num (Z.of_nat k)
              ([Z.of_nat k; Z.of_nat k - 1] ++ Chat.range (k + 1) (length (items c))) c)
    as [r ->].
  { intros ind [->|[->|Hind]%elem_of_cons]%elem_of_cons; [lia..|].
    unfold Chat.range in Hind. apply list_elem_of_fmap in Hind as (n & -> & Hn).
    apply elem_of_seq in Hn. lia. }
  destruct r; [done|]. intros [= <- <-]. split; [by left|done].
Qed.

(** X2: [Chat.index_ts] either returns a position that holds a message with
    the requested sender timestamp (and sender, when one is given), or
    raises [ValueError], or [TypeError] when the key it bisects with is
    zero; the store is not changed.  On the empty store it raises
    [ValueError]. *)
Theorem index_ts_returns_matching_message
    (timestamp : Z) (sender_num : option string) (c : Chat) :
  match Chat.index_ts timestamp sender_num c with
  | Ok i c' =>
      c' = c /\ exists x,
        Py.getitem (items c) i = Some x
        /\ Message.timestamp x = timestamp
        /\ (forall s, sender_num = Some s -> Message.sender_num x = s)
  | Raised e c' => (e = ValueError \/ e = TypeError) /\ c' = c
  end
  /\ (items c = [] -> Chat.index_ts timestamp sender_num c = Raised ValueError c).
Proof.
  split.
  - destruct (Chat.index_ts timestamp sender_num c) as [i c'|e c'] eqn:Hi.
    + apply index_ts_sound in Hi as (-> & x & Hx & Hmatch).
      split; [done|]. exists x. split; [done|].
      unfold Chat.match_test in Hmatch. apply andb_true_iff in Hmatch as [Hts Hs].
      split; [by apply Z.eqb_eq|]. intros s ->. by apply bool_decide_eq_true in Hs.
    + by apply index_ts_raises in Hi.
  - intros Hnil. unfold Chat.index_ts, bind, try_except, Chat.getitem.
    by rewrite Hnil.
Qed.

Lemma index_envelope_ext msg msg' c :
  envelope msg' = envelope msg -> Chat.index msg' c = Chat.index msg c.
Proof.
  intros Henv.
  assert (Heq : forall x, Message.__eq__ x msg' = Message.__eq__ x msg).
  { intros x. unfold Message.__eq__. by rewrite Henv. }
  assert (Hb : forall l, bisect_left Message.__lt__ l msg'
                         = bisect_left Message.__lt__ l msg).
  { intros l. unfold bisect_left. apply bisect_left_loop_ext. intros y.
    unfold Message.__lt__, Message.local_timestamp, Message.timestamp.
    by rewrite Henv. }
  unfold Chat.index, bind, get.
  destruct (try_except _ _ _ c) as [msg_last c0|]; [|done].
  rewrite Heq. destruct (Message.__eq__ msg_last msg); [done|].
  cbv beta iota zeta. rewrite Hb. destruct (bool_decide _); [|done].
  destruct (Chat.getitem _ c0); [|done]. by rewrite Heq.
Qed.

Lemma get_msg_for_envelope_unique_key (c : Chat) (p : nat) (m : Message) :
  sorted (items c) ->
  items c !! p = Some m ->
  (forall j x, j <> p -> items c !! j = Some x ->
     Message.local_timestamp x <> Message.local_timestamp m) ->
  Chat.get_index_for_envelope (envelope m) c = Ok (Z.of_nat p) c
  /\ Chat.get_msg_for_envelope (envelope m) c = Ok m c.
Proof.
  intros Hsorted Hp Hunique.
  assert (Hindex : Chat.get_index_for_envelope (envelope m) c = Ok (Z.of_nat p) c).
  { unfold Chat.get_index_for_envelope. cbv zeta.
    rewrite (index_envelope_ext m) by done.
    by apply (index_unique_key (items c) p m). }
  split; [done|].
  unfold Chat.get_msg_for_envelope, bind. rewrite Hindex.
  by rewrite Chat_getitem_nat, Hp.
Qed.

(** X3: in a sorted store, a message whose ordering key no other message
    shares is found from its envelope: [get_index_for_envelope] returns its
    position and [get_msg_for_envelope] the message itself. *)
Theorem get_msg_for_envelope_finds_message (c : Chat) (p : nat) (m : Message) :
  sorted (items c) ->
  items c !! p = Some m ->
  (forall j x, j <> p -> items c !! j = Some x ->
     Message.local_timestamp x <> Message.local_timestamp m) ->
  Chat.get_index_for_envelope (envelope m) c = Ok (Z.of_nat p) c
  /\ Chat.get_msg_for_envelope (envelope m) c = Ok m c.
Proof. apply get_msg_for_envelope_unique_key. Qed.

Lemma get_msg_for_envelope_finds_message_witness :
  let m := example_message "B" 20 (Some 25) in
  let c := store_of [example_message "A" 10 None; m; example_message "C" 30 None] in
  Chat.get_index_for_envelope (envelope m) c = Ok 1 c
  /\ Chat.get_msg_for_envelope (envelope m) c = Ok m c.
Proof.
  cbv zeta.
  apply (get_msg_for_envelope_finds_message
           (store_of [example_message "A" 10 None; example_message "B" 20 (Some 25);
                      example_message "C" 30 None])
           1 (example_message "B" 20 (Some 25))).
  - repeat constructor; unfold le_key; vm_compute; discriminate.
  - reflexivity.
  - intros [|[|[|j]]] x Hj Hx; try done; vm_compute in Hx;
      try discriminate; injection Hx as <-; vm_compute; discriminate.
Defined.

(** X4: in a sorted store, [index_ts] finds a message under its sender and
    sender timestamp when the key it bisects with (the entry of
    [_reordered_timestamps] for that identity, or else the sender
    timestamp) is the message's ordering key, and no other message shares
    that ordering key or that identity. *)
Theorem index_ts_finds_message_with_correction (c : Chat) (p : nat) (m : Message) :
  sorted (items c) ->
  items c !! p = Some m ->
  (forall j x, j <> p -> items c !! j = Some x ->
     Message.local_timestamp x <> Message.local_timestamp m) ->
  (forall j x, j <> p -> items c !! j = Some x ->
     ~ (Message.sender_num x = Message.sender_num m
        /\ Message.timestamp x = Message.timestamp m)) ->
  or_int (_reordered_timestamps c !! (Message.sender_num m, Message.timestamp m))
         (Message.timestamp m)
  = Message.local_timestamp m ->
  Message.local_timestamp m <> 0 ->
  Chat.index_ts (Message.timestamp m) (Some (Message.sender_num m)) c
  = Ok (Z.of_nat p) c
  /\ Chat.get_msg_for_timestamp (Message.timestamp m) (Some (Message.sender_num m)) c
     = Ok m c.
Proof.
  intros Hsorted Hp Hkeys Hident Hkey Hnz.
  assert (Hindex : Chat.index_ts (Message.timestamp m) (Some (Message.sender_num m)) c
                   = Ok (Z.of_nat p) c).
  { pose proof (lookup_lt_Some _ _ _ Hp) as Hlen.
    assert (Hmatch : Chat.match_test (Message.timestamp m)
                       (Some (Message.sender_num m)) m = true).
    { unfold Chat.match_test. rewrite Z.eqb_refl. by rewrite bool_decide_eq_true_2. }
    unfold Chat.index_ts, bind at 1, try_except, Chat.getitem. rewrite getitem_last.
    destruct (last (items c)) as [msg_last|] eqn:Hlast;
      [|apply last_None in Hlast; rewrite Hlast in Hlen; simpl in Hlen; lia].
    destruct (Chat.match_test _ _ msg_last) eqn:Hml.
    - unfold bind, Chat.len, ret. do 2 f_equal.
      rewrite last_lookup in Hlast.
      destruct (decide (Nat.pred (length (items c)) = p)) as [|Hne]; [lia|exfalso].
      apply (Hident _ _ Hne Hlast). unfold Chat.match_test in Hml.
      apply andb_true_iff in Hml as [Hts Hs].
      apply bool_decide_eq_true in Hs. split; [done|lia].
    - unfold bind at 1, get. rewrite Hkey.
      destruct (Z.eqb_spec (Message.local_timestamp m) 0) as [|_]; [done|].
      assert (Hbisect : bisect_left (fun (m0 : Message) (k : Z) =>
                           Message.local_timestamp m0 <? k) (items c)
                          (Message.local_timestamp m) = p).
      { rewrite <- (bisect_left_unique_key (items c) p m Hsorted Hp Hkeys).
        unfold bisect_left. by apply bisect_left_loop_ext. }
      rewrite Hbisect. rewrite bool_decide_eq_true_2 by lia.
      unfold bind at 1. cbn [app Chat.index_ts_probe].
      unfold bind at 1, Chat.getitem. rewrite getitem_nonneg, Nat2Z.id, Hp by lia.
      by rewrite Hmatch. }
  split; [done|].
  unfold Chat.get_msg_for_timestamp, bind. rewrite Hindex.
  by rewrite Chat_getitem_nat, Hp.
Qed.

Lemma index_ts_finds_message_with_correction_witness :
  let x := example_message "X" 10 (Some 20) in
  let c := store_of [example_message "A" 5 None; example_message "M" 15 None; x;
                     example_message "Z" 30 None] in
  Chat.index_ts 10 (Some "X") c = Ok 2 c
  /\ Chat.get_msg_for_timestamp 10 (Some "X") c = Ok x c.
Proof.
  cbv zeta.
  apply (index_ts_finds_message_with_correction
           (store_of [example_message "A" 5 None; example_message "M" 15 None;
                      example_message "X" 10 (Some 20); example_message "Z" 30 None])
           2 (example_message "X" 10 (Some 20))).
  - repeat constructor; unfold le_key; vm_compute; discriminate.
  - reflexivity.
  - intros [|[|[|[|j]]]] x Hj Hx; try done; vm_compute in Hx;
      try discriminate; injection Hx as <-; vm_compute; discriminate.
  - intros [|[|[|[|j]]]] x Hj Hx; try done; vm_compute in Hx;
      try discriminate; injection Hx as <-; intros [Hs _]; vm_compute in Hs;
      discriminate.
  - reflexivity.
  - vm_compute. discriminate.
Defined.

(** *** [add] *)

(** X5: [add] on a sorted store never raises; it puts the message behind every
    message whose ordering key is not later than its own and before every
    message with a later key, and leaves the other messages in their order,
    so the store stays sorted. *)
Theorem add_inserts_behind_messages_not_later (c : Chat) (msg : Message) :
  sorted (items c) ->
  exists (k : nat) r,
    Chat.add msg c
    = Ok tt {| items := take k (items c) ++ msg :: drop k (items c);
               _reordered_timestamps := r |}
    /\ (forall x, x ∈ take k (items c) ->
          Message.local_timestamp x <= Message.local_timestamp msg)
    /\ (forall x, x ∈ drop k (items c) ->
          Message.local_timestamp msg < Message.local_timestamp x)
    /\ sorted (take k (items c) ++ msg :: drop k (items c)).
Proof.
  intros Hsorted. destruct (add_ok msg c) as [r Hadd].
  pose proof (add_items_sorted _ msg Hsorted) as Hsorted'.
  unfold add_items in Hadd, Hsorted'.
  destruct (last (items c)) as [msg_last|] eqn:Hlast.
  - destruct (Message.__le__ msg_last msg) eqn:Hle.
    + exists (length (items c)), r. rewrite take_ge, drop_ge by done.
      split; [done|]. split; [|split; [|done]].
      * intros x [i Hi]%list_elem_of_lookup_1.
        rewrite last_lookup in Hlast.
        assert (le_key x msg_last).
        { apply (sorted_lookup (items c) i (Nat.pred (length (items c))) x msg_last
                   Hsorted); [|done..].
          apply lookup_lt_Some in Hi. lia. }
        unfold le_key, Message.__le__ in *. lia.
      * by intros x Hx%elem_of_nil.
    + set (p := bisect_right Message.__lt__ (items c) msg) in *.
      exists p, r. split; [done|].
      destruct (PyFacts.bisect_right_loop_spec Message.__lt__ (length (items c))
                  (items c) msg 0 (length (items c))) as (Hr & Hl & Hu); [lia..|].
      fold (bisect_right Message.__lt__ (items c) msg) in Hr, Hl, Hu. fold p in Hr, Hl, Hu.
      split; [|split; [|done]].
      * intros x (i & Hi & Hip)%elem_of_take.
        destruct (lookup_lt_is_Some_2 (items c) (p - 1)%nat) as [y Hy]; [lia|].
        assert (le_key x y)
          by (apply (sorted_lookup (items c) i (p - 1)%nat x y Hsorted); [lia|done..]).
        specialize (Hl y ltac:(lia) Hy).
        unfold le_key, Message.__lt__ in *. lia.
      * intros x (i & Hi & Hip)%elem_of_drop_lookup.
        assert (Hpl : (p < length (items c))%nat) by (apply lookup_lt_Some in Hi; lia).
        destruct (lookup_lt_is_Some_2 (items c) p) as [y Hy]; [lia|].
        assert (le_key y x)
          by (apply (sorted_lookup (items c) p i y x Hsorted); [lia|done..]).
        specialize (Hu y Hpl Hy).
        unfold le_key, Message.__lt__ in *. lia.
  - apply last_None in Hlast. exists 0%nat, r. rewrite Hlast in *.
    split; [done|]. split; [|split; [|done]]; by intros x Hx%elem_of_nil.
Qed.

Lemma add_inserts_behind_messages_not_later_witness :
  let c := store_of [example_message "A" 10 None; example_message "B" 20 None] in
  exists (k : nat) r,
    Chat.add (example_message "C" 10 None) c
    = Ok tt {| items := take k (items c) ++ example_message "C" 10 None :: drop k (items c);
               _reordered_timestamps := r |}
    /\ (forall x, x ∈ take k (items c) ->
          Message.local_timestamp x <= Message.local_timestamp (example_message "C" 10 None))
    /\ (forall x, x ∈ drop k (items c) ->
          Message.local_timestamp (example_message "C" 10 None) < Message.local_timestamp x)
    /\ sorted (take k (items c) ++ example_message "C" 10 None :: drop k (items c)).
Proof.
  cbv zeta.
  apply (add_inserts_behind_messages_not_later
           (store_of [example_message "A" 10 None; example_message "B" 20 None])
           (example_message "C" 10 None)).
  repeat constructor; unfold le_key; vm_compute; discriminate.
Defined.

(** X6: after [add] of a new message to a sorted store in which no message has
    the same ordering key, the message is found from its envelope. *)
Theorem add_then_lookup_by_envelope (c : Chat) (e : Envelope) :
  sorted (items c) ->
  (forall x, x ∈ items c ->
     Message.local_timestamp x <> Message.local_timestamp (Message.new e)) ->
  exists c',
    Chat.add (Message.new e) c = Ok tt c'
    /\ Chat.get_msg_for_envelope e c' = Ok (Message.new e) c'.
Proof.
  intros Hsorted Hnew. destruct (add_ok (Message.new e) c) as [r Hadd].
  eexists. split; [exact Hadd|].
  destruct (add_items_split (items c) (Message.new e)) as (k & Hk & Hsplit).
  apply (get_msg_for_envelope_unique_key _ k (Message.new e)); cbn [items].
  - by apply add_items_sorted.
  - rewrite Hsplit. unfold list_insert_at. apply list_lookup_middle.
    by rewrite length_take, Nat.min_l.
  - intros j x Hj Hx. rewrite Hsplit in Hx.
    apply lookup_insert_at_other in Hx; [|done..]. by apply Hnew.
Qed.

Lemma add_then_lookup_by_envelope_witness :
  let e := {| source := "B"; timestamp := 15; dataMessage_timestamp := 15;
              _received_timestamp := None; content := "hello" |} in
  let c := store_of [example_message "A" 10 None; example_message "C" 30 None] in
  exists c',
    Chat.add (Message.new e) c = Ok tt c'
    /\ Chat.get_msg_for_envelope e c' = Ok (Message.new e) c'.
Proof.
  cbv zeta.
  apply (add_then_lookup_by_envelope
           (store_of [example_message "A" 10 None; example_message "C" 30 None])).
  - repeat constructor; unfold le_key; vm_compute; discriminate.
  - intros x Hx. vm_compute in Hx.
    apply elem_of_cons in Hx as [->|Hx]; [vm_compute; discriminate|].
    apply list_elem_of_singleton in Hx as ->. vm_compute. discriminate.
Defined.

(** *** [delete] *)

Lemma delitem_Some {A} (l l' : list A) i :
  Py.delitem l i = Some l' ->
  exists (k : nat) x, l !! k = Some x /\ l' = delete k l /\ Py.getitem l i = Some x.
Proof.
  unfold Py.delitem, Py.getitem. destruct (Z.ltb_spec i 0).
  - destruct (Z.ltb_spec (i + Z.of_nat (length l)) 0); [done|]. intros [= <-].
    destruct (lookup_lt_is_Some_2 l (Z.to_nat (i + Z.of_nat (length l)))) as [x Hx];
      [lia|].
    by exists (Z.to_nat (i + Z.of_nat (length l))), x.
  - destruct (Z.ltb_spec i (Z.of_nat (length l))); [|done]. intros [= <-].
    destruct (lookup_lt_is_Some_2 l (Z.to_nat i)) as [x Hx]; [lia|].
    by exists (Z.to_nat i), x.
Qed.

Lemma sorted_delete_any l k : sorted l -> sorted (delete k l).
Proof.
  intros Hsorted. destruct (l !! k) as [x|] eqn:Hk.
  - by eapply sorted_delete.
  - apply lookup_ge_None in Hk.
    by rewrite delete_take_drop, take_ge, drop_ge, app_nil_r by lia.
Qed.

Lemma delete_inv (c c' : Chat) (msg : Message) (index_arg : option Z) :
  Chat.delete msg index_arg c = Ok tt c' ->
  exists i l',
    match index_arg with
    | None => Chat.index msg c = Ok i c
    | Some j => j = i
    end
    /\ Py.delitem (items c) i = Some l'
    /\ Chat._delete_from_reordered msg i (Chat.set_items (fun _ => l') c) = Ok tt c'.
Proof.
  intros Hrun. unfold Chat.delete, bind, try_except, ret, Chat.delitem in Hrun.
  destruct index_arg as [j|].
  - destruct (Py.delitem (items c) j) as [l'|] eqn:Hl'; [|done].
    by exists j, l'.
  - destruct (Chat.index msg c) as [i c0|e c0] eqn:Hi.
    + pose proof Hi as Hi'. apply index_sound in Hi' as [-> _].
      destruct (Py.delitem (items c) i) as [l'|] eqn:Hl'; [|done].
      by exists i, l'.
    + apply index_raises in Hi as [-> ->]. done.
Qed.

(** X7: a successful [delete] removes exactly one message from the list: with
    no index given, one equal to [msg]; with an index, the message at that
    index (counted from the end when negative).  A sorted store stays
    sorted. *)
Theorem delete_removes_one_message
    (c c' : Chat) (msg : Message) (index_arg : option Z) :
  Chat.delete msg index_arg c = Ok tt c' ->
  exists (k : nat) x,
    items c !! k = Some x
    /\ items c' = delete k (items c)
    /\ match index_arg with
       | None => Message.__eq__ x msg = true
       | Some i => Py.getitem (items c) i = Some x
       end
    /\ (sorted (items c) -> sorted (items c')).
Proof.
  intros (i & l' & Hindex & Hl' & Hrun)%delete_inv.
  apply delitem_Some in Hl' as (k & x & Hk & -> & Hx).
  pose proof (keeps__delete_from_reordered msg i
                (Chat.set_items (fun _ => delete k (items c)) c)) as Hkeep.
  rewrite Hrun in Hkeep. simpl in Hkeep.
  exists k, x. split; [done|]. split; [done|]. split.
  - destruct index_arg as [j|]; [by subst j|].
    apply index_sound in Hindex as (_ & k0 & x0 & -> & Hk0 & Hx0).
    rewrite getitem_nonneg, Nat2Z.id, Hk0 in Hx by lia. injection Hx as ->.
    by apply bool_decide_eq_true_2.
  - intros Hs. rewrite Hkeep. by apply sorted_delete_any.
Qed.

Lemma delete_removes_one_message_witness :
  let b := example_message "B" 20 None in
  let c := store_of [example_message "A" 10 None; b; example_message "C" 30 None] in
  exists (k : nat) x,
    items c !! k = Some x
    /\ items (final_state (Chat.delete b None c)) = delete k (items c)
    /\ Message.__eq__ x b = true
    /\ (sorted (items c) -> sorted (items (final_state (Chat.delete b None c)))).
Proof.
  cbv zeta.
  apply (delete_removes_one_message
           (store_of [example_message "A" 10 None; example_message "B" 20 None;
                      example_message "C" 30 None])
           _ (example_message "B" 20 None) None).
  vm_compute. reflexivity.
Defined.

(** X8: [delete] of a message that the store does not hold, or with an index
    outside the list, raises [ValueError] and leaves the store as it
    was. *)
Theorem delete_of_missing_message_raises_ValueError
    (c : Chat) (msg : Message) (index_arg : option Z) :
  (index_arg = None /\ forall x, x ∈ items c -> envelope x <> envelope msg)
  \/ (exists i, index_arg = Some i
        /\ (i < - Z.of_nat (length (items c)) \/ Z.of_nat (length (items c)) <= i)) ->
  Chat.delete msg index_arg c = Raised ValueError c.
Proof.
  intros [[-> Hmissing]|(i & -> & Hi)]; unfold Chat.delete, bind at 1, try_except.
  - unfold bind at 1. destruct (Chat.index msg c) as [i c0|e c0] eqn:Hindex.
    + apply index_sound in Hindex as (-> & k & x & -> & Hk & Hx).
      exfalso. apply (Hmissing x); [by eapply list_elem_of_lookup_2|done].
    + by apply index_raises in Hindex as [-> ->].
  - unfold bind, ret, Chat.delitem, Py.delitem.
    destruct (Z.ltb_spec i 0).
    + destruct (Z.ltb_spec (i + Z.of_nat (length (items c))) 0); [done|lia].
    + destruct (Z.ltb_spec i (Z.of_nat (length (items c)))); [lia|done].
Qed.

Lemma delete_of_missing_message_raises_ValueError_witness :
  let c := store_of [example_message "A" 10 None; example_message "C" 30 None] in
  Chat.delete (example_message "B" 20 None) None c = Raised ValueError c.
Proof.
  cbv zeta.
  apply (delete_of_missing_message_raises_ValueError
           (store_of [example_message "A" 10 None; example_message "C" 30 None])).
  left. split; [done|]. intros x Hx. vm_compute in Hx.
  apply elem_of_cons in Hx as [->|Hx]; [vm_compute; discriminate|].
  apply list_elem_of_singleton in Hx as ->. vm_compute. discriminate.
Defined.

(** *** [adjust_timestamp] *)

Lemma list_insert_at_Permutation {A} (l : list A) k x :
  list_insert_at l k x ≡ₚ x :: l.
Proof.
  unfold list_insert_at. rewrite <- Permutation_middle. by rewrite take_drop.
Qed.

Lemma insert_delete_Permutation {A} (l : list A) k x :
  (k < length l)%nat -> <[k := x]> l ≡ₚ x :: delete k l.
Proof.
  intros Hk. rewrite insert_take_drop by done.
  rewrite <- Permutation_middle. by rewrite delete_take_drop.
Qed.

(** X9: a successful [adjust_timestamp] leaves the store sorted: the message
    gets the new timestamp and, when it no longer fits between its
    neighbours, is moved; the other messages are kept.  The position of the
    message is either given (a non-zero index), or searched for, in which
    case no other message of the store may equal the adjusted message. *)
Theorem adjust_timestamp_keeps_store_sorted
    (c c' : Chat) (pos : nat) (m : Message) (t' : Z) (index_arg : option Z) :
  sorted (items c) ->
  items c !! pos = Some m ->
  (index_arg = Some (Z.of_nat pos) /\ pos <> 0%nat)
  \/ ((index_arg = None \/ index_arg = Some 0)
      /\ forall j x, j <> pos -> items c !! j = Some x ->
           envelope x <> envelope (Message.set_timestamp m t')) ->
  Chat.adjust_timestamp pos t' index_arg c = Ok tt c' ->
  sorted (items c')
  /\ items c' ≡ₚ <[pos := Message.set_timestamp m t']> (items c).
Proof.
  intros Hsorted Hm Hidx Hrun.
  pose proof (lookup_lt_Some _ _ _ Hm) as Hlen.
  set (m1 := Message.set_timestamp m t') in *.
  unfold Chat.adjust_timestamp in Hrun. unfold bind at 1 in Hrun.
  rewrite Chat_getitem_nat, Hm in Hrun. cbv zeta in Hrun. fold m1 in Hrun.
  unfold bind at 1, modify in Hrun.
  set (c1 := Chat.set_items <[pos := m1]> c) in Hrun.
  assert (Hc1 : items c1 !! pos = Some m1) by (by apply list_lookup_insert_eq).
  assert (Hc1o : forall j, j <> pos -> items c1 !! j = items c !! j).
  { intros j Hj. by apply list_lookup_insert_ne. }
  unfold bind at 1 in Hrun.
  match type of Hrun with
  | match ?x with Ok _ _ => _ | Raised _ _ => _ end = _ =>
      destruct x as [i c1'|] eqn:Hi; [|done]
  end.
  assert (i = Z.of_nat pos /\ c1' = c1) as [-> ->].
  { assert (Hindex : (forall j x, j <> pos -> items c !! j = Some x ->
                        envelope x <> envelope m1) ->
                     Chat.index m1 c1 = Ok i c1' -> i = Z.of_nat pos /\ c1' = c1).
    { intros Hothers Hi'. apply index_sound in Hi' as (-> & k & x & -> & Hk & Hx).
      split; [|done]. f_equal.
      destruct (decide (k = pos)) as [|Hne]; [done|exfalso].
      rewrite Hc1o in Hk by done. by apply (Hothers k x Hne Hk). }
    destruct Hidx as [[-> Hpos]|[[->| ->] Hothers]].
    - destruct (Z.eqb_spec (Z.of_nat pos) 0) as [|_]; [lia|].
      unfold ret in Hi. by injection Hi as <- <-.
    - by apply Hindex.
    - simpl in Hi. by apply Hindex. }
  unfold bind at 1 in Hrun.
  destruct (_is_neighbd_monotonic_spec c1 pos m1 Hc1) as (b & Hb & Hbounds).
  rewrite Hb in Hrun. destruct b; simpl in Hrun.
  - injection Hrun as <-. split; [|done].
    destruct (Hbounds eq_refl) as [Hprev Hnext].
    apply sorted_update; [done..| |].
    + intros a Hpos Ha. apply Hprev; [done|]. by rewrite Hc1o by lia.
    + intros d Hd. apply Hnext. by rewrite Hc1o by lia.
  - unfold bind at 1 in Hrun.
    rewrite delete_at in Hrun by (simpl; rewrite length_insert; lia).
    simpl in Hrun. rewrite delete_insert_same in Hrun.
    set (c2 := Chat.set_items _ c1) in Hrun.
    pose proof (keeps__delete_from_reordered m1 (Z.of_nat pos) c2) as Hkeep.
    destruct (Chat._delete_from_reordered m1 (Z.of_nat pos) c2)
      as [[] c3|] eqn:Hdel; [|done].
    simpl in Hkeep.
    destruct (add_ok m1 c3) as [r Hadd]. rewrite Hadd in Hrun. injection Hrun as <-.
    cbn [items]. rewrite Hkeep. split.
    + apply add_items_sorted. by eapply sorted_delete.
    + destruct (add_items_split (delete pos (items c)) m1) as (k & Hk & ->).
      rewrite list_insert_at_Permutation. by rewrite insert_delete_Permutation.
Qed.

Lemma adjust_timestamp_keeps_store_sorted_witness :
  let m := example_message "M" 20 None in
  let c := store_of [example_message "A" 10 None; m; example_message "B" 30 None;
                     example_message "C" 40 None] in
  let c' := final_state (Chat.adjust_timestamp 1 35 (Some 1) c) in
  sorted (items c') /\ items c' ≡ₚ <[1%nat := Message.set_timestamp m 35]> (items c).
Proof.
  cbv zeta.
  apply (adjust_timestamp_keeps_store_sorted
           (store_of [example_message "A" 10 None; example_message "M" 20 None;
                      example_message "B" 30 None; example_message "C" 40 None])
           _ 1 (example_message "M" 20 None) 35 (Some 1)).
  - repeat constructor; unfold le_key; vm_compute; discriminate.
  - reflexivity.
  - left. split; [reflexivity|lia].
  - vm_compute. reflexivity.
Defined.

(** *** What the entries of [_reordered_timestamps] refer to *)

Section reordered_invariant.
Variables (l : list Message) (P : gmap (string * Z) Z -> Prop).
Hypothesis P_delete : forall k m, P m -> P (delete k m).
Hypothesis P_insert : forall x r m,
  x ∈ l -> _received_timestamp (envelope x) = Some r -> P m ->
  P (<[(Message.sender_num x, Message.timestamp x) := r]> m).

Definition inv (c : Chat) : Prop := items c = l /\ P (_reordered_timestamps c).

(** [keeps_inv m Q]: [m] keeps the list and the property of the map, and
    its result satisfies [Q]. *)
Definition keeps_inv {A} (m : M Chat A) (Q : A -> Prop) : Prop :=
  forall c, inv c ->
    inv (final_state (m c)) /\ forall a c', m c = Ok a c' -> Q a.

Lemma keeps_inv_ret {A} (a : A) (Q : A -> Prop) : Q a -> keeps_inv (ret a) Q.
Proof. intros Ha c Hc. split; [done|]. by intros a' c' [= <- <-]. Qed.

Lemma keeps_inv_raise {A} e (Q : A -> Prop) : keeps_inv (raise e) Q.
Proof. intros c Hc. by split. Qed.

Lemma keeps_inv_get : keeps_inv get (fun _ => True).
Proof. intros c Hc. by split. Qed.

Lemma keeps_inv_len : keeps_inv Chat.len (fun _ => True).
Proof. intros c Hc. by split. Qed.

Lemma keeps_inv_getitem i : keeps_inv (Chat.getitem i) (fun x => x ∈ l).
Proof.
  intros c Hc. unfold Chat.getitem.
  destruct (Py.getitem (items c) i) as [x|] eqn:Hx; (split; [done|]); [|done].
  intros a c' [= <- <-]. destruct Hc as [<- _]. by eapply getitem_elem_of.
Qed.

Lemma keeps_inv_bind {A B} (m : M Chat A) (k : A -> M Chat B) Q R :
  keeps_inv m Q -> (forall a, Q a -> keeps_inv (k a) R) -> keeps_inv (bind m k) R.
Proof.
  intros Hm Hk c Hc. unfold bind. destruct (Hm c Hc) as [Hc' HQ].
  destruct (m c) as [a c'|e c']; simpl in *; [|by split].
  apply (Hk a); [by eapply HQ|done].
Qed.

Lemma keeps_inv_try_except {A} (m : M Chat A) caught h Q :
  keeps_inv m Q -> (forall e, keeps_inv (h e) Q) -> keeps_inv (try_except m caught h) Q.
Proof.
  intros Hm Hh c Hc. unfold try_except. destruct (Hm c Hc) as [Hc' HQ].
  destruct (m c) as [a c'|e c']; simpl in *.
  - split; [done|]. intros a' c'' [= <- <-]. by eapply HQ.
  - destruct (caught e); [by apply Hh|by split].
Qed.

Lemma keeps_inv_for_each {A} (xs : list A) body :
  (forall x, x ∈ xs -> keeps_inv (body x) (fun _ => True)) ->
  keeps_inv (Chat.for_each xs body) (fun _ => True).
Proof.
  induction xs as [|x xs IH]; intros Hbody; simpl; [by apply keeps_inv_ret|].
  eapply keeps_inv_bind; [apply Hbody; apply elem_of_cons; by left|].
  intros _ _. apply IH. intros y Hy. apply Hbody. apply elem_of_cons. by right.
Qed.

Lemma keeps_inv_delete_entry k :
  keeps_inv (modify (Chat.set_reordered (delete k))) (fun _ => True).
Proof. intros c [Hl Hc]. split; [|done]. split; [done|]. by apply P_delete. Qed.

Lemma keeps_inv_reorder_pair a b tlr :
  a ∈ l -> b ∈ l -> keeps_inv (Chat.reorder_pair (a, b) tlr) (fun _ => True).
Proof.
  intros Ha Hb. unfold Chat.reorder_pair.
  assert (Hpair : forall local received, received ∈ l ->
    keeps_inv (match _received_timestamp (envelope received) with
               | None => ret tt
               | Some received_ts =>
                   let original_ts := Message.timestamp received in
                   let '(left_, right_) :=
                     if tlr then (original_ts, received_ts)
                     else (received_ts, original_ts) in
                   if ((left_ <=? Message.local_timestamp local)
                       && (Message.local_timestamp local <=? right_))%bool
                   then modify (Chat.set_reordered
                                  <[(Message.sender_num received, original_ts)
                                    := received_ts]>)
                   else ret tt
               end) (fun _ => True)).
  { intros local received Hreceived.
    destruct (_received_timestamp (envelope received)) as [received_ts|] eqn:Hrecv;
      [|by apply keeps_inv_ret].
    cbv zeta. destruct (if tlr then _ else _) as [left_ right_].
    destruct (_ && _); [|by apply keeps_inv_ret].
    intros c [Hl Hc]. split; [|done]. split; [done|]. by apply P_insert. }
  destruct tlr; simpl; by apply Hpair.
Qed.

Lemma keeps_inv__add_reordered_neighbors index :
  keeps_inv (Chat._add_reordered_neighbors index) (fun _ => True).
Proof.
  unfold Chat._add_reordered_neighbors.
  apply keeps_inv_bind with (Q := fun pairs : list (Message * Message) =>
                                    forall pp, pp ∈ pairs -> pp.1 ∈ l /\ pp.2 ∈ l).
  - destruct (index =? -1); [|destruct (index =? 0)].
    + eapply keeps_inv_bind; [apply keeps_inv_getitem|]. intros a Ha.
      eapply keeps_inv_bind; [apply keeps_inv_getitem|]. intros b Hb.
      apply keeps_inv_ret. intros pp ->%list_elem_of_singleton. done.
    + eapply keeps_inv_bind; [apply keeps_inv_getitem|]. intros a Ha.
      eapply keeps_inv_bind; [apply keeps_inv_getitem|]. intros b Hb.
      apply keeps_inv_ret. intros pp ->%list_elem_of_singleton. done.
    + eapply keeps_inv_bind; [apply keeps_inv_getitem|]. intros a Ha.
      eapply keeps_inv_bind; [apply keeps_inv_getitem|]. intros b Hb.
      eapply keeps_inv_bind; [apply keeps_inv_getitem|]. intros b' Hb'.
      eapply keeps_inv_bind; [apply keeps_inv_getitem|]. intros d Hd.
      apply keeps_inv_ret.
      intros pp [-> | ->%list_elem_of_singleton]%elem_of_cons; done.
  - intros pairs Hpairs. apply keeps_inv_for_each. intros [a b] Hpp.
    destruct (Hpairs _ Hpp) as [Ha Hb]. apply keeps_inv_for_each. intros tlr _.
    by apply keeps_inv_reorder_pair.
Qed.

Lemma keeps_inv_forget_neighbor index ioffset modified :
  keeps_inv (Chat.forget_neighbor index ioffset modified) (fun _ => True).
Proof.
  unfold Chat.forget_neighbor.
  apply keeps_inv_try_except; [|intros e; by apply keeps_inv_ret].
  eapply keeps_inv_bind; [apply keeps_inv_getitem|]. intros neighb _.
  eapply keeps_inv_bind; [apply keeps_inv_get|]. intros c _.
  destruct (_reordered_timestamps c !! _); [|apply keeps_inv_raise].
  eapply keeps_inv_bind; [apply keeps_inv_delete_entry|]. intros _ _.
  by apply keeps_inv_ret.
Qed.

Lemma keeps_inv__delete_from_reordered msg index :
  keeps_inv (Chat._delete_from_reordered msg index) (fun _ => True).
Proof.
  unfold Chat._delete_from_reordered.
  eapply keeps_inv_bind; [apply keeps_inv_delete_entry|]. intros _ _.
  eapply keeps_inv_bind; [apply keeps_inv_len|]. intros n _.
  destruct (if (index =? n) then _ else _) as [index' edge].
  eapply keeps_inv_bind with (Q := fun _ => True).
  - destruct edge; [apply keeps_inv_forget_neighbor|].
    eapply keeps_inv_bind; [apply keeps_inv_forget_neighbor|]. intros ? _.
    apply keeps_inv_forget_neighbor.
  - intros modified _.
    destruct modified; [apply keeps_inv__add_reordered_neighbors|by apply keeps_inv_ret].
Qed.

End reordered_invariant.











End ChatStoreFacts.

(** ** More about the delivery-status tracker *)

Module DeliveryStatusMoreFacts.
Import Py DeliveryStatus DeliveryStatusFacts ReplayFacts ReplayTracker.

#[local] Instance field_eq_dec : EqDecision field.
Proof. solve_decision. Defined.

(** *** The status of a sent message after receipts *)

(** The receipt kind [on_receive_receipt] reads from an envelope:
    [isDelivery] is tested before [isRead]. *)
Definition is_kind (f : field) (envelope : Receipt) : bool :=
  match f with
  | f_delivered => isDelivery envelope
  | f_read => negb (isDelivery envelope) && isRead envelope
  end.

(** The contacts that sent a receipt of kind [f] naming [timestamp]. *)
Definition receipt_senders (f : field) (timestamp : Z) (envs : list Receipt)
    : gset string :=
  list_to_set (receipt_source <$>
    filter (fun envelope => is_kind f envelope = true
                            /\ timestamp ∈ timestamps envelope) envs).

Lemma kind_of_is_kind f envelope :
  kind_of envelope = Some f <-> is_kind f envelope = true.
Proof.
  unfold kind_of, is_kind.
  destruct f, (isDelivery envelope), (isRead envelope); simpl; split; congruence.
Qed.

Lemma contacts_of_repeated f f' contact (l : list Z) :
  contacts_of f ((fun _ => (contact, f')) <$> l)
  = if decide (f = f' /\ l <> []) then {[contact]} else ∅.
Proof.
  induction l as [|ts l IH]; [by destruct (decide _) as [[_ ?]|]|].
  rewrite fmap_cons, contacts_of_cons, IH.
  destruct (decide (f = f' /\ ts :: l <> [])) as [[<- _]|Hne].
  - destruct (decide _); destruct f; cbn [add_contact]; set_solver.
  - assert (f <> f') by (intros ->; by apply Hne).
    rewrite decide_False by (by intros [? _]).
    destruct f, f'; cbn [add_contact]; try done; set_solver.
Qed.

Lemma contacts_of_named f timestamp envs :
  contacts_of f (named timestamp envs) = receipt_senders f timestamp envs.
Proof.
  unfold receipt_senders. induction envs as [|envelope envs IH]; [done|].
  cbn [named]. rewrite filter_cons.
  assert (Hfilter : filter (fun ts => ts = timestamp) (timestamps envelope) <> []
                    <-> timestamp ∈ timestamps envelope).
  { split.
    - intros Hne.
      destruct (filter (fun ts => ts = timestamp) (timestamps envelope))
        as [|ts l] eqn:Hl; [done|].
      assert (Hts : ts ∈ filter (fun ts => ts = timestamp) (timestamps envelope))
        by (rewrite Hl; apply elem_of_cons; by left).
      by apply list_elem_of_filter in Hts as [-> Hts].
    - intros Hin Hnil.
      assert (timestamp ∈ filter (fun ts => ts = timestamp) (timestamps envelope))
        as Hin' by (by apply list_elem_of_filter).
      rewrite Hnil in Hin'. by apply elem_of_nil in Hin'. }
  destruct (kind_of envelope) as [f'|] eqn:Hkind.
  - rewrite contacts_of_app, contacts_of_repeated, IH.
    apply kind_of_is_kind in Hkind.
    destruct (decide (is_kind f envelope = true /\ timestamp ∈ timestamps envelope))
      as [[Hk Hin]|Hno].
    + assert (f = f') as <-.
      { destruct f, f'; try done; unfold is_kind in *;
          destruct (isDelivery envelope); done. }
      rewrite decide_True by (split; [done|by apply Hfilter]).
      rewrite fmap_cons, list_to_set_cons. done.
    + rewrite decide_False; [set_solver|].
      intros [<- Hne]. apply Hno. split; [done|by apply Hfilter].
  - rewrite IH. rewrite decide_False; [done|].
    intros [Hk _]. apply kind_of_is_kind in Hk. congruence.
Qed.

(** The entry of a message after it was sent and receipts came in. *)
Lemma core_after_receipts envelope group_members envs self :
  _status_map self !! get_envelope_time envelope = None ->
  exists self',
    ((on_sending_message envelope group_members ;;;
      on_sending_done envelope st_sent None) ;;;
     for_each envs on_receive_receipt) self = Ok tt self'
    /\ core_of (entry_of self' (get_envelope_time envelope))
       = core_after (core_of (registered group_members st_sent))
           (receipt_senders f_delivered (get_envelope_time envelope) envs)
           (receipt_senders f_read (get_envelope_time envelope) envs).
Proof.
  intros HT.
  destruct (registration envelope group_members st_sent self HT) as (s1 & Hrun1 & HT1 & _).
  destruct (receive_all_tracked (get_envelope_time envelope) envs s1 _ HT1)
    as (s2 & d2 & Hrun2 & HT2 & Hcore).
  exists s2. split.
  - unfold bind at 1. by rewrite Hrun1.
  - rewrite entry_of_lookup, HT2, Hcore.
    rewrite foldl_recv_contacts_of by apply registered_wf.
    by rewrite !contacts_of_named.
Qed.

(** X11: a message sent to a group of at most [MAX_GROUP_SIZE] members shows
    [read] once every member has sent a read receipt, [delivered] once
    every member has sent a delivery or a read receipt, and [sent]
    otherwise, whatever the order and the number of the receipts. *)
Theorem group_status_counts_every_member
    (envelope : Envelope) (members : gset string) (envs : list Receipt) (self : t) :
  _status_map self !! get_envelope_time envelope = None ->
  members <> ∅ ->
  (size members <= MAX_GROUP_SIZE)%nat ->
  exists self',
    ((on_sending_message envelope (Some members) ;;;
      on_sending_done envelope st_sent None) ;;;
     for_each envs on_receive_receipt) self = Ok tt self'
    /\ get_str (get_envelope_time envelope) self'
       = Ok (if decide (members ⊆ receipt_senders f_read (get_envelope_time envelope) envs)
             then st_read
             else if decide (members ⊆
                               receipt_senders f_delivered (get_envelope_time envelope) envs
                               ∪ receipt_senders f_read (get_envelope_time envelope) envs)
             then st_delivered
             else st_sent) self'.
Proof.
  intros HT Hne Hsize.
  destruct (core_after_receipts envelope (Some members) envs self HT)
    as (self' & Hrun & Hcore).
  exists self'. split; [done|].
  set (Del := receipt_senders f_delivered _ envs) in *.
  set (Rd := receipt_senders f_read _ envs) in *.
  assert (Hstr : str (entry_of self' (get_envelope_time envelope))
                 = (core_of (entry_of self' (get_envelope_time envelope))).1) by done.
  unfold get_str, bind, get_detailed, ret. f_equal.
  rewrite <- entry_of_lookup, Hstr, Hcore.
  assert (Hreg : core_of (registered (Some members) st_sent)
                 = (st_sent, Some {| delivered := members; read := ∅ |})).
  { unfold registered. cbv zeta.
    destruct (Nat.ltb_spec MAX_GROUP_SIZE (size members)) as [|_]; [lia|].
    reflexivity. }
  rewrite Hreg. unfold core_after, reached, pending_after.
  cbn [fst snd delivered read]. reach_step.
  rewrite (bool_decide_eq_false_2 (members = ∅)) by done.
  cbn [andb negb]. rewrite !andb_true_r.
  destruct (decide (members ⊆ Rd)) as [HRd|HRd].
  - rewrite (bool_decide_eq_true_2 (members ∖ (Del ∪ Rd) = ∅)) by set_solver.
    by rewrite (bool_decide_eq_true_2 ((∅ ∪ members ∩ Del) ∖ Rd = ∅)) by set_solver.
  - destruct (decide (members ⊆ Del ∪ Rd)) as [HDel|HDel].
    + rewrite (bool_decide_eq_true_2 (members ∖ (Del ∪ Rd) = ∅)) by set_solver.
      assert ((∅ ∪ members ∩ Del) ∖ Rd <> ∅) as Hread.
      { intros Hempty. apply HRd. intros x Hx.
        destruct (decide (x ∈ Rd)); [done|]. set_solver. }
      by rewrite (bool_decide_eq_false_2 _ Hread).
    + assert (members ∖ (Del ∪ Rd) <> ∅) as Hdel.
      { intros Hempty. apply HDel. intros x Hx.
        destruct (decide (x ∈ Del ∪ Rd)); [done|]. set_solver. }
      by rewrite (bool_decide_eq_false_2 _ Hdel).
Qed.

Definition example_envelope (ts : Z) : Envelope :=
  {| source := "me"; timestamp := ts; dataMessage_timestamp := ts;
     _received_timestamp := None; content := "" |}.

Definition example_receipt (sender : string) (delivery : bool) (ts : Z) : Receipt :=
  {| receipt_source := sender; isDelivery := delivery; isRead := negb delivery;
     isViewed := false; timestamps := [ts]; receipt_when := (ts + 1)%Z |}.

Lemma group_status_counts_every_member_witness :
  exists self',
    ((on_sending_message (example_envelope 100) (Some {["a"; "b"]}) ;;;
      on_sending_done (example_envelope 100) st_sent None) ;;;
     for_each [example_receipt "b" false 100; example_receipt "a" true 100]
       on_receive_receipt) new = Ok tt self'
    /\ get_str 100 self'
       = Ok (if decide ({["a"; "b"]} ⊆ receipt_senders f_read 100
                          [example_receipt "b" false 100; example_receipt "a" true 100])
             then st_read
             else if decide ({["a"; "b"]} ⊆
                               receipt_senders f_delivered 100
                                 [example_receipt "b" false 100;
                                  example_receipt "a" true 100]
                               ∪ receipt_senders f_read 100
                                   [example_receipt "b" false 100;
                                    example_receipt "a" true 100])
             then st_delivered
             else st_sent) self'.
Proof.
  apply (group_status_counts_every_member (example_envelope 100) {["a"; "b"]}
           [example_receipt "b" false 100; example_receipt "a" true 100] new).
  - reflexivity.
  - set_solver.
  - vm_compute. lia.
Defined.

(** X12: a message sent to one contact shows [read] as soon as a read receipt
    naming it has come in, [delivered] after a delivery receipt only, and
    [sent] without receipts. *)
Theorem direct_status_follows_receipts
    (envelope : Envelope) (envs : list Receipt) (self : t) :
  _status_map self !! get_envelope_time envelope = None ->
  exists self',
    ((on_sending_message envelope None ;;;
      on_sending_done envelope st_sent None) ;;;
     for_each envs on_receive_receipt) self = Ok tt self'
    /\ get_str (get_envelope_time envelope) self'
       = Ok (if decide (receipt_senders f_read (get_envelope_time envelope) envs = ∅)
             then if decide (receipt_senders f_delivered
                               (get_envelope_time envelope) envs = ∅)
                  then st_sent else st_delivered
             else st_read) self'.
Proof.
  intros HT.
  destruct (core_after_receipts envelope None envs self HT) as (self' & Hrun & Hcore).
  exists self'. split; [done|].
  set (Del := receipt_senders f_delivered _ envs) in *.
  set (Rd := receipt_senders f_read _ envs) in *.
  assert (Hstr : str (entry_of self' (get_envelope_time envelope))
                 = (core_of (entry_of self' (get_envelope_time envelope))).1) by done.
  unfold get_str, bind, get_detailed, ret. f_equal.
  rewrite <- entry_of_lookup, Hstr, Hcore.
  change (core_of (registered None st_sent)) with (st_sent, @None DelivReadConts).
  unfold core_after, nongroup_after. cbn [fst snd]. reach_step.
  rewrite !andb_true_r.
  destruct (decide (Rd = ∅)) as [HRd|HRd].
  - rewrite (bool_decide_eq_true_2 _ HRd). cbn [negb].
    destruct (decide (Del = ∅)) as [HDel|HDel].
    + by rewrite (bool_decide_eq_true_2 _ HDel).
    + by rewrite (bool_decide_eq_false_2 _ HDel).
  - by rewrite (bool_decide_eq_false_2 _ HRd).
Qed.

Lemma direct_status_follows_receipts_witness :
  exists self',
    ((on_sending_message (example_envelope 100) None ;;;
      on_sending_done (example_envelope 100) st_sent None) ;;;
     for_each [example_receipt "a" true 100] on_receive_receipt) new = Ok tt self'
    /\ get_str 100 self'
       = Ok (if decide (receipt_senders f_read 100 [example_receipt "a" true 100] = ∅)
             then if decide (receipt_senders f_delivered 100
                               [example_receipt "a" true 100] = ∅)
                  then st_sent else st_delivered
             else st_read) self'.
Proof.
  apply (direct_status_follows_receipts (example_envelope 100)
           [example_receipt "a" true 100] new).
  reflexivity.
Defined.

(** X13: a message sent to a group of more than [MAX_GROUP_SIZE] members shows
    [ignore_receipts], and no receipt changes that. *)
Theorem large_group_ignores_receipts
    (envelope : Envelope) (members : gset string) (envs : list Receipt) (self : t) :
  _status_map self !! get_envelope_time envelope = None ->
  (MAX_GROUP_SIZE < size members)%nat ->
  exists self',
    ((on_sending_message envelope (Some members) ;;;
      on_sending_done envelope st_sent None) ;;;
     for_each envs on_receive_receipt) self = Ok tt self'
    /\ get_str (get_envelope_time envelope) self' = Ok st_ignore_receipts self'.
Proof.
  intros HT Hsize.
  destruct (core_after_receipts envelope (Some members) envs self HT)
    as (self' & Hrun & Hcore).
  exists self'. split; [done|].
  assert (Hstr : str (entry_of self' (get_envelope_time envelope))
                 = (core_of (entry_of self' (get_envelope_time envelope))).1) by done.
  unfold get_str, bind, get_detailed, ret. f_equal.
  rewrite <- entry_of_lookup, Hstr, Hcore.
  assert (Hreg : core_of (registered (Some members) st_sent)
                 = (st_ignore_receipts, None)).
  { unfold registered. cbv zeta.
    destruct (Nat.ltb_spec MAX_GROUP_SIZE (size members)) as [_|]; [|lia].
    reflexivity. }
  rewrite Hreg. unfold core_after, nongroup_after. cbn [fst snd]. reach_step.
  by rewrite !andb_false_r.
Qed.

Lemma large_group_ignores_receipts_witness :
  exists self',
    ((on_sending_message (example_envelope 100)
        (Some (list_to_set ["a"; "b"; "c"; "d"; "e"; "f"; "g"; "h"; "i"; "j"; "k";
                            "l"; "m"; "n"; "o"; "p"])) ;;;
      on_sending_done (example_envelope 100) st_sent None) ;;;
     for_each [example_receipt "a" false 100] on_receive_receipt) new = Ok tt self'
    /\ get_str 100 self' = Ok st_ignore_receipts self'.
Proof.
  apply (large_group_ignores_receipts (example_envelope 100)
           (list_to_set ["a"; "b"; "c"; "d"; "e"; "f"; "g"; "h"; "i"; "j"; "k";
                         "l"; "m"; "n"; "o"; "p"])
           [example_receipt "a" false 100] new).
  - reflexivity.
  - vm_compute. lia.
Defined.

(** *** Sending a message *)

(** X14: for a message whose timestamp is not tracked yet: when the send
    succeeds with an adjusted timestamp, the entry (status [sent]) is moved
    to the adjusted timestamp; when it fails, the entry stays under the
    original timestamp with status [send_failed].  In both cases the status
    callback is called under the original timestamp, for [sending] and then
    for the result. *)
Theorem sending_done_records_result (envelope : Envelope) (adj : Z) (self : t) :
  _status_map self !! get_envelope_time envelope = None ->
  (on_sending_message envelope None ;;;
   on_sending_done envelope st_sent (Some adj)) self
  = Ok tt {| _status_map :=
               <[adj := {| str := st_sent; when := 0; grp_memb_remain_un := None |}]>
                 (_status_map self);
             _buffered := _buffered self;
             status_changed :=
               (get_envelope_time envelope, st_sent)
               :: (get_envelope_time envelope, st_sending) :: status_changed self |}
  /\ (on_sending_message envelope None ;;;
      on_sending_done envelope st_send_failed (Some adj)) self
     = Ok tt {| _status_map :=
                  <[get_envelope_time envelope :=
                      {| str := st_send_failed; when := 0; grp_memb_remain_un := None |}]>
                    (_status_map self);
                _buffered := _buffered self;
                status_changed :=
                  (get_envelope_time envelope, st_send_failed)
                  :: (get_envelope_time envelope, st_sending) :: status_changed self |}.
Proof.
  set (T := get_envelope_time envelope). intros HT.
  unfold on_sending_message, on_sending_done. fold T.
  assert (Hfirst : (_set T st_sending None None ;;; ret tt) self
                   = Ok tt (store_entry self T
                              {| str := st_sending; when := 0; grp_memb_remain_un := None |}
                              (Some st_sending))).
  { unfold bind. rewrite _set_unfold, entry_of_lookup, HT. reflexivity. }
  set (d1 := {| str := st_sending; when := 0; grp_memb_remain_un := None |}) in *.
  set (s1 := store_entry self T d1 (Some st_sending)) in *.
  assert (Hs1 : _status_map s1 !! T = Some d1) by apply lookup_insert_eq.
  assert (Hsecond : forall status,
            (_status_order st_sending < _status_order status)%nat ->
            _set T status None None s1
            = Ok tt (store_entry s1 T
                       {| str := status; when := 0; grp_memb_remain_un := None |}
                       (Some status))).
  { intros status Hlt. rewrite _set_unfold, entry_of_lookup, Hs1.
    unfold entry_set. cbn [str d1 grp_memb_remain_un when].
    destruct (Nat.leb_spec (_status_order status) (_status_order st_sending)); [lia|].
    done. }
  split.
  - unfold bind at 1. rewrite Hfirst. unfold bind at 1, get. rewrite Hs1.
    unfold bind at 1. rewrite Hsecond by (vm_compute; lia).
    rewrite bool_decide_eq_false_2 by done. unfold s1.
    unfold _adjust_timestamp, bind, get, modify, set_status_map, store_entry.
    cbn [_status_map _buffered status_changed].
    rewrite lookup_insert_eq. do 2 f_equal. cbn [_status_map].
    by rewrite insert_insert_eq, delete_insert_eq, delete_id.
  - unfold bind at 1. rewrite Hfirst. unfold bind at 1, get. rewrite Hs1.
    unfold bind at 1. rewrite Hsecond by (vm_compute; lia).
    rewrite bool_decide_eq_true_2 by done. unfold s1.
    unfold ret, store_entry. cbn [_status_map _buffered status_changed].
    do 2 f_equal. by rewrite insert_insert_eq.
Qed.

Lemma sending_done_records_result_witness :
  (on_sending_message (example_envelope 100) None ;;;
   on_sending_done (example_envelope 100) st_sent (Some 105%Z)) new
  = Ok tt {| _status_map :=
               <[105%Z := {| str := st_sent; when := 0; grp_memb_remain_un := None |}]> ∅;
             _buffered := ∅;
             status_changed := [(100%Z, st_sent); (100%Z, st_sending)] |}
  /\ (on_sending_message (example_envelope 100) None ;;;
      on_sending_done (example_envelope 100) st_send_failed (Some 105%Z)) new
     = Ok tt {| _status_map :=
                  <[100%Z := {| str := st_send_failed; when := 0;
                                grp_memb_remain_un := None |}]> ∅;
                _buffered := ∅;
                status_changed := [(100%Z, st_send_failed); (100%Z, st_sending)] |}.
Proof.
  apply (sending_done_records_result (example_envelope 100) 105 new).
  reflexivity.
Defined.

(** *** Buffered receipts are consumed once *)

Lemma set_each_keeps_buffer timestamp f cs self :
  exists self',
    for_each cs (fun contact => _set timestamp (status_of_field f) None (Some contact))
      self = Ok tt self'
    /\ _buffered self' = _buffered self.
Proof.
  revert self. induction cs as [|contact cs IH]; intros self; [by exists self|].
  destruct (_set_receipt_unfold timestamp f None contact self) as (r & d & Hrun & _).
  destruct (IH (store_entry self timestamp d r)) as (s' & Hrest & Hbuf).
  exists s'. cbn [for_each]. by rewrite (bind_Ok _ _ _ _ _ Hrun).
Qed.

(** X15: [process_buffered_receipts] never raises, whatever the order in which
    the buffered sets are visited; it removes the buffer of the timestamp
    and no other, and calling it again changes nothing. *)
Theorem process_buffered_receipts_consumes_buffer
    (set_iter : gset string -> list string) (timestamp : Z) (self : t) :
  exists self',
    process_buffered_receipts set_iter timestamp self = Ok tt self'
    /\ _buffered self' = base.delete timestamp (_buffered self)
    /\ process_buffered_receipts set_iter timestamp self' = Ok tt self'.
Proof.
  unfold process_buffered_receipts at 1. unfold bind at 1, get.
  destruct (_buffered self !! timestamp) as [buffered|] eqn:Hb.
  - cbn [for_each field_of_status].
    destruct (set_each_keeps_buffer timestamp f_delivered
                (set_iter (get_field f_delivered buffered)) self) as (s1 & Hrun1 & Hb1).
    destruct (set_each_keeps_buffer timestamp f_read
                (set_iter (get_field f_read buffered)) s1) as (s2 & Hrun2 & Hb2).
    cbn [status_of_field] in Hrun1, Hrun2.
    exists (set_buffered (base.delete timestamp) s2).
    unfold bind. rewrite Hrun1, Hrun2. unfold ret, modify.
    split; [done|]. split.
    + cbn. by rewrite Hb2, Hb1.
    + unfold process_buffered_receipts, get. cbn. by rewrite lookup_delete_eq.
  - exists self. split; [done|]. split; [by rewrite delete_id|].
    unfold process_buffered_receipts, bind, get. by rewrite Hb.
Qed.

(** *** [dump] and [load] *)

Lemma serialize_nil d : serialize d = [] -> d = DetailedStatus_new.
Proof.
  destruct d as [status w [g|]]; [done|].
  unfold serialize. cbn.
  destruct (Z.eqb_spec w 0) as [->|]; [|done].
  by destruct status.
Qed.

Lemma nonempty_or_empty (X : gset string) : (if nonempty X then X else ∅) = X.
Proof.
  unfold nonempty. destruct (bool_decide_reflect (X ≠ ∅)) as [|Hempty]; [done|].
  by apply dec_stable in Hempty.
Qed.

Lemma DetailedStatus_init_serialize d :
  serialize d <> [] -> DetailedStatus_init (serialize d) = Some d.
Proof.
  destruct d as [status w [[D R]|]].
  - intros _.
    change (serialize {| str := status; when := w;
                         grp_memb_remain_un := Some {| delivered := D; read := R |} |})
      with [v_str status; v_when w; v_grp (Some {| delivered := D; read := R |})].
    unfold DetailedStatus_init. cbn [delivered read].
    by rewrite !nonempty_or_empty.
  - unfold serialize. cbn.
    destruct (Z.eqb_spec w 0) as [->|]; [|done].
    by destruct status.
Qed.

Lemma load_loop (l : list (Z * list slot_value)) (self : t) :
  NoDup l.*1 ->
  (forall timestamp sd, (timestamp, sd) ∈ l -> is_Some (DetailedStatus_init sd)) ->
  exists self',
    for_each l (fun '(timestamp, status_detailed) =>
      match DetailedStatus_init status_detailed with
      | Some d => modify (set_status_map <[timestamp := d]>)
      | None => raise TypeError
      end) self = Ok tt self'
    /\ _buffered self' = _buffered self
    /\ status_changed self' = status_changed self
    /\ forall timestamp,
         _status_map self' !! timestamp
         = match (list_to_map l : gmap Z (list slot_value)) !! timestamp with
           | Some sd => DetailedStatus_init sd
           | None => _status_map self !! timestamp
           end.
Proof.
  revert self. induction l as [|[ts sd] l IH]; intros self Hnodup Hinit.
  - exists self. split; [done|]. split; [done|]. split; [done|]. intros ts.
    change (list_to_map [] : gmap Z (list slot_value)) with (∅ : gmap Z (list slot_value)).
    by rewrite lookup_empty.
  - apply NoDup_cons in Hnodup as [Hts Hnodup].
    destruct (Hinit ts sd) as [d Hd]; [apply elem_of_cons; by left|].
    destruct (IH (set_status_map <[ts := d]> self) Hnodup) as (s' & Hrun & Hb & Hc & Hmap).
    { intros ts' sd' Hin. apply (Hinit ts' sd'). apply elem_of_cons. by right. }
    exists s'. cbn [for_each]. unfold bind at 1. rewrite Hd. unfold modify.
    split; [done|]. split; [done|]. split; [done|].
    intros ts'. rewrite Hmap. cbn [list_to_map foldr fst snd].
    destruct (decide (ts = ts')) as [<-|Hne].
    + rewrite lookup_insert_eq.
      assert ((list_to_map l : gmap Z (list slot_value)) !! ts = None) as ->
        by (by apply not_elem_of_list_to_map_1).
      cbn. by rewrite lookup_insert_eq.
    + rewrite lookup_insert_ne by done.
      destruct (list_to_map l !! ts'); [done|]. cbn. by rewrite lookup_insert_ne.
Qed.

(** X16: loading a dump into a fresh tracker gives a tracker in which
    [get_detailed] returns for every timestamp what it returned in the
    dumped tracker: the entries that [dump] leaves out are those equal to
    the default entry. *)
Theorem load_of_dump_restores_entries (self : t) :
  exists self',
    load (dump self) new = Ok tt self'
    /\ forall timestamp d,
         get_detailed timestamp self = Ok d self ->
         get_detailed timestamp self' = Ok d self'.
Proof.
  assert (Hdump : forall timestamp sd,
            dump self !! timestamp = Some sd ->
            exists d, _status_map self !! timestamp = Some d
                      /\ serialize d = sd /\ sd <> []).
  { intros ts sd Hsd. unfold dump in Hsd. apply lookup_omap_Some in Hsd as (d & Hs & Hd).
    exists d. split; [done|]. destruct (serialize d) as [|v sd']; [done|].
    by injection Hs as <-. }
  destruct (load_loop (map_to_list (dump self)) new) as (self' & Hrun & _ & _ & Hmap).
  { apply NoDup_fst_map_to_list. }
  { intros ts sd Hin%elem_of_map_to_list.
    destruct (Hdump ts sd Hin) as (d & _ & <- & Hne).
    rewrite DetailedStatus_init_serialize by done. by eexists. }
  exists self'. split; [done|].
  intros ts d. unfold get_detailed. intros [= <-]. f_equal.
  rewrite Hmap, list_to_map_to_list.
  destruct (dump self !! ts) as [sd|] eqn:Hsd.
  - destruct (Hdump ts sd Hsd) as (d & -> & <- & Hne).
    by rewrite DetailedStatus_init_serialize.
  - unfold new. cbn [_status_map]. rewrite lookup_empty.
    destruct (_status_map self !! ts) as [d|] eqn:Hd; [|done].
    unfold dump in Hsd. rewrite lookup_omap, Hd in Hsd. cbn in Hsd.
    destruct (serialize d) eqn:Hser; [|done]. by apply serialize_nil in Hser.
Qed.

End DeliveryStatusMoreFacts.

(** ** Unread counts *)

Module UnreadCountsFacts.
Import Py UnreadCounts.
Local Open Scope Z_scope.

Lemma total_insert (self : gmap string Z) contact_id count :
  self !! contact_id = None ->
  total (<[contact_id := count]> self) = total self + count.
Proof.
  intros Hnone. unfold total.
  rewrite map_fold_insert_L; [done| |done].
  intros. cbv beta. lia.
Qed.

Lemma total_insert_any (self : gmap string Z) contact_id count :
  total (<[contact_id := count]> self)
  = total self - default 0 (self !! contact_id) + count.
Proof.
  destruct (self !! contact_id) as [old|] eqn:Hold; cbn [default]; unfold id.
  - assert (Hself : total self = total (delete contact_id self) + old).
    { rewrite <- (insert_delete_id self contact_id old) at 1 by done.
      by rewrite total_insert by apply lookup_delete_eq. }
    rewrite <- (insert_delete_eq self).
    rewrite total_insert by apply lookup_delete_eq. lia.
  - rewrite total_insert by done. lia.
Qed.

Lemma total_serialize (self : gmap string Z) : total (serialize self) = total self.
Proof.
  unfold serialize. induction self as [|contact_id count self Hnone IH] using map_ind.
  - by rewrite map_filter_empty.
  - rewrite map_filter_insert. cbn [snd].
    destruct (decide (count ≠ 0)) as [Hcount|Hcount].
    + rewrite !total_insert; [by rewrite IH|done|].
      by apply map_lookup_filter_None_2; left.
    + apply dec_stable in Hcount as ->.
      rewrite delete_id by done. rewrite total_insert by done. rewrite IH. lia.
Qed.

(** X17: [serialize] keeps the non-zero counts and only those, so the total of
    the serialized counts is the total of the counts. *)
Theorem serialize_drops_zero_counts_only (self : gmap string Z) :
  (forall contact_id count,
     serialize self !! contact_id = Some count
     <-> self !! contact_id = Some count /\ count <> 0)
  /\ total (serialize self) = total self.
Proof.
  split; [|apply total_serialize].
  intros contact_id count. unfold serialize.
  by rewrite map_lookup_filter_Some.
Qed.

(** X18: reading the count of a contact returns [0] for a contact without
    count, and changes neither the total nor the serialized counts;
    incrementing a count adds one to the total. *)
Theorem reading_and_incrementing_counts (self : gmap string Z) (contact_id : string) :
  (exists self',
     getitem contact_id self = Ok (default 0 (self !! contact_id)) self'
     /\ total self' = total self
     /\ serialize self' = serialize self)
  /\ (exists self',
        increment contact_id self = Ok tt self'
        /\ self' !! contact_id = Some (default 0 (self !! contact_id) + 1)
        /\ total self' = total self + 1).
Proof.
  split.
  - unfold getitem. destruct (self !! contact_id) as [count|] eqn:Hc.
    + exists self. repeat split; reflexivity.
    + eexists. split; [reflexivity|]. split.
      * rewrite total_insert by done. lia.
      * unfold serialize. apply map_filter_insert_not'.
        -- intros Hne. by apply Hne.
        -- intros y Hy. congruence.
  - unfold increment, bind, getitem, setitem, modify.
    destruct (self !! contact_id) as [count|] eqn:Hc; cbn [default]; unfold id.
    + eexists. split; [reflexivity|]. split; [apply lookup_insert_eq|].
      rewrite total_insert_any, Hc. cbn [default]. unfold id. lia.
    + eexists. split; [reflexivity|]. split; [apply lookup_insert_eq|].
      rewrite insert_insert_eq, total_insert by done. lia.
Qed.

End UnreadCountsFacts.

(** ** [intersperse] *)

Module IntersperseFacts.

Lemma flat_map_pairs_lookup {A} (value : A) (it : list A) :
  length (flat_map (fun item => [value; item]) it) = (2 * length it)%nat
  /\ (forall i, flat_map (fun item => [value; item]) it !! (2 * i + 1)%nat = it !! i)
  /\ (forall i, (i < length it)%nat ->
        flat_map (fun item => [value; item]) it !! (2 * i)%nat = Some value).
Proof.
  induction it as [|item it (IHlen & IHodd & IHeven)].
  { split; [done|]. split; intros i; [by rewrite !lookup_nil|simpl; lia]. }
  cbn [flat_map app length]. split; [lia|]. split.
  - intros [|i]; [done|].
    replace (2 * S i + 1)%nat with (S (S (2 * i + 1))) by lia. apply IHodd.
  - intros [|i] Hi; [done|].
    replace (2 * S i)%nat with (S (S (2 * i))) by lia. apply IHeven. lia.
Qed.

(** X19: [intersperse(value, container)] yields the items of the container in
    order, with [value] between each two of them and nowhere else; an
    empty container yields nothing. *)
Theorem intersperse_puts_value_between_items {A} (value : A) (container : list A) :
  length (intersperse value container) = (2 * length container - 1)%nat
  /\ (forall i, intersperse value container !! (2 * i)%nat = container !! i)
  /\ (forall i, (S i < length container)%nat ->
        intersperse value container !! (2 * i + 1)%nat = Some value).
Proof.
  destruct container as [|first it].
  { split; [done|]. split; intros i; [by rewrite !lookup_nil|simpl; lia]. }
  destruct (flat_map_pairs_lookup value it) as (Hlen & Hodd & Heven).
  cbn [intersperse length]. split; [lia|]. split.
  - intros [|i]; [done|].
    replace (2 * S i)%nat with (S (2 * i + 1)) by lia. apply Hodd.
  - intros i Hi. replace (2 * i + 1)%nat with (S (2 * i)) by lia.
    apply Heven. lia.
Qed.

End IntersperseFacts.

(** ** The history of commands *)

Module CommandsHistoryFacts.
Import Py ChatFacts CommandsHistory.
Local Open Scope Z_scope.

(** The history [h] with the index [k] places before the end. *)
Definition at_place (h : list string) (k : nat) (stashed : option string) : t :=
  {| _history := h; _index := - Z.of_nat k; _stashed_input := stashed |}.

Lemma getitem_from_end {A} (h : list A) (k : nat) :
  (1 <= k <= length h)%nat ->
  Py.getitem h (- Z.of_nat k) = h !! (length h - k)%nat.
Proof.
  intros Hk. rewrite getitem_neg by lia. f_equal. lia.
Qed.

Lemma getitem_before_start {A} (h : list A) (k : nat) :
  (length h < k)%nat -> Py.getitem h (- Z.of_nat k) = None.
Proof.
  intros Hk. unfold Py.getitem.
  destruct (Z.ltb_spec (- Z.of_nat k) 0); [|lia].
  destruct (Z.ltb_spec (- Z.of_nat k + Z.of_nat (length h)) 0); [done|lia].
Qed.

Lemma prev_step h k stashed x :
  (k = 0%nat \/ Py.getitem h (- Z.of_nat k) = Some x) ->
  (k <= length h)%nat ->
  prev x (at_place h k stashed)
  = match Py.getitem h (- Z.of_nat (S k)) with
    | Some cmd =>
        Ok cmd (at_place h (S k) (if decide (k = 0%nat) then Some x else stashed))
    | None =>
        Ok x (at_place h k (if decide (k = 0%nat) then Some x else stashed))
    end.
Proof.
  intros Hx Hk.
  unfold prev, bind, get, history_at_index, set_index, set_stashed_input, modify,
    try_except, ret.
  cbn [_history _index _stashed_input at_place].
  match goal with
  | |- match ?scrut with _ => _ end = _ =>
      assert (Hphase : exists b : bool,
                scrut = Ok b (at_place h k stashed) /\ (b = true -> k = 0%nat))
  end.
  { destruct (_ && _) eqn:Hcond; [|by exists false].
    cbn [_history _index at_place].
    destruct Hx as [->|Hx].
    - apply andb_true_iff in Hcond as [_ Hh].
      destruct h as [|cmd h]; [done|]. by eexists.
    - rewrite Hx. exists false. split; [|done].
      by rewrite bool_decide_eq_false_2 by (by intros ?). }
  destruct Hphase as (b & -> & Hb).
  replace (- Z.of_nat (S k)) with (- Z.of_nat k - 1) by lia.
  assert (Hstep : forall stashed',
            match
              match Py.getitem h (- Z.of_nat k - 1) with
              | Some cmd =>
                  Ok cmd {| _history := h; _index := - Z.of_nat k - 1;
                            _stashed_input := stashed' |}
              | None =>
                  Raised IndexError {| _history := h; _index := - Z.of_nat k - 1;
                                       _stashed_input := stashed' |}
              end
            with
            | Ok a2 s'2 => Ok a2 s'2
            | Raised e s'2 =>
                if bool_decide (e = IndexError)
                then Ok x {| _history := _history s'2; _index := _index s'2 + 1;
                             _stashed_input := _stashed_input s'2 |}
                else Raised e s'2
            end
            = match Py.getitem h (- Z.of_nat k - 1) with
              | Some cmd => Ok cmd (at_place h (S k) stashed')
              | None => Ok x (at_place h k stashed')
              end).
  { intros stashed'. unfold at_place.
    destruct (Py.getitem h (- Z.of_nat k - 1)).
    - do 2 f_equal. lia.
    - cbn. do 2 f_equal. lia. }
  destruct b.
  - pose proof (Hb eq_refl) as ->.
    cbn [at_place _history _index _stashed_input Z.of_nat Z.opp Z.eqb].
    rewrite decide_True by done. exact (Hstep (Some x)).
  - cbn [at_place _history _index _stashed_input].
    destruct k as [|k'].
    + cbn [Z.of_nat Z.opp Z.eqb _history _index _stashed_input].
      rewrite decide_True by done. exact (Hstep (Some x)).
    + destruct (Z.eqb_spec (- Z.of_nat (S k')) 0) as [|_]; [lia|].
      rewrite decide_False by done. exact (Hstep stashed).
Qed.

(** Pressing the key for the previous command [presses] times in a row,
    each time on the input the last press gave. *)
Fixpoint prev_times (presses : nat) (curr_input : string) : M t string :=
  match presses with
  | O => ret curr_input
  | S presses' => cmd <- prev curr_input ;; prev_times presses' cmd
  end.

(** The same for the next command; a [None] input stays [None]. *)
Fixpoint next_times (presses : nat) (curr_input : option string)
    : M t (option string) :=
  match presses, curr_input with
  | S presses', Some input => cmd <- next input ;; next_times presses' cmd
  | _, _ => ret curr_input
  end.

Lemma prev_times_walk h stashed presses (k : nat) x :
  (1 <= k <= length h)%nat ->
  h !! (length h - k)%nat = Some x ->
  exists cmd,
    prev_times presses x (at_place h k stashed)
    = Ok cmd (at_place h (Nat.min (k + presses) (length h)) stashed)
    /\ h !! (length h - Nat.min (k + presses) (length h))%nat = Some cmd.
Proof.
  revert k x. induction presses as [|presses IH]; intros k x Hk Hx.
  - exists x. rewrite Nat.add_0_r, Nat.min_l by lia. done.
  - cbn [prev_times]. unfold bind.
    rewrite prev_step; [|right; by rewrite getitem_from_end|lia].
    rewrite decide_False by lia.
    destruct (decide (k < length h)%nat) as [Hlt|Hge].
    + rewrite getitem_from_end by lia.
      destruct (lookup_lt_is_Some_2 h (length h - S k)%nat) as [cmd Hcmd]; [lia|].
      rewrite Hcmd. destruct (IH (S k) cmd ltac:(lia) Hcmd) as (cmd' & Hrun & Hcmd').
      exists cmd'. replace (k + S presses)%nat with (S k + presses)%nat by lia. done.
    + rewrite getitem_before_start by lia.
      destruct (IH k x Hk Hx) as (cmd' & Hrun & Hcmd').
      exists cmd'. rewrite Hrun.
      by rewrite !(Nat.min_r _ (length h)) in * by lia.
Qed.

(** X20: from the newest position of a history that is not empty, pressing the
    key for the previous command [presses] times shows the command
    [presses] places before the end, and the oldest command when there are
    not that many; the input that was being typed is stashed. *)
Theorem prev_walks_back_through_history
    (h : list string) (stashed : option string) (presses : nat) (x : string) :
  h <> [] -> (1 <= presses)%nat ->
  exists cmd,
    prev_times presses x
      {| _history := h; _index := 0; _stashed_input := stashed |}
    = Ok cmd {| _history := h;
                _index := - Z.of_nat (Nat.min presses (length h));
                _stashed_input := Some x |}
    /\ h !! (length h - Nat.min presses (length h))%nat = Some cmd.
Proof.
  intros Hh Hpresses. destruct presses as [|presses]; [lia|].
  assert (1 <= length h)%nat by (destruct h; [done|simpl; lia]).
  cbn [prev_times]. unfold bind.
  change {| _history := h; _index := 0; _stashed_input := stashed |}
    with (at_place h 0 stashed).
  rewrite prev_step; [|by left|lia]. rewrite decide_True by done.
  rewrite getitem_from_end by lia.
  destruct (lookup_lt_is_Some_2 h (length h - 1)%nat) as [cmd Hcmd]; [lia|].
  rewrite Hcmd.
  destruct (prev_times_walk h (Some x) presses 1 cmd ltac:(lia) Hcmd)
    as (cmd' & Hrun & Hcmd').
  exists cmd'. by rewrite Hrun.
Qed.

Lemma prev_walks_back_through_history_witness :
  exists cmd,
    prev_times 2 "typed"
      {| _history := ["one"; "two"; "three"]; _index := 0; _stashed_input := None |}
    = Ok cmd {| _history := ["one"; "two"; "three"];
                _index := - Z.of_nat (Nat.min 2 (length ["one"; "two"; "three"]));
                _stashed_input := Some "typed" |}
    /\ ["one"; "two"; "three"]
         !! (length ["one"; "two"; "three"]
             - Nat.min 2 (length ["one"; "two"; "three"]))%nat = Some cmd.
Proof.
  apply (prev_walks_back_through_history ["one"; "two"; "three"] None 2 "typed");
    [done|lia].
Defined.

Lemma next_step h k stashed x :
  (k <= length h)%nat ->
  next x (at_place h k stashed)
  = match k with
    | O => Ok (Some x) (at_place h 0 stashed)
    | S O => Ok stashed (at_place h 0 stashed)
    | S k' =>
        match h !! (length h - k')%nat with
        | Some cmd => Ok (Some cmd) (at_place h k' stashed)
        | None => Raised IndexError (at_place h k' stashed)
        end
    end.
Proof.
  intros Hk. unfold next, bind, get, set_index, modify, history_at_index, ret, at_place.
  cbn [_history _index _stashed_input].
  destruct k as [|[|k'']]; [done..|].
  destruct (Z.eqb_spec (- Z.of_nat (S (S k''))) 0) as [|_]; [lia|].
  cbn [_history _index _stashed_input].
  destruct (Z.eqb_spec (- Z.of_nat (S (S k'')) + 1) 0) as [|_]; [lia|].
  replace (- Z.of_nat (S (S k'')) + 1) with (- Z.of_nat (S k'')) by lia.
  cbn [_history _index _stashed_input].
  rewrite getitem_from_end by lia.
  by destruct (h !! _).
Qed.

Lemma next_times_at_newest h stashed downs input :
  next_times downs input (at_place h 0 stashed) = Ok input (at_place h 0 stashed).
Proof.
  revert input. induction downs as [|downs IH]; intros [x|]; try done.
  cbn [next_times]. unfold bind. by rewrite next_step by lia.
Qed.

Lemma next_times_walk h x downs (k : nat) cmd :
  (1 <= k <= length h)%nat -> (k <= downs)%nat ->
  next_times downs (Some cmd) (at_place h k (Some x))
  = Ok (Some x) (at_place h 0 (Some x)).
Proof.
  revert k cmd. induction downs as [|downs IH]; intros k cmd Hk Hdowns; [lia|].
  cbn [next_times]. unfold bind. rewrite next_step by lia.
  destruct k as [|[|k'']]; [lia|apply next_times_at_newest|].
  destruct (lookup_lt_is_Some_2 h (length h - S k'')%nat) as [cmd' ->]; [lia|].
  apply IH; lia.
Qed.

(** X21: after walking back through the history, pressing the key for the next
    command as many times (or more) brings back the input that was being
    typed, at the newest position. *)
Theorem next_brings_back_typed_input
    (h : list string) (stashed : option string) (presses downs : nat) (x : string) :
  h <> [] -> (1 <= presses)%nat -> (Nat.min presses (length h) <= downs)%nat ->
  (cmd <- prev_times presses x ;; next_times downs (Some cmd))
    {| _history := h; _index := 0; _stashed_input := stashed |}
  = Ok (Some x) {| _history := h; _index := 0; _stashed_input := Some x |}.
Proof.
  intros Hh Hpresses Hdowns.
  assert (1 <= length h)%nat by (destruct h; [done|simpl; lia]).
  destruct presses as [|presses]; [lia|].
  unfold bind at 1. cbn [prev_times]. unfold bind at 1.
  change {| _history := h; _index := 0; _stashed_input := stashed |}
    with (at_place h 0 stashed).
  rewrite prev_step; [|by left|lia]. rewrite decide_True by done.
  rewrite getitem_from_end by lia.
  destruct (lookup_lt_is_Some_2 h (length h - 1)%nat) as [cmd Hcmd]; [lia|].
  rewrite Hcmd.
  destruct (prev_times_walk h (Some x) presses 1 cmd ltac:(lia) Hcmd)
    as (cmd' & -> & Hcmd').
  apply next_times_walk; lia.
Qed.

Lemma next_brings_back_typed_input_witness :
  (cmd <- prev_times 2 "typed" ;; next_times 2 (Some cmd))
    {| _history := ["one"; "two"; "three"]; _index := 0; _stashed_input := None |}
  = Ok (Some "typed")
       {| _history := ["one"; "two"; "three"]; _index := 0;
          _stashed_input := Some "typed" |}.
Proof.
  apply (next_brings_back_typed_input ["one"; "two"; "three"] None 2 2 "typed");
    [done|lia|simpl; lia].
Defined.

(** X22: when the input was edited after a walk through the history (it is
    neither the stashed input nor the command at the current position),
    the key for the previous command starts again from the newest
    command. *)
Theorem prev_restarts_after_edit
    (h : list string) (k : nat) (stashed : option string) (x cmd : string) :
  (1 <= k <= length h)%nat ->
  Some x <> stashed ->
  h !! (length h - k)%nat <> Some x ->
  last h = Some cmd ->
  prev x {| _history := h; _index := - Z.of_nat k; _stashed_input := stashed |}
  = Ok cmd {| _history := h; _index := -1; _stashed_input := Some x |}.
Proof.
  intros Hk Hstashed Hx Hlast.
  unfold prev, bind, get, history_at_index, set_index, set_stashed_input, modify,
    try_except, ret.
  cbn [_history _index _stashed_input].
  rewrite (bool_decide_eq_true_2 _ Hstashed).
  assert (h <> []) as Hh by (intros ->; simpl in Hk; lia).
  rewrite (bool_decide_eq_false_2 _ Hh). cbn [andb negb _history _index _stashed_input].
  rewrite getitem_from_end by lia.
  destruct (lookup_lt_is_Some_2 h (length h - k)%nat) as [c Hc]; [lia|].
  rewrite Hc. rewrite bool_decide_eq_true_2 by congruence.
  cbn [_history _index _stashed_input Z.eqb Z.sub Z.add Z.opp Z.pos_sub].
  change (0 - 1) with (-1). by rewrite getitem_last, Hlast.
Qed.

Lemma prev_restarts_after_edit_witness :
  prev "edited"
    {| _history := ["one"; "two"; "three"]; _index := - Z.of_nat 2;
       _stashed_input := Some "typed" |}
  = Ok "three" {| _history := ["one"; "two"; "three"]; _index := -1;
                  _stashed_input := Some "edited" |}.
Proof.
  apply (prev_restarts_after_edit ["one"; "two"; "three"] 2 (Some "typed")
           "edited" "three"); [simpl; lia|done|done|done].
Defined.

(** X23: a command that was just added is the first one the key for the
    previous command shows, wherever the history was left before. *)
Theorem added_command_is_shown_first (self : t) (cmd x : string) :
  (add cmd ;;; prev x) self
  = Ok cmd {| _history := _history self ++ [cmd]; _index := -1;
              _stashed_input := Some x |}.
Proof.
  unfold bind at 1, add, modify.
  change {| _history := _history self ++ [cmd]; _index := 0;
            _stashed_input := _stashed_input self |}
    with (at_place (_history self ++ [cmd]) 0 (_stashed_input self)).
  rewrite prev_step; [|by left|lia]. rewrite decide_True by done.
  change (- Z.of_nat 1) with (-1). by rewrite getitem_last, last_snoc.
Qed.

End CommandsHistoryFacts.

(** ** The number of running processes *)

Module AsyncBoundFacts.
Import Py Async.
Local Open Scope Z_scope.

(** [post m Q]: [Q] relates every object to the object [m] leaves, whether
    [m] returns or raises. *)
Definition post {A} (m : M t A) (Q : t -> t -> Prop) : Prop :=
  forall self, Q self (final_state (m self)).

(** Nothing started, nothing reaped. *)
Definition same_running (self self' : t) : Prop :=
  _curr_running self' = _curr_running self
  /\ _max_background_procs self' = _max_background_procs self
  /\ (next_id self <= next_id self')%nat.

Lemma same_running_refl self : same_running self self.
Proof. by repeat split. Qed.

Lemma same_running_trans s1 s2 s3 :
  same_running s1 s2 -> same_running s2 s3 -> same_running s1 s3.
Proof.
  intros (H1 & H2 & H3) (H4 & H5 & H6). repeat split; [congruence..|lia].
Qed.

Lemma post_ret {A} (a : A) : post (ret a) same_running.
Proof. intros s. apply same_running_refl. Qed.

Lemma post_raise {A} e : post (raise (A := A) e) same_running.
Proof. intros s. apply same_running_refl. Qed.

Lemma post_get : post get same_running.
Proof. intros s. apply same_running_refl. Qed.

Lemma post_bind {A B} (m : M t A) (k : A -> M t B) :
  post m same_running -> (forall a, post (k a) same_running) ->
  post (bind m k) same_running.
Proof.
  intros Hm Hk s. unfold bind. specialize (Hm s).
  destruct (m s) as [a s'|e s']; simpl in *; [|done].
  eapply same_running_trans; [exact Hm|apply Hk].
Qed.

Lemma post_emit e : post (emit e) same_running.
Proof. intros s. by repeat split. Qed.

Lemma post_fresh : post fresh same_running.
Proof. intros s. repeat split; simpl; lia. Qed.

Lemma post_set_run_queue f : post (set_run_queue f) same_running.
Proof. intros s. by repeat split. Qed.

Lemma post_set_context_items f : post (set_context_items f) same_running.
Proof. intros s. by repeat split. Qed.

Lemma post_set_accepting b : post (set_accepting b) same_running.
Proof. intros s. by repeat split. Qed.

Lemma post_set_watched f : post (set_watched f) same_running.
Proof. intros s. by repeat split. Qed.

Ltac frame :=
  repeat first
    [ apply post_ret | apply post_raise | apply post_get | apply post_emit
    | apply post_fresh | apply post_set_run_queue | apply post_set_context_items
    | apply post_set_accepting | apply post_set_watched
    | apply post_bind; [|intros ?]
    | progress cbv zeta
    | match goal with
      | |- post (if ?b then _ else _) _ => destruct b
      | |- post (match ?x with _ => _ end) _ => destruct x
      end ].

Lemma post_on_curr_item f : post (on_curr_item f) same_running.
Proof. unfold on_curr_item. frame. Qed.

Lemma post__add_run_to_queue run_id r : post (_add_run_to_queue run_id r) same_running.
Proof.
  unfold _add_run_to_queue, _add_buffered_run. frame.
Qed.

Lemma post__new_item callback proc_callback :
  post (_new_item callback proc_callback) same_running.
Proof. unfold _new_item. frame. Qed.

Lemma post__pop_callback item : post (_pop_callback item) same_running.
Proof. unfold _pop_callback. frame. Qed.

Lemma post__finalize_item : post _finalize_item same_running.
Proof. unfold _finalize_item. frame. Qed.

Lemma post__remove_buffered_run run_params started_proc :
  post (_remove_buffered_run run_params started_proc) same_running.
Proof. unfold _remove_buffered_run. frame. Qed.

Lemma final_state_then_ret {A} (m : M t unit) (a : A) self :
  final_state ((m ;;; ret a) self) = final_state (m self).
Proof. unfold bind, ret. by destruct (m self). Qed.

(** The process [proc] was started. *)
Definition started (proc : nat) (self self' : t) : Prop :=
  _curr_running self' = _curr_running self ∪ {[proc]}
  /\ _max_background_procs self' = _max_background_procs self
  /\ (next_id self <= next_id self')%nat.

Lemma _on_proc_started_running proc : post (_on_proc_started proc) (started proc).
Proof.
  intros self. unfold _on_proc_started, bind at 1, set_curr_running, modify.
  match goal with
  | |- started _ _ (final_state (?rest ?s)) =>
      assert (Hrest : same_running s (final_state (rest s)))
  end.
  { apply (post_bind get); [apply post_get|].
    intros s. destruct (negb _); [apply post_ret|apply post_on_curr_item]. }
  destruct Hrest as (Hr & Hm & Hn). unfold started. by rewrite Hr, Hm.
Qed.

(** The object when [AsyncProc.run] calls [_on_proc_started]. *)
Definition after_popen (r : run_args) (self : t) : t :=
  {| _curr_running := _curr_running self; _run_queue := _run_queue self;
     _max_background_procs := _max_background_procs self;
     _context_items := _context_items self;
     _accepting_new_procs_for_item := _accepting_new_procs_for_item self;
     watched := <[next_id self := r]> (watched self);
     next_id := S (next_id self);
     trace := trace self ++ [ev_popen (next_id self) (args r)] |}.

Lemma AsyncProc_run_unfold r self :
  AsyncProc_run r self
  = (_on_proc_started (next_id self) ;;; ret (next_id self)) (after_popen r self).
Proof. reflexivity. Qed.

Lemma AsyncProc_run_started r self :
  started (next_id self) self (final_state (AsyncProc_run r self))
  /\ (next_id self < next_id (final_state (AsyncProc_run r self)))%nat.
Proof.
  rewrite AsyncProc_run_unfold, final_state_then_ret.
  destruct (_on_proc_started_running (next_id self) (after_popen r self)) as (Hr & Hm & Hn).
  change (_curr_running (after_popen r self)) with (_curr_running self) in Hr.
  change (_max_background_procs (after_popen r self)) with (_max_background_procs self) in Hm.
  change (next_id (after_popen r self)) with (S (next_id self)) in Hn.
  unfold started. repeat split; [done..|lia|lia].
Qed.

(** The limit is [max_procs], at most that many processes run, and the
    identities in use are below the next fresh one. *)
Definition bounded (max_procs : Z) (self : t) : Prop :=
  _max_background_procs self = max_procs
  /\ Z.of_nat (size (_curr_running self)) <= max_procs
  /\ forall proc, proc ∈ _curr_running self -> (proc < next_id self)%nat.

Lemma bounded_same_running max_procs self self' :
  same_running self self' -> bounded max_procs self -> bounded max_procs self'.
Proof.
  intros (Hr & Hm & Hn) (Hmax & Hsize & Hfresh).
  split; [congruence|]. split; [by rewrite Hr|].
  intros proc Hproc. rewrite Hr in Hproc. specialize (Hfresh proc Hproc). lia.
Qed.

Lemma bounded_started max_procs proc self self' :
  started proc self self' -> bounded max_procs self ->
  (next_id self <= proc < next_id self')%nat ->
  Z.of_nat (size (_curr_running self)) < max_procs ->
  bounded max_procs self'.
Proof.
  intros (Hr & Hm & Hn) (Hmax & Hsize & Hfresh) Hproc Hfree.
  split; [congruence|]. split.
  - rewrite Hr, size_union, size_singleton; [lia|].
    apply disjoint_singleton_r. intros Hin. specialize (Hfresh _ Hin). lia.
  - intros p Hp. rewrite Hr in Hp.
    apply elem_of_union in Hp as [Hp|Hp%elem_of_singleton];
      [specialize (Hfresh _ Hp)|]; lia.
Qed.

Lemma run_bounded max_procs r self :
  bounded max_procs self -> bounded max_procs (final_state (run r self)).
Proof.
  intros Hb. pose proof Hb as (Hmax & Hsize & Hfresh).
  unfold run, bind at 1, fresh. unfold bind at 1, get.
  unfold _max_procs_reached. cbn [_curr_running _max_background_procs].
  match goal with
  | |- context [(if _ then _ else _) ?s] =>
      assert (Hs : bounded max_procs s)
        by (split; [done|]; split; [done|]; intros p Hp; specialize (Hfresh p Hp);
            simpl; lia);
      set (s0 := s) in *
  end.
  destruct (Z.eqb_spec (Z.of_nat (size (_curr_running self)))
              (_max_background_procs self)) as [Hfull|Hfree]; cbn [negb].
  - rewrite final_state_then_ret.
    eapply bounded_same_running; [apply post__add_run_to_queue|done].
  - unfold bind.
    destruct (AsyncProc_run_started r s0) as (Hstarted & Hn).
    assert (Hb' : bounded max_procs (final_state (AsyncProc_run r s0))).
    { eapply bounded_started; [exact Hstarted|done|lia|]. unfold s0. simpl. lia. }
    by destruct (AsyncProc_run r s0).
Qed.

Lemma _pop_run_running proc self :
  match _pop_run proc self with
  | Ok _ self' =>
      proc ∈ _curr_running self
      /\ _curr_running self' = _curr_running self ∖ {[proc]}
      /\ _max_background_procs self' = _max_background_procs self
      /\ next_id self' = next_id self
  | Raised _ self' => self' = self
  end.
Proof.
  unfold _pop_run, bind at 1, get. unfold bind at 1.
  destruct (bool_decide_reflect (proc ∈ _curr_running self)) as [Hin|Hout]; [|done].
  unfold set_curr_running, modify.
  destruct (_run_queue self) as [|next q]; [done|].
  by unfold bind, set_run_queue, modify, ret.
Qed.

Lemma _on_proc_done_bounded max_procs proc self :
  bounded max_procs self -> bounded max_procs (final_state (_on_proc_done proc self)).
Proof.
  intros Hb. unfold _on_proc_done, bind at 1.
  assert (Hqueued : bounded max_procs (final_state (AsyncQueued__on_proc_done proc self))).
  { unfold AsyncQueued__on_proc_done, bind at 1.
    pose proof (_pop_run_running proc self) as Hpop.
    destruct (_pop_run proc self) as [next s1|e s1]; [|by subst s1].
    destruct Hpop as (Hin & Hr & Hm & Hn). destruct Hb as (Hmax & Hsize & Hfresh).
    assert (Hsize1 : (size (_curr_running s1) + 1 = size (_curr_running self))%nat).
    { rewrite Hr, size_difference, size_singleton by set_solver.
      assert (size (_curr_running self) <> 0%nat); [|lia].
      apply size_non_empty_iff. set_solver. }
    assert (Hs1 : bounded max_procs s1).
    { split; [congruence|]. split; [lia|]. intros p Hp. rewrite Hr in Hp.
      apply elem_of_difference in Hp as [Hp _]. specialize (Hfresh _ Hp). lia. }
    destruct next as [[run_id r]|]; simpl; [|done].
    unfold bind.
    destruct (AsyncProc_run_started r s1) as (Hstarted & Hn').
    assert (Hb' : bounded max_procs (final_state (AsyncProc_run r s1))).
    { eapply bounded_started; [exact Hstarted|done|lia|lia]. }
    by destruct (AsyncProc_run r s1). }
  destruct (AsyncQueued__on_proc_done proc self) as [res s1|e s1]; [|done].
  simpl in Hqueued.
  eapply bounded_same_running; [|exact Hqueued].
  match goal with
  | |- same_running s1 (final_state (?rest s1)) =>
      assert (Hrest : post rest same_running); [|apply Hrest]
  end.
  apply post_bind; [apply post__remove_buffered_run|]. intros _.
  apply post_bind; [apply post_get|]. intros s.
  destruct (list_find _ _) as [[k item]|]; [|apply post_ret].
  apply post_bind; [apply post_set_context_items|]. intros _.
  apply post_bind; [destruct (proc_callback _); [apply post_emit|apply post_ret]|].
  intros _. apply post_bind; [apply post_get|]. intros s'.
  destruct (negb _); [apply post__pop_callback|apply post_ret].
Qed.

Lemma watchpipe_handler_bounded max_procs proc self :
  bounded max_procs self ->
  bounded max_procs (final_state (watchpipe_handler proc self)).
Proof.
  intros Hb. unfold watchpipe_handler, bind at 1, get.
  destruct (watched self !! proc) as [r|]; [|done].
  unfold bind at 1, set_watched, modify. unfold bind at 1.
  match goal with
  | |- context [match ?m ?s with _ => _ end] =>
      assert (Hs : bounded max_procs s) by (destruct Hb as (? & ? & ?); by repeat split);
      assert (Hm : same_running s (final_state (m s)))
        by (destruct (callback r); [apply post_emit|apply post_ret]);
      destruct (m s) as [[] s1|e s1]; simpl in Hm;
      pose proof (bounded_same_running _ _ _ Hm Hs) as Hs1
  end; [|done].
  by apply _on_proc_done_bounded.
Qed.

(** The calls made on the scheduler: a command is submitted, a started
    process exits (its handler is run), a [callback_finally] block is
    entered and left. *)
Inductive queue_call : Type :=
  | call_run (r : run_args)
  | call_exit (proc : nat)
  | call_enter (callback proc_callback : option string)
  | call_leave.

Definition run_queue_call (self : t) (c : queue_call) : t :=
  match c with
  | call_run r => final_state (run r self)
  | call_exit proc => final_state (watchpipe_handler proc self)
  | call_enter callback proc_callback =>
      final_state (_new_item callback proc_callback self)
  | call_leave => final_state (_finalize_item self)
  end.

Lemma run_queue_call_bounded max_procs self c :
  bounded max_procs self -> bounded max_procs (run_queue_call self c).
Proof.
  intros Hb. destruct c as [r|proc|callback proc_callback|]; simpl.
  - by apply run_bounded.
  - by apply watchpipe_handler_bounded.
  - eapply bounded_same_running; [apply post__new_item|done].
  - eapply bounded_same_running; [apply post__finalize_item|done].
Qed.

(** X24: whatever commands are submitted, whatever processes exit and in
    whatever order, and whatever [callback_finally] blocks are opened and
    closed, the number of running processes never exceeds the limit
    [_max_background_procs] the scheduler was created with. *)
Theorem running_processes_never_exceed_limit (max_procs : Z) (calls : list queue_call) :
  0 <= max_procs ->
  Z.of_nat (size (_curr_running (foldl run_queue_call (new max_procs) calls))) <= max_procs.
Proof.
  intros Hmax.
  assert (H : forall self, bounded max_procs self ->
                           bounded max_procs (foldl run_queue_call self calls)).
  { induction calls as [|c calls IH]; intros self Hb; [done|].
    simpl. by apply IH, run_queue_call_bounded. }
  destruct (H (new max_procs)) as (_ & Hsize & _); [|done].
  split; [done|]. split; [|by intros proc Hproc%elem_of_empty].
  cbn [new _curr_running]. rewrite size_empty. lia.
Qed.

Lemma running_processes_never_exceed_limit_witness :
  Z.of_nat (size (_curr_running
    (foldl run_queue_call (new 1)
       [call_run {| args := "a"; callback := None; shell := false |};
        call_run {| args := "b"; callback := None; shell := false |};
        call_exit 1]))) <= 1.
Proof.
  apply (running_processes_never_exceed_limit 1
           [call_run {| args := "a"; callback := None; shell := false |};
            call_run {| args := "b"; callback := None; shell := false |};
            call_exit 1]).
  lia.
Defined.

End AsyncBoundFacts.

(** ** More about the output classifier *)

Module DaemonMoreFacts.
Import Py Daemon.
Local Open Scope Z_scope.

(** X25: a send command that failed, other than a group send that names an
    unregistered user, never raises: the callback is called with
    [send_failed], after [untrusted_identity_err] when the output mentions
    an untrusted identity, or else after [user_unregistered_err] when it
    mentions an unregistered user. *)
Theorem failed_send_reports_send_failed
    (is_envelope_group_message : Envelope -> bool)
    (proc : Proc) (envelope : Envelope) (callback_name : string)
    (calls : list callback_call) :
  returncode proc <> 0 ->
  PyStr.contains "UntrustedIdentity" (output proc)
    || PyStr.contains "Untrusted Identity" (output proc) = true
  \/ PyStr.contains "Unregistered user" (output proc) = false
  \/ is_envelope_group_message envelope = false ->
  _parse_send_proc_output is_envelope_group_message proc envelope callback_name calls
  = Ok tt (calls
           ++ (if PyStr.contains "UntrustedIdentity" (output proc)
                  || PyStr.contains "Untrusted Identity" (output proc)
               then [untrusted_identity_err envelope]
               else if PyStr.contains "Unregistered user" (output proc)
               then [user_unregistered_err envelope]
               else [])
           ++ [named_callback callback_name envelope
                 (Some DeliveryStatus.st_send_failed) None]).
Proof.
  intros Hcode Hcase. unfold _parse_send_proc_output.
  destruct (Z.eqb_spec (returncode proc) 0) as [|_]; [done|]. cbn [negb].
  unfold bind at 1.
  destruct (PyStr.contains "UntrustedIdentity" (output proc)
            || PyStr.contains "Untrusted Identity" (output proc)) eqn:Huntrusted.
  - unfold bind, call, modify, ret. by rewrite <- app_assoc.
  - destruct (PyStr.contains "Unregistered user" (output proc)) eqn:Hunregistered.
    + destruct Hcase as [?|[?|Hgroup]]; [done..|]. rewrite Hgroup. cbn [negb].
      unfold bind, call, modify, ret. by rewrite <- app_assoc.
    + unfold ret, call, modify. by rewrite app_nil_l.
Qed.

Lemma failed_send_reports_send_failed_witness :
  _parse_send_proc_output (fun _ => true)
    {| returncode := 1; output := "Failed: UntrustedIdentityException" |}
    {| source := "me"; timestamp := 1; dataMessage_timestamp := 1;
       _received_timestamp := None; content := "" |} "sending_done" []
  = Ok tt ([]
           ++ (if PyStr.contains "UntrustedIdentity" "Failed: UntrustedIdentityException"
                  || PyStr.contains "Untrusted Identity"
                       "Failed: UntrustedIdentityException"
               then [untrusted_identity_err
                       {| source := "me"; timestamp := 1; dataMessage_timestamp := 1;
                          _received_timestamp := None; content := "" |}]
               else if PyStr.contains "Unregistered user"
                         "Failed: UntrustedIdentityException"
               then [user_unregistered_err
                       {| source := "me"; timestamp := 1; dataMessage_timestamp := 1;
                          _received_timestamp := None; content := "" |}]
               else [])
           ++ [named_callback "sending_done"
                 {| source := "me"; timestamp := 1; dataMessage_timestamp := 1;
                    _received_timestamp := None; content := "" |}
                 (Some DeliveryStatus.st_send_failed) None]).
Proof.
  apply (failed_send_reports_send_failed (fun _ => true)
           {| returncode := 1; output := "Failed: UntrustedIdentityException" |}).
  - simpl. lia.
  - left. reflexivity.
Defined.

(** *** The adjusted timestamp in the output of a successful send *)













End DaemonMoreFacts.
